(** * VibeCity: the simulation core of the driving game, embedded in Rocq

    The game's numeric state is JavaScript [Number]s.  They are modelled here
    as real numbers: rounding, infinities and NaN are outside the model, so
    every statement below is about the exact arithmetic the code writes down.

    The development follows the source files:
    - [THREE]   the few operations of the three.js vector classes the
                simulation calls ([Vector3], [Euler]);
    - [JsMath]  [Math.sign], [Math.atan2], [Math.ceil], comparisons;
    - the car   ([src/js/car.js]): [Car.update], [checkCollisions],
                [checkBoxCollision], [lineIntersectsBox],
                [getSteeringIntensity];
    - the game  (the [Game] class): [updateBoost], [Game.update],
                [checkRampInteractions], [updatePhysicsObjects],
                [resetPhysicsObject], [updateHumans], [killHuman],
                [addScore].

    Scene graph objects (meshes, lights, particles, DOM widgets) are
    presentation and carry no simulation state; they are left out, except
    for the mesh parameters the box collision test reads. *)

From Stdlib Require Import Reals Lra Lia ZArith List Bool.
From Stdlib Require Import Zfloor.
Import ListNotations.

Open Scope R_scope.

(** ** JavaScript comparisons and [Math] functions on numbers *)

Module JsMath.

Definition ltb (a b : R) : bool := if Rlt_dec a b then true else false.
Definition leb (a b : R) : bool := if Rle_dec a b then true else false.
Definition gtb (a b : R) : bool := ltb b a.
Definition geb (a b : R) : bool := leb b a.
Definition eqb (a b : R) : bool := if Req_dec_T a b then true else false.

(** [Math.sign] *)
Definition sign (a : R) : R :=
  if Rlt_dec 0 a then 1 else if Rlt_dec a 0 then -1 else 0.

(** [Math.atan2(y, x)] *)
Definition atan2 (y x : R) : R :=
  if Rlt_dec 0 x then atan (y / x)
  else if Rlt_dec x 0 then
         (if Rle_dec 0 y then atan (y / x) + PI else atan (y / x) - PI)
  else if Rlt_dec 0 y then PI / 2
  else if Rlt_dec y 0 then - (PI / 2)
  else 0.

(** [Math.ceil] and [Math.floor], as integers *)
Definition ceil (a : R) : Z := Zceil a.
Definition floor (a : R) : Z := Zfloor a.

(** The remainder operator [a % b] on numbers: the quotient is truncated
    toward zero. *)
Definition trunc (a : R) : Z := if Rle_dec 0 a then Zfloor a else Zceil a.
Definition rem (a b : R) : R := a - b * IZR (trunc (a / b)).

End JsMath.

(** ** The three.js value classes used by the simulation *)

Module THREE.

Record Vector3 : Type := V3 { vx : R; vy : R; vz : R }.

Record Euler : Type := mkEuler { ex : R; ey : R; ez : R }.

Definition add (a b : Vector3) : Vector3 :=
  V3 (vx a + vx b) (vy a + vy b) (vz a + vz b).

Definition sub (a b : Vector3) : Vector3 :=
  V3 (vx a - vx b) (vy a - vy b) (vz a - vz b).

Definition multiplyScalar (a : Vector3) (k : R) : Vector3 :=
  V3 (vx a * k) (vy a * k) (vz a * k).

Definition dot (a b : Vector3) : R :=
  vx a * vx b + vy a * vy b + vz a * vz b.

Definition lengthSq (a : Vector3) : R := dot a a.

Definition length (a : Vector3) : R := sqrt (lengthSq a).

(** [normalize] is [divideScalar(length() || 1)]: the zero vector is left
    as it is. *)
Definition normalize (a : Vector3) : Vector3 :=
  if Req_dec_T (length a) 0 then a
  else V3 (vx a / length a) (vy a / length a) (vz a / length a).

Definition distanceTo (a b : Vector3) : R := length (sub a b).

Definition setX (a : Vector3) (v : R) : Vector3 := V3 v (vy a) (vz a).
Definition setY (a : Vector3) (v : R) : Vector3 := V3 (vx a) v (vz a).
Definition setZ (a : Vector3) (v : R) : Vector3 := V3 (vx a) (vy a) v.

Definition setEx (e : Euler) (v : R) : Euler := mkEuler v (ey e) (ez e).
Definition setEy (e : Euler) (v : R) : Euler := mkEuler (ex e) v (ez e).
Definition setEz (e : Euler) (v : R) : Euler := mkEuler (ex e) (ey e) v.

(** [v.applyEuler(e)] for the default order 'XYZ': the rotation matrix
    three.js builds in [makeRotationFromEuler], applied to [v]. *)
Definition applyEuler (v : Vector3) (e : Euler) : Vector3 :=
  let a := cos (ex e) in let b := sin (ex e) in
  let c := cos (ey e) in let d := sin (ey e) in
  let e' := cos (ez e) in let f := sin (ez e) in
  V3 (c * e' * vx v - c * f * vy v + d * vz v)
     ((a * f + b * e' * d) * vx v + (a * e' - b * f * d) * vy v - b * c * vz v)
     ((b * f - a * e' * d) * vx v + (b * e' + a * f * d) * vy v + a * c * vz v).

(** [v.applyAxisAngle((0,1,0), angle)]: rotation about the vertical axis. *)
Definition applyAxisAngleY (v : Vector3) (angle : R) : Vector3 :=
  V3 (vx v * cos angle + vz v * sin angle)
     (vy v)
     (vz v * cos angle - vx v * sin angle).

End THREE.

Import THREE.

From Stdlib Require Import String.

Declare Scope js_scope.
Infix "<?" := JsMath.ltb (at level 70, no associativity) : js_scope.
Infix "<=?" := JsMath.leb (at level 70, no associativity) : js_scope.
Infix ">?" := JsMath.gtb (at level 70, no associativity) : js_scope.
Infix ">=?" := JsMath.geb (at level 70, no associativity) : js_scope.
Open Scope js_scope.

(** ** World data read by the simulation (built by the [City] class) *)

(** The [type] tag of an obstacle. *)
Inductive ObstacleType : Type :=
| building | skyscraper | boundary | stadium | fountain | tree | parkedCar.

Module Mesh.
(** [mesh.geometry.parameters] of a box geometry, and [mesh.rotation.y].
    Each level may be missing: [checkBoxCollision] tests for it. *)
Record Parameters : Type := { width : R; depth : R }.
Record Geometry : Type := { parameters : option Parameters }.
Record t : Type := { geometry : option Geometry; rotation_y : R }.
End Mesh.

Module Obstacle.
Record t : Type := {
  type : ObstacleType;
  position : option Vector3;
  boundingRadius : R;
  mesh : option Mesh.t
}.
End Obstacle.

(** An entry of the [ramps] array: a directional ramp ([type: 'ramp']) or an
    omnidirectional launchpad ([type: 'launchpad', omnidirectional: true]). *)
Module Ramp.
Inductive t : Type :=
| Directional (position : Vector3)
              (rotation width length height jumpStrength : R)
| Launchpad (position : Vector3) (radius height jumpStrength : R).
End Ramp.

(** ** [InputHandler] *)

Module InputHandler.
(** The key table [this.keys], as [isKeyDown] reads it: [keys h key] is
    the test [this.keys[key] === true]. *)
Record t : Type := { keys : string -> bool }.
Definition isKeyDown (h : t) (key : string) : bool := keys h key.

(** The handler the constructor builds: [this.keys = {}]. *)
Definition new : t := {| keys := fun _ => false |}.

(** The assignment [this.keys[key] = value] on the plain object
    [this.keys], seen through the test [this.keys[k] === true] of
    [isKeyDown].  It creates or overwrites the own property [key], for
    every key but ["__proto__"]: that name is the accessor inherited from
    [Object.prototype], whose setter ignores a value that is not an object
    or [null], so no property is created and what [isKeyDown] reads stays
    as it was. *)
Definition assign (h : t) (key : string) (value : bool) : t :=
  if String.eqb key "__proto__" then h
  else {| keys := fun k => if String.eqb k key then value else keys h k |}.

(** [onKeyDown(e)] and [onKeyUp(e)], for [e.key = key]: the assignments
    [this.keys[e.key] = true] and [this.keys[e.key] = false]. *)
Definition onKeyDown (h : t) (key : string) : t := assign h key true.

Definition onKeyUp (h : t) (key : string) : t := assign h key false.

(** The events the two listeners of the constructor receive, with their
    [key], and what the listeners do with them. *)
Inductive KeyboardEvent : Type :=
| keydown (key : string)
| keyup (key : string).

Definition keyOf (e : KeyboardEvent) : string :=
  match e with keydown key | keyup key => key end.

Definition dispatch (h : t) (e : KeyboardEvent) : t :=
  match e with
  | keydown key => onKeyDown h key
  | keyup key => onKeyUp h key
  end.

(** [keyArray.some(key => this.isKeyDown(key))] *)
Definition isAnyKeyDown (h : t) (keyArray : list string) : bool :=
  existsb (isKeyDown h) keyArray.

(** The object [{ x, z }] that [getDirectionalInput] returns. *)
Record DirectionalInput : Type := { dix : R; diz : R }.

Definition getDirectionalInput (h : t) : DirectionalInput :=
  let x := 0 in
  let z := 0 in
  let z := if isKeyDown h "ArrowUp" || isKeyDown h "w" then 1 else z in
  let z := if isKeyDown h "ArrowDown" || isKeyDown h "s" then -1 else z in
  let x := if isKeyDown h "ArrowLeft" || isKeyDown h "a" then -1 else x in
  let x := if isKeyDown h "ArrowRight" || isKeyDown h "d" then 1 else x in
  {| dix := x; diz := z |}.
End InputHandler.

(** ** [Car] (src/js/car.js) *)

Module Car.

Record t : Type := mk {
  position : Vector3;
  rotation : Euler;
  direction : Vector3;
  velocity : Vector3;
  speed : R;
  isAirborne : bool;
  verticalVelocity : R;
  onRamp : bool;
  rampHeight : R;
  currentRamp : option Ramp.t;
  currentTurnAmount : R;
  lastValidPosition : Vector3;
  colliding : bool;
  isDrifting : bool;
  lastDriftMarkTime : R
}.

(** Settings fixed by the constructor and never assigned again. *)
Definition gravity : R := 20.
Definition maxSpeed : R := 40.
Definition acceleration : R := 25.
Definition braking : R := 35.
Definition deceleration : R := 8.
Definition turnSpeed : R := PI * 1.2.
Definition turnInertia : R := 0.15.
Definition boundingRadius : R := 1.8.
Definition bounceFactor : R := 0.3.
Definition driftThreshold : R := 0.6.
Definition driftMarkInterval : R := 0.05.

(** The state the constructor builds. *)
Definition new : t :=
  mk (V3 0 0.5 0) (mkEuler 0 0 0) (V3 0 0 1) (V3 0 0 0) 0
     false 0 false 0 None 0 (V3 0 0.5 0) false false 0.

(** Field assignments. *)
Definition set_position (c : t) (v : Vector3) : t :=
  mk v (rotation c) (direction c) (velocity c) (speed c) (isAirborne c)
     (verticalVelocity c) (onRamp c) (rampHeight c) (currentRamp c)
     (currentTurnAmount c) (lastValidPosition c) (colliding c)
     (isDrifting c) (lastDriftMarkTime c).
Definition set_rotation (c : t) (v : Euler) : t :=
  mk (position c) v (direction c) (velocity c) (speed c) (isAirborne c)
     (verticalVelocity c) (onRamp c) (rampHeight c) (currentRamp c)
     (currentTurnAmount c) (lastValidPosition c) (colliding c)
     (isDrifting c) (lastDriftMarkTime c).
Definition set_direction (c : t) (v : Vector3) : t :=
  mk (position c) (rotation c) v (velocity c) (speed c) (isAirborne c)
     (verticalVelocity c) (onRamp c) (rampHeight c) (currentRamp c)
     (currentTurnAmount c) (lastValidPosition c) (colliding c)
     (isDrifting c) (lastDriftMarkTime c).
Definition set_velocity (c : t) (v : Vector3) : t :=
  mk (position c) (rotation c) (direction c) v (speed c) (isAirborne c)
     (verticalVelocity c) (onRamp c) (rampHeight c) (currentRamp c)
     (currentTurnAmount c) (lastValidPosition c) (colliding c)
     (isDrifting c) (lastDriftMarkTime c).
Definition set_speed (c : t) (v : R) : t :=
  mk (position c) (rotation c) (direction c) (velocity c) v (isAirborne c)
     (verticalVelocity c) (onRamp c) (rampHeight c) (currentRamp c)
     (currentTurnAmount c) (lastValidPosition c) (colliding c)
     (isDrifting c) (lastDriftMarkTime c).
Definition set_isAirborne (c : t) (v : bool) : t :=
  mk (position c) (rotation c) (direction c) (velocity c) (speed c) v
     (verticalVelocity c) (onRamp c) (rampHeight c) (currentRamp c)
     (currentTurnAmount c) (lastValidPosition c) (colliding c)
     (isDrifting c) (lastDriftMarkTime c).
Definition set_verticalVelocity (c : t) (v : R) : t :=
  mk (position c) (rotation c) (direction c) (velocity c) (speed c)
     (isAirborne c) v (onRamp c) (rampHeight c) (currentRamp c)
     (currentTurnAmount c) (lastValidPosition c) (colliding c)
     (isDrifting c) (lastDriftMarkTime c).
Definition set_onRamp (c : t) (v : bool) : t :=
  mk (position c) (rotation c) (direction c) (velocity c) (speed c)
     (isAirborne c) (verticalVelocity c) v (rampHeight c) (currentRamp c)
     (currentTurnAmount c) (lastValidPosition c) (colliding c)
     (isDrifting c) (lastDriftMarkTime c).
Definition set_rampHeight (c : t) (v : R) : t :=
  mk (position c) (rotation c) (direction c) (velocity c) (speed c)
     (isAirborne c) (verticalVelocity c) (onRamp c) v (currentRamp c)
     (currentTurnAmount c) (lastValidPosition c) (colliding c)
     (isDrifting c) (lastDriftMarkTime c).
Definition set_currentRamp (c : t) (v : option Ramp.t) : t :=
  mk (position c) (rotation c) (direction c) (velocity c) (speed c)
     (isAirborne c) (verticalVelocity c) (onRamp c) (rampHeight c) v
     (currentTurnAmount c) (lastValidPosition c) (colliding c)
     (isDrifting c) (lastDriftMarkTime c).
Definition set_currentTurnAmount (c : t) (v : R) : t :=
  mk (position c) (rotation c) (direction c) (velocity c) (speed c)
     (isAirborne c) (verticalVelocity c) (onRamp c) (rampHeight c)
     (currentRamp c) v (lastValidPosition c) (colliding c)
     (isDrifting c) (lastDriftMarkTime c).
Definition set_lastValidPosition (c : t) (v : Vector3) : t :=
  mk (position c) (rotation c) (direction c) (velocity c) (speed c)
     (isAirborne c) (verticalVelocity c) (onRamp c) (rampHeight c)
     (currentRamp c) (currentTurnAmount c) v (colliding c)
     (isDrifting c) (lastDriftMarkTime c).
Definition set_colliding (c : t) (v : bool) : t :=
  mk (position c) (rotation c) (direction c) (velocity c) (speed c)
     (isAirborne c) (verticalVelocity c) (onRamp c) (rampHeight c)
     (currentRamp c) (currentTurnAmount c) (lastValidPosition c) v
     (isDrifting c) (lastDriftMarkTime c).
Definition set_isDrifting (c : t) (v : bool) : t :=
  mk (position c) (rotation c) (direction c) (velocity c) (speed c)
     (isAirborne c) (verticalVelocity c) (onRamp c) (rampHeight c)
     (currentRamp c) (currentTurnAmount c) (lastValidPosition c)
     (colliding c) v (lastDriftMarkTime c).
Definition set_lastDriftMarkTime (c : t) (v : R) : t :=
  mk (position c) (rotation c) (direction c) (velocity c) (speed c)
     (isAirborne c) (verticalVelocity c) (onRamp c) (rampHeight c)
     (currentRamp c) (currentTurnAmount c) (lastValidPosition c)
     (colliding c) (isDrifting c) v.

Definition getPosition (c : t) : Vector3 := position c.
Definition getDirection (c : t) : Vector3 := direction c.
Definition getSpeed (c : t) : R := Rabs (speed c).
Definition getBoundingRadius (c : t) : R := boundingRadius.

(** The body of [getSteeringIntensity], as a function of the normalized
    speed it first computes. *)
Definition steeringIntensityAt (normalizedSpeed : R) : R :=
  if normalizedSpeed <? 0.2 then 1.2
  else if normalizedSpeed <? 0.6 then 1.0
  else 0.8 - (normalizedSpeed - 0.6) * 0.3.

Definition getSteeringIntensity (c : t) : R :=
  steeringIntensityAt (Rabs (speed c) / maxSpeed).

(** *** Collision tests *)

Record Box : Type := { bmin : Vector3; bmax : Vector3 }.

Definition orSmall (d : R) : R :=
  if Req_dec_T d 0 then 0.00001 else d.

Definition lineIntersectsBox (start end_ : Vector3) (box : Box) : bool :=
  let direction0 := sub end_ start in
  let length := THREE.length direction0 in
  let direction := normalize direction0 in
  let tMin := (vx (bmin box) - vx start) / orSmall (vx direction) in
  let tMax := (vx (bmax box) - vx start) / orSmall (vx direction) in
  let tYMin := (vy (bmin box) - vy start) / orSmall (vy direction) in
  let tYMax := (vy (bmax box) - vy start) / orSmall (vy direction) in
  let tMinFinal := Rmax (Rmin tMin tMax) (Rmin tYMin tYMax) in
  let tMaxFinal := Rmin (Rmax tMin tMax) (Rmax tYMin tYMax) in
  if (tMaxFinal <? 0) || (tMinFinal >? tMaxFinal) || (tMinFinal >? length)
  then false
  else
    let tZMin := (vz (bmin box) - vz start) / orSmall (vz direction) in
    let tZMax := (vz (bmax box) - vz start) / orSmall (vz direction) in
    let tMinZ := Rmax tMinFinal (Rmin tZMin tZMax) in
    let tMaxZ := Rmin tMaxFinal (Rmax tZMin tZMax) in
    if (tMaxZ <? 0) || (tMinZ >? tMaxZ) || (tMinZ >? length)
    then false
    else true.

(** [checkBoxCollision(position, obstacle)]; [opos] is
    [obstacle.position], which the caller has found present. *)
Definition checkBoxCollision
    (pos : Vector3) (o : Obstacle.t) (opos : Vector3) : bool :=
  match Obstacle.mesh o with
  | None => false
  | Some m =>
    match Mesh.geometry m with
    | None => false
    | Some g =>
      match Mesh.parameters g with
      | None => false
      | Some p =>
        let halfWidth := Mesh.width p / 2 in
        let halfDepth := Mesh.depth p / 2 in
        let carBoundingBox :=
          {| bmin := V3 (vx pos - boundingRadius) (vy pos - boundingRadius)
                        (vz pos - boundingRadius);
             bmax := V3 (vx pos + boundingRadius) (vy pos + boundingRadius)
                        (vz pos + boundingRadius) |} in
        let obstacleRotation := Mesh.rotation_y m in
        let corner (cx cz : R) : Vector3 :=
          add (V3 (cx * cos obstacleRotation - cz * sin obstacleRotation)
                  0
                  (cx * sin obstacleRotation + cz * cos obstacleRotation))
              opos in
        let c0 := corner (- halfWidth) (- halfDepth) in
        let c1 := corner halfWidth (- halfDepth) in
        let c2 := corner halfWidth halfDepth in
        let c3 := corner (- halfWidth) halfDepth in
        if lineIntersectsBox c0 c1 carBoundingBox then true
        else if lineIntersectsBox c1 c2 carBoundingBox then true
        else if lineIntersectsBox c2 c3 carBoundingBox then true
        else if lineIntersectsBox c3 c0 carBoundingBox then true
        else
          let relativePos := sub pos opos in
          let rotatedX := vx relativePos * cos (- obstacleRotation)
                          + vz relativePos * sin (- obstacleRotation) in
          let rotatedZ := - vx relativePos * sin (- obstacleRotation)
                          + vz relativePos * cos (- obstacleRotation) in
          (Rabs rotatedX <? halfWidth) && (Rabs rotatedZ <? halfDepth)
      end
    end
  end.

(** The object [checkCollisions] returns: [{ colliding: false }], or the
    obstacle hit with its position and the contact normal. *)
Inductive CollisionResult : Type :=
| NoCollision
| Collision (obstacle : Obstacle.t) (obstaclePosition : Vector3)
            (collisionNormal : option Vector3).

Definition isColliding (r : CollisionResult) : bool :=
  match r with NoCollision => false | Collision _ _ _ => true end.

Definition usesBoxCollision (ty : ObstacleType) : bool :=
  match ty with
  | building | skyscraper | boundary | stadium => true
  | _ => false
  end.

Fixpoint checkCollisions (pos : Vector3) (obstacles : list Obstacle.t)
  : CollisionResult :=
  match obstacles with
  | [] => NoCollision
  | o :: rest =>
    match Obstacle.position o with
    | None => checkCollisions pos rest
    | Some opos =>
      if usesBoxCollision (Obstacle.type o) then
        if checkBoxCollision pos o opos
        then Collision o opos (Some (normalize (sub pos opos)))
        else checkCollisions pos rest
      else if negb (JsMath.eqb (Obstacle.boundingRadius o) 0) then
        if distanceTo pos opos <? boundingRadius + Obstacle.boundingRadius o
        then Collision o opos (Some (normalize (sub pos opos)))
        else checkCollisions pos rest
      else checkCollisions pos rest
    end
  end.

(** *** [update(inputHandler, deltaTime, obstacles)]

    The method body is one long sequence; it is cut here into the blocks
    its own comments mark, in source order. *)

Definition forwardKey (h : InputHandler.t) : bool :=
  InputHandler.isKeyDown h "ArrowUp" || InputHandler.isKeyDown h "w".
Definition backKey (h : InputHandler.t) : bool :=
  InputHandler.isKeyDown h "ArrowDown" || InputHandler.isKeyDown h "s".
Definition leftKey (h : InputHandler.t) : bool :=
  InputHandler.isKeyDown h "ArrowLeft" || InputHandler.isKeyDown h "a".
Definition rightKey (h : InputHandler.t) : bool :=
  InputHandler.isKeyDown h "ArrowRight" || InputHandler.isKeyDown h "d".

(** "Store the current position as potentially the last valid position" *)
Definition saveValidPosition (c : t) : t :=
  if negb (colliding c) then set_lastValidPosition c (position c) else c.

(** "Apply acceleration/deceleration based on input (but not if
    airborne)", and the in-air drag, roll and pitch control. *)
Definition applyThrottle (h : InputHandler.t) (deltaTime : R) (c : t) : t :=
  if negb (isAirborne c) then
    if forwardKey h then
      set_speed c (Rmin (speed c + acceleration * deltaTime) maxSpeed)
    else if backKey h then
      set_speed c (Rmax (speed c - braking * deltaTime) (- maxSpeed / 2))
    else if speed c >? 0 then
      set_speed c (Rmax (speed c - deceleration * deltaTime) 0)
    else if speed c <? 0 then
      set_speed c (Rmin (speed c + deceleration * deltaTime) 0)
    else c
  else
    let c1 :=
      if speed c >? 0 then
        set_speed c (Rmax (speed c - deceleration * 0.1 * deltaTime) 0)
      else if speed c <? 0 then
        set_speed c (Rmin (speed c + deceleration * 0.1 * deltaTime) 0)
      else c in
    let c2 :=
      if leftKey h then
        set_rotation c1 (setEz (rotation c1)
                               (ez (rotation c1) - 1.5 * deltaTime))
      else if rightKey h then
        set_rotation c1 (setEz (rotation c1)
                               (ez (rotation c1) + 1.5 * deltaTime))
      else c1 in
    if forwardKey h then
      set_rotation c2 (setEx (rotation c2)
                             (Rmin (ex (rotation c2) + 0.8 * deltaTime) 0.5))
    else if backKey h then
      set_rotation c2 (setEx (rotation c2)
                             (Rmax (ex (rotation c2) - 0.8 * deltaTime) (-0.5)))
    else c2.

(** "Apply steering based on input, but only if moving and not
    airborne"; returns the car and the local [isTurning]. *)
Definition applySteering (h : InputHandler.t) (deltaTime : R) (c : t)
  : t * bool :=
  if (Rabs (speed c) >? 0.1) && negb (isAirborne c) then
    let steeringIntensity := getSteeringIntensity c in
    let targetTurnAmount :=
      if leftKey h then 1 else if rightKey h then -1 else 0 in
    let isTurning := leftKey h || rightKey h in
    let c1 := set_currentTurnAmount c
                (currentTurnAmount c * (1 - turnInertia)
                 + targetTurnAmount * turnInertia) in
    let c2 := set_rotation c1
                (setEy (rotation c1)
                       (ey (rotation c1)
                        + turnSpeed * deltaTime * steeringIntensity
                          * currentTurnAmount c1)) in
    (set_direction c2 (applyEuler (V3 0 0 1) (rotation c2)), isTurning)
  else
    (set_currentTurnAmount c (currentTurnAmount c * (1 - turnInertia * 2)),
     false).

(** [createDriftMarks]: the interval timer; the marks themselves are
    scene meshes. *)
Definition createDriftMarks (deltaTime : R) (c : t) : t :=
  let c1 := set_lastDriftMarkTime c (lastDriftMarkTime c + deltaTime) in
  if lastDriftMarkTime c1 <? driftMarkInterval then c1
  else set_lastDriftMarkTime c1 0.

Definition updateDrift (deltaTime normalizedSpeed : R) (isTurning : bool)
    (c : t) : t :=
  let c1 := set_isDrifting c
              (isTurning && (normalizedSpeed >? driftThreshold)
               && negb (isAirborne c) && negb (onRamp c)) in
  if isDrifting c1 then createDriftMarks deltaTime c1 else c1.

(** The sampled check along the trajectory: steps [i], [i+1], ... *)
Fixpoint sweep (obstacles : list Obstacle.t) (start moveDir : Vector3)
    (stepDistance : R) (i : Z) (remaining : nat) : CollisionResult :=
  match remaining with
  | O => NoCollision
  | S k =>
    let checkPos :=
      add start (multiplyScalar moveDir (stepDistance * IZR i)) in
    match checkCollisions checkPos obstacles with
    | NoCollision =>
        sweep obstacles start moveDir stepDistance (i + 1)%Z k
    | hit => hit
    end
  end.

Definition detectCollision (c : t) (newPosition : Vector3)
    (obstacles : list Obstacle.t) : CollisionResult :=
  if isAirborne c && (speed c >? 15) then
    let moveDir := normalize (sub newPosition (position c)) in
    let moveDistance := distanceTo (position c) newPosition in
    let numSteps := Z.max 3 (JsMath.ceil (moveDistance / 2)) in
    let stepDistance := moveDistance / IZR numSteps in
    sweep obstacles (position c) moveDir stepDistance 1 (Z.to_nat numSteps)
  else checkCollisions newPosition obstacles.

(** "Collision detected, implement bounce and slide along surfaces" *)
Definition resolveCollision (c : t) (obstacle : Obstacle.t)
    (obstaclePosition : Vector3) (collisionNormal : option Vector3) : t :=
  let impactSpeed := speed c in
  let c1 :=
    match collisionNormal with
    | Some n =>
      let dot := THREE.dot (velocity c) n in
      let bounceDirection :=
        normalize (sub (velocity c) (multiplyScalar n (2 * dot))) in
      let c := set_direction c bounceDirection in
      let c := set_speed c (Rabs impactSpeed * bounceFactor) in
      let c :=
        if Rabs impactSpeed >? 10 then
          set_verticalVelocity (set_isAirborne c true)
                               (3 + Rmin 5 (Rabs impactSpeed * 0.1))
        else c in
      set_rotation c
        (setEy (rotation c)
               (JsMath.atan2 (vx (direction c)) (vz (direction c))))
    | None => set_speed c 0
    end in
  let c2 :=
    if distanceTo (lastValidPosition c1) obstaclePosition
       >? boundingRadius + Obstacle.boundingRadius obstacle
    then set_position c1 (lastValidPosition c1)
    else
      let pushVector := normalize (sub (position c1) obstaclePosition) in
      let pushDistance :=
        boundingRadius + Obstacle.boundingRadius obstacle + 0.1 in
      set_position c1
        (add obstaclePosition (multiplyScalar pushVector pushDistance)) in
  if isAirborne c2 && (verticalVelocity c2 <? 0) then
    set_rotation (set_verticalVelocity (set_isAirborne c2 false) 0)
                 (setEz (setEx (rotation c2) 0) 0)
  else c2.

(** "Handle airborne state", ground height and pitch on a ramp. *)
Definition updateVertical (deltaTime : R) (c : t) : t :=
  if isAirborne c then
    let c1 := set_verticalVelocity c
                (verticalVelocity c - gravity * deltaTime) in
    let c2 := set_position c1
                (setY (position c1)
                      (vy (position c1) + verticalVelocity c1 * deltaTime)) in
    if vy (position c2) <=? 0.5 then
      let c3 := set_position c2 (setY (position c2) 0.5) in
      let c4 := set_verticalVelocity (set_isAirborne c3 false) 0 in
      let c5 := set_speed c4 (speed c4 * 0.7) in
      set_rotation c5 (mkEuler (ex (rotation c5) * 0.5)
                               (ey (rotation c5))
                               (ez (rotation c5) * 0.5))
    else c2
  else if negb (onRamp c) then
    let c1 := set_position c (setY (position c) 0.5) in
    let rx := if Rabs (ex (rotation c1)) >? 0.01
              then ex (rotation c1) * 0.9 else 0 in
    let rz := if Rabs (ez (rotation c1)) >? 0.01
              then ez (rotation c1) * 0.9 else 0 in
    set_rotation c1 (mkEuler rx (ey (rotation c1)) rz)
  else
    let targetPitch := - JsMath.atan2 (rampHeight c) 8 * 0.5 in
    let pitchLerpFactor := 0.1 in
    set_rotation c
      (setEx (rotation c)
             (ex (rotation c) * (1 - pitchLerpFactor)
              + targetPitch * pitchLerpFactor)).

(** The part of [update] from its first line up to and including the
    collision response; [newPositionOf] and [collisionOf] are the locals
    [newPosition] and [collisionResult]. *)
Definition beforeMove (h : InputHandler.t) (deltaTime : R) (c : t) : t :=
  let c := saveValidPosition c in
  let c := applyThrottle h deltaTime c in
  let normalizedSpeed := Rabs (speed c) / maxSpeed in
  let '(c, isTurning) := applySteering h deltaTime c in
  let c := updateDrift deltaTime normalizedSpeed isTurning c in
  set_velocity c (multiplyScalar (direction c) (speed c)).

Definition newPositionOf (deltaTime : R) (c : t) : Vector3 :=
  add (position c) (multiplyScalar (velocity c) deltaTime).

Definition collisionOf (h : InputHandler.t) (deltaTime : R)
    (obstacles : list Obstacle.t) (c : t) : CollisionResult :=
  let c := beforeMove h deltaTime c in
  detectCollision c (newPositionOf deltaTime c) obstacles.

Definition move (h : InputHandler.t) (deltaTime : R)
    (obstacles : list Obstacle.t) (c : t) : t :=
  let c := beforeMove h deltaTime c in
  let newPosition := newPositionOf deltaTime c in
  let collisionResult := detectCollision c newPosition obstacles in
  let c := set_colliding c (isColliding collisionResult) in
  match collisionResult with
  | NoCollision => set_position c newPosition
  | Collision o opos n => resolveCollision c o opos n
  end.

Definition update (h : InputHandler.t) (deltaTime : R)
    (obstacles : list Obstacle.t) (c : t) : t :=
  updateVertical deltaTime (move h deltaTime obstacles c).

End Car.

(** ** Knockable props and pedestrians (records built by [City]) *)

Inductive PropType : Type :=
| trashCan | bench | streetlight | barrel | crate.

Module PhysicsObject.
Record Pole : Type := { poleRadius : R; poleHeight : R }.

Record t : Type := mk {
  type : PropType;
  position : Vector3;
  rotation : Euler;
  originalPosition : Vector3;
  originalRotation : Euler;
  velocity : Vector3;
  angularVelocity : Vector3;
  mass : R;
  radius : R;
  height : R;
  isKnockedOver : bool;
  pole : option Pole;
  (** [undefined] until the first increment *)
  resetTimer : option R
}.

Definition set_position (o : t) (v : Vector3) : t :=
  mk (type o) v (rotation o) (originalPosition o) (originalRotation o)
     (velocity o) (angularVelocity o) (mass o) (radius o) (height o)
     (isKnockedOver o) (pole o) (resetTimer o).
Definition set_rotation (o : t) (v : Euler) : t :=
  mk (type o) (position o) v (originalPosition o) (originalRotation o)
     (velocity o) (angularVelocity o) (mass o) (radius o) (height o)
     (isKnockedOver o) (pole o) (resetTimer o).
Definition set_originalPosition (o : t) (v : Vector3) : t :=
  mk (type o) (position o) (rotation o) v (originalRotation o)
     (velocity o) (angularVelocity o) (mass o) (radius o) (height o)
     (isKnockedOver o) (pole o) (resetTimer o).
Definition set_velocity (o : t) (v : Vector3) : t :=
  mk (type o) (position o) (rotation o) (originalPosition o)
     (originalRotation o) v (angularVelocity o) (mass o) (radius o)
     (height o) (isKnockedOver o) (pole o) (resetTimer o).
Definition set_angularVelocity (o : t) (v : Vector3) : t :=
  mk (type o) (position o) (rotation o) (originalPosition o)
     (originalRotation o) (velocity o) v (mass o) (radius o)
     (height o) (isKnockedOver o) (pole o) (resetTimer o).
Definition set_isKnockedOver (o : t) (v : bool) : t :=
  mk (type o) (position o) (rotation o) (originalPosition o)
     (originalRotation o) (velocity o) (angularVelocity o) (mass o)
     (radius o) (height o) v (pole o) (resetTimer o).
Definition set_resetTimer (o : t) (v : option R) : t :=
  mk (type o) (position o) (rotation o) (originalPosition o)
     (originalRotation o) (velocity o) (angularVelocity o) (mass o)
     (radius o) (height o) (isKnockedOver o) (pole o) v.
End PhysicsObject.

Inductive HumanState : Type := walking | fleeing | dead.

Module Human.
Record t : Type := mk {
  position : Vector3;
  velocity : Vector3;
  rotation : R;
  walkSpeed : R;
  walkHorizontal : bool;
  state : HumanState;
  runningFrom : option Vector3;
  fleeSpeed : R;
  detectionRadius : R;
  pointValue : R;
  isDead : bool;
  (** [animationState.animSpeed] and [animationState.walkCycle] *)
  animSpeed : R;
  walkCycle : R;
  boundingRadius : R
}.

Definition set_position (h : t) (v : Vector3) : t :=
  mk v (velocity h) (rotation h) (walkSpeed h) (walkHorizontal h) (state h)
     (runningFrom h) (fleeSpeed h) (detectionRadius h) (pointValue h)
     (isDead h) (animSpeed h) (walkCycle h) (boundingRadius h).
Definition set_velocity (h : t) (v : Vector3) : t :=
  mk (position h) v (rotation h) (walkSpeed h) (walkHorizontal h) (state h)
     (runningFrom h) (fleeSpeed h) (detectionRadius h) (pointValue h)
     (isDead h) (animSpeed h) (walkCycle h) (boundingRadius h).
Definition set_rotation (h : t) (v : R) : t :=
  mk (position h) (velocity h) v (walkSpeed h) (walkHorizontal h) (state h)
     (runningFrom h) (fleeSpeed h) (detectionRadius h) (pointValue h)
     (isDead h) (animSpeed h) (walkCycle h) (boundingRadius h).
Definition set_state (h : t) (v : HumanState) : t :=
  mk (position h) (velocity h) (rotation h) (walkSpeed h) (walkHorizontal h)
     v (runningFrom h) (fleeSpeed h) (detectionRadius h) (pointValue h)
     (isDead h) (animSpeed h) (walkCycle h) (boundingRadius h).
Definition set_runningFrom (h : t) (v : option Vector3) : t :=
  mk (position h) (velocity h) (rotation h) (walkSpeed h) (walkHorizontal h)
     (state h) v (fleeSpeed h) (detectionRadius h) (pointValue h)
     (isDead h) (animSpeed h) (walkCycle h) (boundingRadius h).
Definition set_isDead (h : t) (v : bool) : t :=
  mk (position h) (velocity h) (rotation h) (walkSpeed h) (walkHorizontal h)
     (state h) (runningFrom h) (fleeSpeed h) (detectionRadius h)
     (pointValue h) v (animSpeed h) (walkCycle h) (boundingRadius h).
Definition set_walkCycle (h : t) (v : R) : t :=
  mk (position h) (velocity h) (rotation h) (walkSpeed h) (walkHorizontal h)
     (state h) (runningFrom h) (fleeSpeed h) (detectionRadius h)
     (pointValue h) (isDead h) (animSpeed h) v (boundingRadius h).
End Human.

Module City.
(** An entry of [roads.horizontal] ([center] is its [centerZ]) or of
    [roads.vertical] ([center] is its [centerX]). *)
Record Road : Type := { center : R; width : R }.

Record t : Type := {
  citySize : R;
  blockSize : R;
  roadWidth : R;
  horizontal : list Road;
  vertical : list Road
}.

(** The values of the loop variable of [for (let i = 0; i <= n; i++)]. *)
Definition upTo (n : R) : list nat :=
  seq 0 (Z.to_nat (JsMath.floor n + 1)).

(** [createRoads(totalSize, halfTotalSize)]: the entries the two loops push
    to [roads.horizontal] and [roads.vertical]. *)
Definition createRoads (c : t) (totalSize halfTotalSize : R) : t :=
  let road (i : nat) : Road :=
    let roadPosition :=
      - halfTotalSize + INR i * (blockSize c + roadWidth c) in
    {| center := roadPosition; width := roadWidth c |} in
  {| citySize := citySize c; blockSize := blockSize c;
     roadWidth := roadWidth c;
     horizontal := horizontal c ++ map road (upTo (citySize c));
     vertical := vertical c ++ map road (upTo (citySize c)) |}.

(** [createGround]: the city dimensions and the call of [createRoads]. *)
Definition createGround (c : t) : t :=
  let totalSize :=
    citySize c * blockSize c + (citySize c + 1) * roadWidth c in
  let halfTotalSize := totalSize / 2 in
  createRoads c totalSize halfTotalSize.

(** The constructor, as far as the roads go: a 3 x 3 grid of blocks of 50
    with roads of 10. *)
Definition new : t :=
  createGround
    {| citySize := 3; blockSize := 50; roadWidth := 10;
       horizontal := []; vertical := [] |}.

(** The array element [array[index]]; [None] is [undefined]. *)
Definition at_ {A : Type} (array : list A) (index : Z) : option A :=
  if (index <? 0)%Z then None else nth_error array (Z.to_nat index).

(** The object [getSpawnPosition] returns.  [None] is the exception of
    [roadInfo.centerZ] on a missing road. *)
Record SpawnPosition : Type := {
  spawnX : R; spawnY : R; spawnZ : R; spawnRotation : R
}.

Definition getSpawnPosition (c : t) : option SpawnPosition :=
  let horizontalRoadIndex := JsMath.floor (citySize c / 2) in
  match at_ (horizontal c) horizontalRoadIndex with
  | None => None
  | Some roadInfo =>
    Some {| spawnX := 0; spawnY := 0.5; spawnZ := center roadInfo;
            spawnRotation := - PI / 2 |}
  end.

(** An entry of [openSpaces]. *)
Record OpenSpace : Type := { spaceX : R; spaceZ : R; radius : R }.

Definition createOpenSpaces (c : t) : list OpenSpace :=
  let totalSize :=
    citySize c * blockSize c + (citySize c + 1) * roadWidth c in
  let halfTotalSize := totalSize / 2 in
  [ {| spaceX := 0; spaceZ := 0; radius := 120 |};
    {| spaceX := - halfTotalSize * 0.6; spaceZ := halfTotalSize * 0.6;
       radius := 40 |};
    {| spaceX := halfTotalSize * 0.6; spaceZ := - halfTotalSize * 0.6;
       radius := 50 |} ].

(** The entry [createLaunchpad(x, z)] pushes to [ramps]. *)
Definition createLaunchpad (x z : R) : Ramp.t :=
  let launchpadRadius := 6 in
  let launchpadHeight := 0.3 in
  let bounciness := 14 in
  Ramp.Launchpad (V3 x launchpadHeight z) launchpadRadius launchpadHeight
                 bounciness.

(** [addStuntRamps(space)]: the launchpads it creates, in order. *)
Definition addStuntRamps (space : OpenSpace) : list Ramp.t :=
  let launchpadCount := Z.min 3 (JsMath.floor (radius space / 30)) in
  map (fun i : nat =>
         let angle := INR i / IZR launchpadCount * PI * 2 in
         let distance := radius space * 0.4 in
         let x := spaceX space + cos angle * distance in
         let z := spaceZ space + sin angle * distance in
         createLaunchpad x z)
      (seq 0 (Z.to_nat launchpadCount)).

(** The [ramps] array after the constructor: [createOpenSpaces] calls
    [addStuntRamps] for each open space in turn ([createRamps] is not
    called). *)
Definition launchpads (c : t) : list Ramp.t :=
  flat_map addStuntRamps (createOpenSpaces c).

(** *** [createBoundary]

    The results of the calls of [Math.random()] still to come, in order;
    [skip k] is the stream after [k] calls. *)
Definition Random : Type := nat -> R.

Definition skip (k : nat) (rnd : Random) : Random :=
  fun n => rnd (k + n)%nat.

(** The number of [Math.random()] calls of
    [addWindowsToBuilding(building, width, height, depth)]: one for each
    window of each floor of the four sides. *)
Definition windowDraws (width height depth : R) : nat :=
  let windowSpacing := 1.2 in
  let windowsPerWidth := Z.to_nat (JsMath.floor ((width - 1) / windowSpacing)) in
  let windowsPerDepth := Z.to_nat (JsMath.floor ((depth - 1) / windowSpacing)) in
  let floors := Z.to_nat (JsMath.floor ((height - 1) / windowSpacing)) in
  (floors * windowsPerWidth + floors * windowsPerWidth
   + floors * windowsPerDepth + floors * windowsPerDepth)%nat.

(** An entry of [visibleBoundaries] or [invisibleBoundaries]. *)
Record Wall : Type := { wallWidth : R; wallDepth : R; wallX : R; wallZ : R }.

(** A box mesh [new THREE.Mesh(new THREE.BoxGeometry(width, _, depth))],
    not rotated. *)
Definition boxMesh (width depth : R) : Mesh.t :=
  {| Mesh.geometry :=
       Some {| Mesh.parameters :=
                 Some {| Mesh.width := width; Mesh.depth := depth |} |};
     Mesh.rotation_y := 0 |}.

(** The body of [for (let i = 0; i < numSegments; i++)] for the wall
    number [index], over the values [indices] of [i]; [wall] is the
    [boundary] of the callback. *)
Fixpoint boundaryBuildings (index : nat) (wall : Wall)
    (segmentLength segmentSize : R) (indices : list nat)
    (rnd : Random)
  : list Obstacle.t * Random :=
  match indices with
  | [] => ([], rnd)
  | i :: rest =>
    let boundaryHeight := 20 in
    let offset :=
      - segmentLength / 2 + INR i * segmentSize + segmentSize / 2 in
    let segX :=
      if Nat.eqb index 0 || Nat.eqb index 2
      then wallX wall + offset else wallX wall in
    let segZ :=
      if Nat.eqb index 0 || Nat.eqb index 2
      then wallZ wall else wallZ wall + offset in
    let height := boundaryHeight + (rnd O * 10 - 5) in
    let rnd := skip 1 rnd in
    let width :=
      if Nat.eqb (index mod 2) 0 then segmentSize else wallWidth wall in
    let depth :=
      if Nat.eqb (index mod 2) 0 then wallDepth wall else segmentSize in
    (* the material: [materials[Math.floor(Math.random() * 4)]] *)
    let rnd := skip 1 rnd in
    (* [this.addWindowsToBuilding(building, width, depth, height)] *)
    let rnd := skip (windowDraws width depth height) rnd in
    let obstacle :=
      {| Obstacle.type := boundary;
         Obstacle.position := Some (V3 segX (height / 2) segZ);
         Obstacle.boundingRadius := Rmax width depth / 2;
         Obstacle.mesh := Some (boxMesh width depth) |} in
    let '(obstacles, rnd) :=
      boundaryBuildings index wall segmentLength segmentSize rest rnd in
    (obstacle :: obstacles, rnd)
  end.

(** The callback of [visibleBoundaries.forEach], from wall number
    [index] on. *)
Fixpoint visibleWalls (index : nat) (walls : list Wall) (rnd : Random)
  : list Obstacle.t * Random :=
  match walls with
  | [] => ([], rnd)
  | wall :: rest =>
    let segmentLength :=
      if Nat.eqb (index mod 2) 0
      then wallWidth wall else wallDepth wall in
    let numSegments := JsMath.ceil (segmentLength / 20) in
    let segmentSize := segmentLength / IZR numSegments in
    let '(obstacles, rnd) :=
      boundaryBuildings index wall segmentLength segmentSize
        (seq 0 (Z.to_nat numSegments)) rnd in
    let '(more, rnd) := visibleWalls (S index) rest rnd in
    (obstacles ++ more, rnd)
  end.

(** The callback of [invisibleBoundaries.forEach]. *)
Definition invisibleWall (wall : Wall) : Obstacle.t :=
  let invisibleWallHeight := 1000 in
  {| Obstacle.type := boundary;
     Obstacle.position :=
       Some (V3 (wallX wall) (invisibleWallHeight / 2) (wallZ wall));
     Obstacle.boundingRadius :=
       Rmax (wallWidth wall) (wallDepth wall) / 2;
     Obstacle.mesh :=
       Some (boxMesh (wallWidth wall) (wallDepth wall)) |}.

(** [createBoundary]: the obstacles it pushes, in order, and the random
    numbers left. *)
Definition createBoundary (c : t) (rnd : Random)
  : list Obstacle.t * Random :=
  let totalSize :=
    citySize c * blockSize c + (citySize c + 1) * roadWidth c in
  let halfTotalSize := totalSize / 2 in
  let boundaryWidth := 10 in
  let visibleBoundaries :=
    [ {| wallWidth := totalSize + boundaryWidth * 2;
         wallDepth := boundaryWidth;
         wallX := 0; wallZ := - halfTotalSize - boundaryWidth / 2 |};
      {| wallWidth := boundaryWidth;
         wallDepth := totalSize + boundaryWidth * 2;
         wallX := halfTotalSize + boundaryWidth / 2; wallZ := 0 |};
      {| wallWidth := totalSize + boundaryWidth * 2;
         wallDepth := boundaryWidth;
         wallX := 0; wallZ := halfTotalSize + boundaryWidth / 2 |};
      {| wallWidth := boundaryWidth;
         wallDepth := totalSize + boundaryWidth * 2;
         wallX := - halfTotalSize - boundaryWidth / 2; wallZ := 0 |} ] in
  let '(visible, rnd) := visibleWalls 0 visibleBoundaries rnd in
  let buffer := 10 in
  let invisibleBoundaries :=
    [ {| wallWidth := totalSize + boundaryWidth * 4; wallDepth := buffer;
         wallX := 0;
         wallZ := - halfTotalSize - boundaryWidth - buffer / 2 |};
      {| wallWidth := buffer; wallDepth := totalSize + boundaryWidth * 4;
         wallX := halfTotalSize + boundaryWidth + buffer / 2;
         wallZ := 0 |};
      {| wallWidth := totalSize + boundaryWidth * 4; wallDepth := buffer;
         wallX := 0;
         wallZ := halfTotalSize + boundaryWidth + buffer / 2 |};
      {| wallWidth := buffer; wallDepth := totalSize + boundaryWidth * 4;
         wallX := - halfTotalSize - boundaryWidth - buffer / 2;
         wallZ := 0 |} ] in
  (visible ++ map invisibleWall invisibleBoundaries, rnd).
End City.

Module Boost.
Record t : Type := mk {
  available : R;
  max : R;
  rechargeRate : R;
  depleteRate : R;
  active : bool;
  speedMultiplier : R;
  currentMultiplier : R;
  transitionSpeed : R
}.

Definition set_available (b : t) (v : R) : t :=
  mk v (max b) (rechargeRate b) (depleteRate b) (active b)
     (speedMultiplier b) (currentMultiplier b) (transitionSpeed b).
Definition set_active (b : t) (v : bool) : t :=
  mk (available b) (max b) (rechargeRate b) (depleteRate b) v
     (speedMultiplier b) (currentMultiplier b) (transitionSpeed b).
Definition set_currentMultiplier (b : t) (v : R) : t :=
  mk (available b) (max b) (rechargeRate b) (depleteRate b) (active b)
     (speedMultiplier b) v (transitionSpeed b).
End Boost.

(** ** [Game]: the orchestration loop and the gameplay systems *)

Notation "x <- e ;; k" :=
  (match e with Some x => k | None => None end)
  (at level 61, e at next level, right associativity, only parsing).
Notation "' p <- e ;; k" :=
  (match e with Some p => k | None => None end)
  (at level 61, p pattern, e at next level, right associativity,
   only parsing).

(** The part of a three.js scene [toggleNightMode] reads and assigns:
    the background colour, the fog, and the type and intensity of each
    child. *)
Module Scene.
Inductive ObjectType : Type := DirectionalLight | AmbientLight | Other.
Record Object3D : Type := { type : ObjectType; intensity : R }.
Record FogExp2 : Type := { color : Z; density : R }.
Record t : Type := {
  background : option Z;
  fog : option FogExp2;
  children : list Object3D
}.

(** [new THREE.Scene()] *)
Definition new : t := {| background := None; fog := None; children := [] |}.

(** [scene.add(object)] *)
Definition add (scene : t) (object : Object3D) : t :=
  {| background := background scene; fog := fog scene;
     children := children scene ++ [object] |}.
End Scene.

Module Game.

Record t : Type := mk {
  car : Car.t;
  city : City.t;
  score : R;
  obstacles : list Obstacle.t;
  ramps : list Ramp.t;
  physicsObjects : list PhysicsObject.t;
  humans : list Human.t;
  boost : Boost.t;
  (** the results the next calls of [Math.random()] in the simulation
      will return, in order *)
  random : nat -> R
}.

Definition set_car (g : t) (v : Car.t) : t :=
  mk v (city g) (score g) (obstacles g) (ramps g) (physicsObjects g)
     (humans g) (boost g) (random g).
Definition set_score (g : t) (v : R) : t :=
  mk (car g) (city g) v (obstacles g) (ramps g) (physicsObjects g)
     (humans g) (boost g) (random g).
Definition set_physicsObjects (g : t) (v : list PhysicsObject.t) : t :=
  mk (car g) (city g) (score g) (obstacles g) (ramps g) v
     (humans g) (boost g) (random g).
Definition set_humans (g : t) (v : list Human.t) : t :=
  mk (car g) (city g) (score g) (obstacles g) (ramps g) (physicsObjects g)
     v (boost g) (random g).
Definition set_boost (g : t) (v : Boost.t) : t :=
  mk (car g) (city g) (score g) (obstacles g) (ramps g) (physicsObjects g)
     (humans g) v (random g).
Definition set_random (g : t) (v : nat -> R) : t :=
  mk (car g) (city g) (score g) (obstacles g) (ramps g) (physicsObjects g)
     (humans g) (boost g) v.

(** One call of [Math.random()]. *)
Definition Math_random (g : t) : R * t :=
  (random g O, set_random g (fun n => random g (S n))).

(** [setupSpeedBoost] *)
Definition setupSpeedBoost : Boost.t :=
  Boost.mk 100 100 10 30 false 1.8 1.0 2.0.

(** The listeners of [setupKeyListeners] for the space bar. *)
Definition keydownSpace (g : t) : t :=
  if Boost.available (boost g) >? 0
  then set_boost g (Boost.set_active (boost g) true)
  else g.

Definition keyupSpace (g : t) : t :=
  set_boost g (Boost.set_active (boost g) false).

Definition addScore (points : R) (g : t) : t :=
  set_score g (score g + points).

Definition updateBoost (deltaTime : R) (g : t) : t :=
  let b := boost g in
  if Boost.active b && (Boost.available b >? 0) then
    set_boost g
      (Boost.set_available b
         (Rmax 0 (Boost.available b - Boost.depleteRate b * deltaTime)))
  else
    set_boost g
      (Boost.set_available b
         (Rmin (Boost.max b)
               (Boost.available b + Boost.rechargeRate b * deltaTime))).

(** *** The blocks of [update] between [car.update] and
    [checkRampInteractions] *)

(** "Apply speed boost with smooth transition" *)
Definition smoothBoost (deltaTime : R) (g : t) : t :=
  let b := boost g in
  let targetMultiplier :=
    if Boost.active b && (Boost.available b >? 0)
    then Boost.speedMultiplier b else 1.0 in
  set_boost g
    (Boost.set_currentMultiplier b
       (Boost.currentMultiplier b
        + (targetMultiplier - Boost.currentMultiplier b)
          * Boost.transitionSpeed b * deltaTime)).

(** "Apply the current multiplier to car speed" *)
Definition applyBoost (deltaTime : R) (g : t) : t :=
  let b := boost g in
  let c := car g in
  if Boost.currentMultiplier b >? 1.01 then
    if Car.isAirborne c then
      let maxAirborneSpeed := 25 in
      if Car.speed c <? maxAirborneSpeed then
        let boostStrength :=
          (Boost.currentMultiplier b - 1.0)
          / (Boost.speedMultiplier b - 1.0) in
        let airborneAcceleration := 10 * boostStrength * deltaTime in
        set_car g
          (Car.set_speed c
             (Rmin (Car.speed c + airborneAcceleration) maxAirborneSpeed))
      else g
    else
      set_car g (Car.set_speed c (Car.speed c * Boost.currentMultiplier b))
  else g.

Definition halfSize (g : t) : R :=
  (City.citySize (city g) * City.blockSize (city g)
   + (City.citySize (city g) + 1) * City.roadWidth (city g)) / 2.

(** "Enforce a hard boundary for the car".  [carPosition] is the vector
    [this.car.getPosition()] returns, a clone of [car.position]: the block
    clamps that clone.  The function returns the game together with the
    final value of the local [carPosition]. *)
Definition enforceBoundary (g : t) : t * Vector3 :=
  let c := car g in
  let carPosition := Car.getPosition c in
  let halfSize := halfSize g in
  let buffer := 10 in
  if (Rabs (vx carPosition) >? halfSize - buffer)
     || (Rabs (vz carPosition) >? halfSize - buffer) then
    let originalPos := carPosition in
    let outX := Rabs (vx carPosition) >? halfSize - buffer in
    let carPosition :=
      if outX
      then setX carPosition (JsMath.sign (vx carPosition) * (halfSize - buffer))
      else carPosition in
    let outZ := Rabs (vz carPosition) >? halfSize - buffer in
    let carPosition :=
      if outZ
      then setZ carPosition (JsMath.sign (vz carPosition) * (halfSize - buffer))
      else carPosition in
    let boundaryNormal :=
      normalize
        (V3 (if outX then - JsMath.sign (vx originalPos) else 0)
            0
            (if outZ then - JsMath.sign (vz originalPos) else 0)) in
    let dotProduct := dot (Car.velocity c) boundaryNormal in
    if dotProduct <? 0 then
      let bounceVelocity :=
        normalize (sub (Car.velocity c)
                       (multiplyScalar boundaryNormal (2 * dotProduct))) in
      let c := Car.set_direction c bounceVelocity in
      let c := Car.set_speed c (Car.speed c * 0.4) in
      let c := Car.set_rotation c
                 (setEy (Car.rotation c)
                        (JsMath.atan2 (vx (Car.direction c))
                                      (vz (Car.direction c)))) in
      let c :=
        if (Rabs (Car.speed c) >? 15) && negb (Car.isAirborne c)
        then Car.set_verticalVelocity (Car.set_isAirborne c true) 4
        else c in
      (set_car g c, carPosition)
    else
      (set_car g (Car.set_speed c (Car.speed c * 0.5)), carPosition)
  else (g, carPosition).

(** *** [checkRampInteractions] *)

(** The locals of the loop over [this.ramps], with the car. *)
Record RampScan : Type := {
  onAnyRamp : bool;
  currentRampHeight : R;
  currentRamp : option Ramp.t;
  scanCar : Car.t
}.

Definition rideLaunchpad (carPosition : Vector3) (carSpeed : R)
    (radius height jumpStrength distanceSquared : R) (c : Car.t) : Car.t :=
  if negb (Car.isAirborne c) then
    let c := Car.set_position c (setY (Car.position c) (0.5 + height)) in
    let c := if carSpeed >? 10
             then Car.set_speed c (Car.speed c * 1.02) else c in
    let distanceFromCenter := sqrt distanceSquared in
    let normalizedDistance := distanceFromCenter / radius in
    if (carSpeed >? 5) && negb (Car.isAirborne c) then
      let centerBonus := 1 - normalizedDistance in
      let speedFactor := Rmin 1 (carSpeed / 25) in
      let maxJumpStrength := 22 in
      let baseJumpStrength := Rmin jumpStrength maxJumpStrength in
      let launchStrength :=
        baseJumpStrength * speedFactor * (0.7 + centerBonus * 0.3) in
      let c := Car.set_isAirborne c true in
      let c := Car.set_verticalVelocity c launchStrength in
      let c := Car.set_rotation c
                 (setEx (Car.rotation c) (-0.2 - speedFactor * 0.3)) in
      if carSpeed >? 30 then Car.set_speed c 30
      else Car.set_speed c (Car.speed c * 1.05)
    else c
  else c.

Definition rideRamp (carDirection rampForward : Vector3)
    (carSpeed height jumpStrength normalizedPos currentRampHeight : R)
    (c : Car.t) : Car.t :=
  let c :=
    if negb (Car.isAirborne c) then
      let c := Car.set_position c
                 (setY (Car.position c) (0.5 + currentRampHeight)) in
      if (normalizedPos <? 0.4) && (carSpeed >? 15)
      then Car.set_speed c (Car.speed c * 1.01) else c
    else c in
  if (normalizedPos >? 0.8) && (carSpeed >? 10) then
    let alignmentWithRamp := dot carDirection rampForward in
    if alignmentWithRamp >? 0.7 then
      let jumpFactor := Rmin 1 (carSpeed / 30) in
      let maxJumpStrength := 20 in
      let baseJumpStrength := Rmin jumpStrength maxJumpStrength in
      let jumpVelocity := baseJumpStrength * jumpFactor in
      if negb (Car.isAirborne c) then
        let c := Car.set_isAirborne c true in
        let c := Car.set_verticalVelocity c jumpVelocity in
        let c := Car.set_rotation c (setEx (Car.rotation c) (-0.3)) in
        if carSpeed >? 30 then Car.set_speed c 30
        else Car.set_speed c (Car.speed c * 1.1)
      else c
    else c
  else c.

(** Whether [carPosition] lies in the footprint of a ramp: the test of
    each branch of the loop body. *)
Definition onFootprint (carPosition : Vector3) (ramp : Ramp.t) : bool :=
  match ramp with
  | Ramp.Launchpad position radius _ _ =>
    let dx := vx carPosition - vx position in
    let dz := vz carPosition - vz position in
    dx * dx + dz * dz <=? radius * radius
  | Ramp.Directional position rotation width length _ _ =>
    let rampForward := applyAxisAngleY (V3 0 0 1) rotation in
    let rampRight := applyAxisAngleY (V3 1 0 0) rotation in
    let relativePos := sub carPosition position in
    let forwardProjection := dot relativePos rampForward in
    let rightProjection := dot relativePos rampRight in
    (Rabs rightProjection <? width / 2)
    && (forwardProjection >? - length / 2)
    && (forwardProjection <? length / 2)
  end.

(** The [for (const ramp of this.ramps)] loop. *)
Fixpoint scanRamps (carPosition carDirection : Vector3) (carSpeed : R)
    (ramps : list Ramp.t) (s : RampScan) : RampScan :=
  match ramps with
  | [] => s
  | ramp :: rest =>
    match ramp with
    | Ramp.Launchpad position radius height jumpStrength =>
      let dx := vx carPosition - vx position in
      let dz := vz carPosition - vz position in
      let distanceSquared := dx * dx + dz * dz in
      if distanceSquared <=? radius * radius then
        (* "Once we've found a launchpad we're on, we can stop
           checking": break *)
        {| onAnyRamp := true;
           currentRampHeight := currentRampHeight s;
           currentRamp := Some ramp;
           scanCar := rideLaunchpad carPosition carSpeed radius height
                        jumpStrength distanceSquared (scanCar s) |}
      else scanRamps carPosition carDirection carSpeed rest s
    | Ramp.Directional position rotation width length height jumpStrength =>
      let rampForward := applyAxisAngleY (V3 0 0 1) rotation in
      let rampRight := applyAxisAngleY (V3 1 0 0) rotation in
      let relativePos := sub carPosition position in
      let forwardProjection := dot relativePos rampForward in
      let rightProjection := dot relativePos rampRight in
      if (Rabs rightProjection <? width / 2)
         && (forwardProjection >? - length / 2)
         && (forwardProjection <? length / 2) then
        let normalizedPos := (forwardProjection + length / 2) / length in
        let rampHeightHere := normalizedPos * height in
        (* no break: the loop goes on to the next entry *)
        scanRamps carPosition carDirection carSpeed rest
          {| onAnyRamp := true;
             currentRampHeight := rampHeightHere;
             currentRamp := Some ramp;
             scanCar := rideRamp carDirection rampForward carSpeed height
                          jumpStrength normalizedPos rampHeightHere
                          (scanCar s) |}
      else scanRamps carPosition carDirection carSpeed rest s
    end
  end.

Definition checkRampInteractions (g : t) : t :=
  let carPosition := Car.getPosition (car g) in
  let carDirection := Car.getDirection (car g) in
  let carSpeed := Car.getSpeed (car g) in
  let s := scanRamps carPosition carDirection carSpeed (ramps g)
             {| onAnyRamp := false; currentRampHeight := 0;
                currentRamp := None; scanCar := car g |} in
  let c := scanCar s in
  let c :=
    if negb (onAnyRamp s) && negb (Car.isAirborne c)
    then Car.set_position c (setY (Car.position c) 0.5) else c in
  let c := Car.set_onRamp c (onAnyRamp s) in
  let c := Car.set_rampHeight c (currentRampHeight s) in
  let c := Car.set_currentRamp c (currentRamp s) in
  set_car g c.

(** *** [resetPhysicsObject] and [getRandomSidewalkPosition] *)

(** [roadArray[roadIndex]]: [None] stands for [undefined], on which the
    next line ([road.centerZ]) throws. *)
Definition roadAt (roadArray : list City.Road) (roadIndex : Z)
  : option City.Road :=
  if (roadIndex <? 0)%Z then None
  else nth_error roadArray (Z.to_nat roadIndex).

Definition getRandomSidewalkPosition (g : t) : option (Vector3 * t) :=
  let '(r, g) := Math_random g in
  let isHorizontal := r >? 0.5 in
  let roadArray :=
    if isHorizontal then City.horizontal (city g)
    else City.vertical (city g) in
  let '(r, g) := Math_random g in
  let roadIndex :=
    JsMath.floor (r * INR (List.length roadArray)) in
  road <- roadAt roadArray roadIndex ;;
  let totalSize :=
    City.citySize (city g) * City.blockSize (city g)
    + (City.citySize (city g) + 1) * City.roadWidth (city g) in
  let halfTotalSize := totalSize / 2 in
  let roadPos := City.center road in
  let offset := City.width road / 2 + 1.5 in
  let '(r, g) := Math_random g in
  let sideOffset := (if r >? 0.5 then 1 else -1) * offset in
  let '(r, g) := Math_random g in
  let y := 1 in
  if isHorizontal
  then Some (V3 (r * totalSize - halfTotalSize) y (roadPos + sideOffset), g)
  else Some (V3 (roadPos + sideOffset) y (r * totalSize - halfTotalSize), g).

Definition resetPhysicsObject (g : t) (obj : PhysicsObject.t)
  : option (PhysicsObject.t * t) :=
  match PhysicsObject.type obj with
  | trashCan =>
    '(newPosition, g) <- getRandomSidewalkPosition g ;;
    let obj := PhysicsObject.set_originalPosition obj newPosition in
    let obj := PhysicsObject.set_position obj newPosition in
    let obj := PhysicsObject.set_rotation obj
                 (PhysicsObject.originalRotation obj) in
    let obj := PhysicsObject.set_velocity obj (V3 0 0 0) in
    let obj := PhysicsObject.set_angularVelocity obj (V3 0 0 0) in
    Some (PhysicsObject.set_isKnockedOver obj false, g)
  | _ =>
    let obj := PhysicsObject.set_position obj
                 (PhysicsObject.originalPosition obj) in
    let obj := PhysicsObject.set_rotation obj
                 (PhysicsObject.originalRotation obj) in
    let obj := PhysicsObject.set_velocity obj (V3 0 0 0) in
    let obj := PhysicsObject.set_angularVelocity obj (V3 0 0 0) in
    Some (PhysicsObject.set_isKnockedOver obj false, g)
  end.

(** *** [updatePhysicsObjects] *)

Definition knockoverThreshold (ty : PropType) : R :=
  match ty with
  | trashCan => 3
  | bench => 7
  | streetlight => 6
  | barrel => 4
  | crate => 5
  end.

(** The collision test of an upright prop: bounding spheres, and for a
    streetlight the cylinder of its pole. *)
Definition hitByCar (c : Car.t) (carPosition : Vector3)
    (obj : PhysicsObject.t) : bool :=
  let distance := distanceTo carPosition (PhysicsObject.position obj) in
  let collisionThreshold :=
    Car.getBoundingRadius c + PhysicsObject.radius obj in
  if distance <? collisionThreshold then true
  else
    match PhysicsObject.type obj, PhysicsObject.pole obj with
    | streetlight, Some pole =>
      let cx := vx carPosition - vx (PhysicsObject.position obj) in
      let cz := vz carPosition - vz (PhysicsObject.position obj) in
      let distanceToPole := sqrt (cx * cx + cz * cz) in
      let maxPossibleDistance :=
        Car.getBoundingRadius c + PhysicsObject.poleRadius pole in
      distanceToPole <? maxPossibleDistance
    | _, _ => false
    end.

(** "Object is knocked over" *)
Definition knockOver (carPosition carDirection : Vector3)
    (carSpeed impactForce : R) (g : t) (obj : PhysicsObject.t)
  : PhysicsObject.t * t :=
  let obj := PhysicsObject.set_isKnockedOver obj true in
  let g := addScore 50 g in
  let impulseDirection :=
    normalize (sub (PhysicsObject.position obj) carPosition) in
  let impulseDirection := normalize (setY impulseDirection 0.5) in
  let obj := PhysicsObject.set_velocity obj
               (add (multiplyScalar carDirection (carSpeed * 0.3))
                    (multiplyScalar impulseDirection impactForce)) in
  let '(r1, g) := Math_random g in
  let '(r2, g) := Math_random g in
  let '(r3, g) := Math_random g in
  let obj := PhysicsObject.set_angularVelocity obj
               (V3 ((r1 - 0.5) * 5) ((r2 - 0.5) * 5) ((r3 - 0.5) * 5)) in
  let v := PhysicsObject.velocity obj in
  let '(obj, g) :=
    match PhysicsObject.type obj with
    | barrel =>
      (PhysicsObject.set_velocity obj (setY v (vy v + 2)), addScore 75 g)
    | crate =>
      (PhysicsObject.set_velocity obj
         (V3 (vx v * 1.5) (vy v * 0.7) (vz v * 1.5)),
       addScore 60 g)
    | _ => (obj, g)
    end in
  let carSlowdown := Rmin 0.8 (PhysicsObject.mass obj / 100) in
  (obj,
   set_car g (Car.set_speed (car g) (Car.speed (car g) * (1 - carSlowdown)))).

Definition resetTimerValue (obj : PhysicsObject.t) : R :=
  match PhysicsObject.resetTimer obj with Some v => v | None => 0 end.

Section Rotation.

(** [rotateBy rotation delta] is the Euler rotation three.js returns
    for [setFromQuaternion(q(rotation) * q(delta))], with [delta] an
    'XYZ' Euler triple.  It belongs to the library, not to the game. *)
Variable rotateBy : Euler -> Euler -> Euler.

(** "Object has been knocked over, apply physics" *)
Definition simulateKnockedOver (deltaTime : R) (carPosition : Vector3)
    (g : t) (obj : PhysicsObject.t) : option (PhysicsObject.t * t) :=
  let v := PhysicsObject.velocity obj in
  let v := setY v (vy v - 20 * deltaTime) in
  let p := add (PhysicsObject.position obj) (multiplyScalar v deltaTime) in
  let w := PhysicsObject.angularVelocity obj in
  let rot :=
    rotateBy (PhysicsObject.rotation obj)
             (mkEuler (vx w * deltaTime) (vy w * deltaTime)
                      (vz w * deltaTime)) in
  let height := PhysicsObject.height obj in
  let '(p, v, w) :=
    if vy p - height / 2 <? 0 then
      let p := setY p (height / 2) in
      let v :=
        if Rabs (vy v) >? 0.5
        then V3 (vx v * 0.9) (- vy v * 0.3) (vz v * 0.9)
        else setY v 0 in
      (p, v, multiplyScalar w 0.9)
    else (p, v, w) in
  let v := multiplyScalar v 0.98 in
  let w := multiplyScalar w 0.98 in
  let w :=
    match PhysicsObject.type obj with
    | barrel =>
      if JsMath.eqb (vy p) (height / 2) && (Rabs (vy v) <=? 0.5) then
        let horizontalSpeed := sqrt (vx v * vx v + vz v * vz v) in
        if horizontalSpeed >? 0.1 then
          let movementDir := normalize (V3 (vx v) 0 (vz v)) in
          let rollAxis := V3 (- vz movementDir) 0 (vx movementDir) in
          let rollSpeed := horizontalSpeed * 2 in
          multiplyScalar rollAxis rollSpeed
        else w
      else w
    | _ => w
    end in
  let obj := PhysicsObject.set_velocity obj v in
  let obj := PhysicsObject.set_position obj p in
  let obj := PhysicsObject.set_rotation obj rot in
  let obj := PhysicsObject.set_angularVelocity obj w in
  let isAtRest := (lengthSq v <? 0.01) && (lengthSq w <? 0.01) in
  let isOutOfBounds := (Rabs (vx p) >? 500) || (Rabs (vz p) >? 500) in
  if isAtRest || isOutOfBounds || (resetTimerValue obj >? 60) then
    if (distanceTo carPosition p >? 50) || isOutOfBounds
    then resetPhysicsObject g obj
    else Some (obj, g)
  else
    Some (PhysicsObject.set_resetTimer obj
            (Some (resetTimerValue obj + deltaTime)), g).

(** The body of the loop over the props. *)
Definition updatePhysicsObject (deltaTime : R)
    (carPosition carDirection : Vector3) (carSpeed : R)
    (g : t) (obj : PhysicsObject.t) : option (PhysicsObject.t * t) :=
  if negb (PhysicsObject.isKnockedOver obj) then
    if hitByCar (car g) carPosition obj then
      let impactForce := carSpeed * 0.5 in
      if impactForce >? knockoverThreshold (PhysicsObject.type obj)
      then Some (knockOver carPosition carDirection carSpeed impactForce
                           g obj)
      else Some (obj, g)
    else Some (obj, g)
  else simulateKnockedOver deltaTime carPosition g obj.

Fixpoint updatePhysicsObjectsLoop (deltaTime : R)
    (carPosition carDirection : Vector3) (carSpeed : R)
    (g : t) (objs : list PhysicsObject.t)
  : option (list PhysicsObject.t * t) :=
  match objs with
  | [] => Some ([], g)
  | obj :: rest =>
    '(obj', g) <- updatePhysicsObject deltaTime carPosition carDirection
                    carSpeed g obj ;;
    '(rest', g) <- updatePhysicsObjectsLoop deltaTime carPosition
                     carDirection carSpeed g rest ;;
    Some (obj' :: rest', g)
  end.

Definition updatePhysicsObjects (deltaTime : R) (g : t) : option t :=
  let carPosition := Car.getPosition (car g) in
  let carSpeed := Car.getSpeed (car g) in
  let carDirection := Car.getDirection (car g) in
  '(objs, g) <- updatePhysicsObjectsLoop deltaTime carPosition
                  carDirection carSpeed g (physicsObjects g) ;;
  Some (set_physicsObjects g objs).

End Rotation.

(** *** Pedestrians: [updateHumans], [updateWalkingHuman], [killHuman] *)

Definition animateWalking (deltaTime : R) (human : Human.t) : Human.t :=
  Human.set_walkCycle human
    (Human.walkCycle human + deltaTime * Human.animSpeed human).

Definition animateRunning (deltaTime : R) (human : Human.t) : Human.t :=
  Human.set_walkCycle human
    (Human.walkCycle human + deltaTime * Human.animSpeed human * 2).

(** "Check against boundary obstacles": the loop with its [break].
    [None] is the exception [distanceTo(undefined)] raises on a boundary
    obstacle without a position. *)
Fixpoint hitsBoundaryObstacle (newPosition : Vector3) (radius : R)
    (obstacles : list Obstacle.t) : option bool :=
  match obstacles with
  | [] => Some false
  | obstacle :: rest =>
    match Obstacle.type obstacle with
    | boundary =>
      opos <- Obstacle.position obstacle ;;
      if distanceTo newPosition opos
         <? radius + Obstacle.boundingRadius obstacle
      then Some true
      else hitsBoundaryObstacle newPosition radius rest
    | _ => hitsBoundaryObstacle newPosition radius rest
    end
  end.

(** "Also enforce a hard boundary based on city size" *)
Definition atCityBoundary (g : t) (newPosition : Vector3) : bool :=
  let halfBounds := halfSize g in
  let boundaryBuffer := 5 in
  (Rabs (vx newPosition) >? halfBounds - boundaryBuffer)
  || (Rabs (vz newPosition) >? halfBounds - boundaryBuffer).

Definition killHuman (human : Human.t) (impactDirection : Vector3) (g : t)
  : Human.t * t :=
  if Human.isDead human then (human, g)
  else
    let human := Human.set_isDead human true in
    let human := Human.set_state human dead in
    (human, addScore (Human.pointValue human) g).

Definition updateWalkingHuman (human : Human.t) (deltaTime : R) (g : t)
  : option (Human.t * t) :=
  let '(human, g) :=
    if lengthSq (Human.velocity human) <? 0.01 then
      let '(r, g) := Math_random g in
      let v :=
        if Human.walkHorizontal human
        then V3 (if r >? 0.5 then 1 else -1) 0 0
        else V3 0 0 (if r >? 0.5 then 1 else -1) in
      let v := multiplyScalar (normalize v) (Human.walkSpeed human) in
      let human := Human.set_velocity human v in
      (Human.set_rotation human (JsMath.atan2 (vx v) (vz v)), g)
    else (human, g) in
  let humanPos := Human.position human in
  let newPosition :=
    add humanPos (multiplyScalar (Human.velocity human) deltaTime) in
  collisionDetected <-
    hitsBoundaryObstacle newPosition (Human.boundingRadius human)
                         (obstacles g) ;;
  let atBoundary := atCityBoundary g newPosition in
  (* [collisionDetected || atBoundary || Math.random() < 0.01]: the
     random number is drawn only when the first two are false *)
  let '(redirect, g) :=
    if collisionDetected || atBoundary then (true, g)
    else let '(r, g) := Math_random g in (r <? 0.01, g) in
  let '(human, g) :=
    if redirect then
      if atBoundary then
        let centerDir := normalize (sub (V3 0 0 0) humanPos) in
        let v := multiplyScalar centerDir (Human.walkSpeed human) in
        let human := Human.set_velocity human v in
        (Human.set_rotation human (JsMath.atan2 (vx v) (vz v)), g)
      else
        let '(r, g) := Math_random g in
        let randomAngle := r * PI * 2 in
        let v := multiplyScalar (V3 (sin randomAngle) 0 (cos randomAngle))
                                (Human.walkSpeed human) in
        let human := Human.set_velocity human v in
        (Human.set_rotation human (JsMath.atan2 (vx v) (vz v)), g)
    else (Human.set_position human newPosition, g) in
  let human := Human.set_position human (setY (Human.position human) 0) in
  Some (animateWalking deltaTime human, g).

(** The "Fleeing state" branch while the car is still close. *)
Definition flee (human : Human.t) (deltaTime : R) (carPosition : Vector3)
    (g : t) : option (Human.t * t) :=
  let humanPos := Human.position human in
  let fleeDirection := normalize (sub humanPos carPosition) in
  let human := Human.set_velocity human
                 (multiplyScalar fleeDirection (Human.fleeSpeed human)) in
  let newPosition :=
    add humanPos (multiplyScalar (Human.velocity human) deltaTime) in
  collisionDetected <-
    hitsBoundaryObstacle newPosition (Human.boundingRadius human)
                         (obstacles g) ;;
  let halfBounds := halfSize g in
  let boundaryBuffer := 5 in
  let atBoundary := atCityBoundary g newPosition in
  let human :=
    if collisionDetected || atBoundary then
      if atBoundary then
        let tangentDir :=
          if Rabs (vx newPosition) >? halfBounds - boundaryBuffer
          then V3 0 0 (JsMath.sign (vz carPosition - vz humanPos) * -1)
          else V3 (JsMath.sign (vx carPosition - vx humanPos) * -1) 0 0 in
        let human := Human.set_velocity human
                       (multiplyScalar tangentDir (Human.fleeSpeed human)) in
        Human.set_position human
          (add humanPos (multiplyScalar (Human.velocity human) deltaTime))
      else human
    else Human.set_position human newPosition in
  let human := Human.set_position human (setY (Human.position human) 0) in
  let targetAngle := JsMath.atan2 (vx fleeDirection) (vz fleeDirection) in
  let angleDiff := targetAngle - Human.rotation human in
  let normalizedDiff := JsMath.rem (angleDiff + PI) (PI * 2) - PI in
  let human := Human.set_rotation human
                 (Human.rotation human + normalizedDiff * 5 * deltaTime) in
  Some (animateRunning deltaTime human, g).

(** The callback of [this.humans.forEach]. *)
Definition updateHuman (deltaTime : R) (carPosition : Vector3)
    (carRadius carSpeed : R) (g : t) (human : Human.t)
  : option (Human.t * t) :=
  if Human.isDead human then Some (human, g)
  else
    let human := Human.set_position human (setY (Human.position human) 0) in
    let humanPos := Human.position human in
    let distanceToCar := distanceTo humanPos carPosition in
    let maxAIProcessingDistance := 500 in
    if (distanceToCar <? carRadius + Human.boundingRadius human)
       && (carSpeed >? 5) then
      Some (killHuman human (normalize (sub carPosition humanPos)) g)
    else if distanceToCar >? maxAIProcessingDistance then
      match Human.state human with
      | walking => Some (animateWalking deltaTime human, g)
      | _ => Some (human, g)
      end
    else
      match Human.state human with
      | walking =>
        if distanceToCar <? Human.detectionRadius human then
          let human := Human.set_state human fleeing in
          Some (Human.set_runningFrom human (Some carPosition), g)
        else updateWalkingHuman human deltaTime g
      | fleeing =>
        if distanceToCar <? Human.detectionRadius human * 1.5 then
          flee human deltaTime carPosition g
        else
          let human := Human.set_state human walking in
          Some (Human.set_velocity human (V3 0 0 0), g)
      | dead => Some (human, g)
      end.

Fixpoint updateHumansLoop (deltaTime : R) (carPosition : Vector3)
    (carRadius carSpeed : R) (g : t) (hs : list Human.t)
  : option (list Human.t * t) :=
  match hs with
  | [] => Some ([], g)
  | human :: rest =>
    '(human', g) <- updateHuman deltaTime carPosition carRadius carSpeed
                      g human ;;
    '(rest', g) <- updateHumansLoop deltaTime carPosition carRadius
                     carSpeed g rest ;;
    Some (human' :: rest', g)
  end.

Definition updateHumans (deltaTime : R) (g : t) : option t :=
  let carPosition := Car.getPosition (car g) in
  let carRadius := Car.getBoundingRadius (car g) in
  let carSpeed := Car.getSpeed (car g) in
  '(hs, g) <- updateHumansLoop deltaTime carPosition carRadius carSpeed
                g (humans g) ;;
  Some (set_humans g hs).

(** *** [update]: one tick

    [deltaTime] is the time since the previous frame and [inputHandler]
    the key state at this frame.  Particles, camera, speedometer and
    rendering follow in the source and touch no simulation state. *)
Section Update.

Variable rotateBy : Euler -> Euler -> Euler.

(** The tick up to the boundary block: boost meter, car, boost
    multiplier. *)
Definition driveCar (inputHandler : InputHandler.t) (deltaTime : R)
    (g : t) : t :=
  let g := updateBoost deltaTime g in
  let g := set_car g
             (Car.update inputHandler deltaTime (obstacles g) (car g)) in
  let g := smoothBoost deltaTime g in
  applyBoost deltaTime g.

Definition update (inputHandler : InputHandler.t) (deltaTime : R)
    (g : t) : option t :=
  let g := driveCar inputHandler deltaTime g in
  let g := fst (enforceBoundary g) in
  let g := checkRampInteractions g in
  g <- updatePhysicsObjects rotateBy deltaTime g ;;
  updateHumans deltaTime g.

End Update.

(** *** [init]: [positionCarOnRoad]

    [None] is the exception [getSpawnPosition] raises when the road is
    missing. *)
Definition positionCarOnRoad (g : t) : option t :=
  spawnPosition <- City.getSpawnPosition (city g) ;;
  let c := car g in
  let c := Car.set_position c
             (V3 (City.spawnX spawnPosition) (City.spawnY spawnPosition)
                 (City.spawnZ spawnPosition)) in
  let c := Car.set_rotation c
             (setEy (Car.rotation c) (City.spawnRotation spawnPosition)) in
  let c := Car.set_direction c (applyEuler (V3 0 0 1) (Car.rotation c)) in
  Some (set_car g c).

(** *** [setupLights] and [toggleNightMode] *)

(** The lights [setupLights] adds to the scene, in order: ambient, sun,
    fill. *)
Definition setupLights (scene : Scene.t) : Scene.t :=
  Scene.add
    (Scene.add
       (Scene.add scene
          {| Scene.type := Scene.AmbientLight; Scene.intensity := 0.7 |})
       {| Scene.type := Scene.DirectionalLight; Scene.intensity := 1.0 |})
    {| Scene.type := Scene.DirectionalLight; Scene.intensity := 0.4 |}.

(** [toggleNightMode], on the [nightMode] flag and the scene. *)
Definition toggleNightMode (nightMode : bool) (scene : Scene.t)
  : bool * Scene.t :=
  let nightMode := negb nightMode in
  let relight (directional ambient : R) (child : Scene.Object3D)
    : Scene.Object3D :=
    match Scene.type child with
    | Scene.DirectionalLight =>
        {| Scene.type := Scene.type child; Scene.intensity := directional |}
    | Scene.AmbientLight =>
        {| Scene.type := Scene.type child; Scene.intensity := ambient |}
    | Scene.Other => child
    end in
  if nightMode then
    (nightMode,
     {| Scene.background := Some 0x0a1a2a%Z;
        Scene.fog := Some {| Scene.color := 0x0a1a2a%Z;
                             Scene.density := 0.008 |};
        Scene.children := map (relight 0.3 0.2) (Scene.children scene) |})
  else
    (nightMode,
     {| Scene.background := Some 0x87CEEB%Z;
        Scene.fog := Some {| Scene.color := 0x87CEEB%Z;
                             Scene.density := 0.005 |};
        Scene.children := map (relight 0.8 0.5) (Scene.children scene) |}).

End Game.

(** ** Sample worlds

    The city of the [City] constructor (a 3 x 3 grid of blocks of 50 with
    roads of 10, hence roads centred at -95, -35, 25 and 85 in both
    directions), key states, and the game [init] builds around given
    obstacles, ramps, props and pedestrians. *)

Module Sample.

Definition roads : list City.Road :=
  [ {| City.center := -95; City.width := 10 |};
    {| City.center := -35; City.width := 10 |};
    {| City.center := 25; City.width := 10 |};
    {| City.center := 85; City.width := 10 |} ].

Definition city : City.t :=
  {| City.citySize := 3; City.blockSize := 50; City.roadWidth := 10;
     City.horizontal := roads; City.vertical := roads |}.

Definition noKeys : InputHandler.t :=
  {| InputHandler.keys := fun _ => false |}.

Definition keysDown (down : list string) : InputHandler.t :=
  {| InputHandler.keys := fun key => existsb (String.eqb key) down |}.

Definition game (c : Car.t) (obstacles : list Obstacle.t)
    (ramps : list Ramp.t) (props : list PhysicsObject.t)
    (humans : list Human.t) : Game.t :=
  Game.mk c city 0 obstacles ramps props humans Game.setupSpeedBoost
          (fun _ => 0).

(** A new game on an empty field. *)
Definition openField : Game.t := game Car.new [] [] [] [].

(** A pedestrian as [createHuman] builds them (walk speed 2, flee speed 5),
    walking east, 2.475 east of the origin. *)
Definition walker : Human.t :=
  Human.mk (V3 2.475 0 0) (V3 2 0 0) (PI / 2) 2 true walking None 5 15 100
           false 2 0 0.4.

(** A grounded car heading along +z, level and with the wheel straight:
    position, last velocity, last valid position, speed, and the
    remaining fields as they may be left behind by earlier ticks. *)
Definition headingNorth (p v lv : Vector3) (s rh : R) (cr : option Ramp.t)
    (coll dr : bool) (ldt : R) : Car.t :=
  Car.mk p (mkEuler 0 0 0) (V3 0 0 1) v s false 0 false rh cr 0 lv coll dr
         ldt.

(** The car 84 north of the origin, heading north at full speed. *)
Definition northRunner : Car.t :=
  headingNorth (V3 0 0.5 84) (V3 0 0 40) (V3 0 0.5 84) 40 0 None
               false false 0.

(** Two ramps as [createRamp] builds them (width 7, length 8, height 4,
    jump strength 18), both facing +z, one unit apart. *)
Definition rampA : Ramp.t := Ramp.Directional (V3 0 0.5 0) 0 7 8 4 18.
Definition rampB : Ramp.t := Ramp.Directional (V3 0 0.5 1) 0 7 8 4 18.

(** Props as [createTrashCan] and [createBench] build them, at the
    origin, untouched. *)
Definition trashCanAtOrigin : PhysicsObject.t :=
  PhysicsObject.mk trashCan (V3 0 1 0) (mkEuler 0 0 0) (V3 0 1 0)
    (mkEuler 0 0 0) (V3 0 0 0) (V3 0 0 0) 20 0.8 2 false None None.

Definition benchAtOrigin : PhysicsObject.t :=
  PhysicsObject.mk bench (V3 0 0.25 0) (mkEuler 0 0 0) (V3 0 0.25 0)
    (mkEuler 0 0 0) (V3 0 0 0) (V3 0 0 0) 35 1.2 0.5 false None None.

(** An obstacle tested as a sphere of the given radius. *)
Definition sphereObstacle (p : Vector3) (r : R) : Obstacle.t :=
  {| Obstacle.type := tree; Obstacle.position := Some p;
     Obstacle.boundingRadius := r; Obstacle.mesh := None |}.

(** The car at the origin, heading north at speed 20. *)
Definition cruiser : Car.t :=
  headingNorth (V3 0 0.5 0) (V3 0 0 20) (V3 0 0.5 0) 20 0 None
               false false 0.

(** A stand-in for the rotation composition of three.js, where a concrete
    one is needed: the angles add up. *)
Definition addAngles (rotation delta : Euler) : Euler :=
  mkEuler (ex rotation + ex delta) (ey rotation + ey delta)
          (ez rotation + ez delta).

End Sample.

(** * Properties *)

(** ** Comparisons and [Math] functions *)

Lemma ltb_true a b : (a <? b) = true <-> a < b.
Proof. unfold JsMath.ltb; destruct (Rlt_dec a b); split; intros; try easy. Qed.

Lemma ltb_false a b : (a <? b) = false <-> b <= a.
Proof.
  unfold JsMath.ltb; destruct (Rlt_dec a b); split; intros; try easy; lra.
Qed.

Lemma leb_true a b : (a <=? b) = true <-> a <= b.
Proof. unfold JsMath.leb; destruct (Rle_dec a b); split; intros; try easy. Qed.

Lemma leb_false a b : (a <=? b) = false <-> b < a.
Proof.
  unfold JsMath.leb; destruct (Rle_dec a b); split; intros; try easy; lra.
Qed.

Lemma gtb_true a b : (a >? b) = true <-> b < a.
Proof. unfold JsMath.gtb; apply ltb_true. Qed.

Lemma gtb_false a b : (a >? b) = false <-> a <= b.
Proof. unfold JsMath.gtb; apply ltb_false. Qed.

Lemma eqb_true a b : JsMath.eqb a b = true <-> a = b.
Proof.
  unfold JsMath.eqb; destruct (Req_dec_T a b); split; intros; try easy.
Qed.

(** Decide one comparison of the goal, by [lra], and rewrite with it. *)
Ltac cmp_true e :=
  let H := fresh "Hcmp" in
  assert (H : e = true)
    by (first [ apply ltb_true | apply leb_true | apply gtb_true
              | apply eqb_true ]; simpl; lra);
  rewrite H; clear H.

Ltac cmp_false e :=
  let H := fresh "Hcmp" in
  assert (H : e = false)
    by (first [ apply ltb_false | apply leb_false | apply gtb_false ];
        simpl; lra);
  rewrite H; clear H.

(** Split on every comparison left in the goal. *)
Ltac cases_cmp :=
  repeat match goal with
  | |- context [ JsMath.ltb ?a ?b ] =>
      let H := fresh "Hlt" in
      destruct (JsMath.ltb a b) eqn:H;
      [ apply ltb_true in H | apply ltb_false in H ]
  | |- context [ JsMath.leb ?a ?b ] =>
      let H := fresh "Hle" in
      destruct (JsMath.leb a b) eqn:H;
      [ apply leb_true in H | apply leb_false in H ]
  | |- context [ JsMath.gtb ?a ?b ] =>
      let H := fresh "Hgt" in
      destruct (JsMath.gtb a b) eqn:H;
      [ apply gtb_true in H | apply gtb_false in H ]
  end.

Lemma sign_pos a : 0 < a -> JsMath.sign a = 1.
Proof.
  intros H; unfold JsMath.sign; destruct (Rlt_dec 0 a); [reflexivity | lra].
Qed.

Lemma sign_neg a : a < 0 -> JsMath.sign a = -1.
Proof.
  intros H; unfold JsMath.sign; destruct (Rlt_dec 0 a); [lra |].
  destruct (Rlt_dec a 0); [reflexivity | lra].
Qed.

Lemma sign_mul_abs a : JsMath.sign a * Rabs a = a.
Proof.
  unfold JsMath.sign; destruct (Rlt_dec 0 a).
  - rewrite Rabs_right; lra.
  - destruct (Rlt_dec a 0).
    + rewrite Rabs_left; lra.
    + assert (a = 0) by lra; subst; rewrite Rabs_R0; lra.
Qed.

(** ** Vectors *)

Lemma lengthSq_nonneg a : 0 <= lengthSq a.
Proof. unfold lengthSq, dot; nra. Qed.

Lemma length_nonneg a : 0 <= THREE.length a.
Proof. apply sqrt_pos. Qed.

Lemma length_sq a : THREE.length a * THREE.length a = lengthSq a.
Proof. apply sqrt_sqrt, lengthSq_nonneg. Qed.

Lemma length_multiplyScalar a k :
  THREE.length (multiplyScalar a k) = Rabs k * THREE.length a.
Proof.
  unfold THREE.length.
  replace (lengthSq (multiplyScalar a k)) with (k * k * lengthSq a)
    by (unfold lengthSq, dot, multiplyScalar; simpl; ring).
  rewrite sqrt_mult_alt by nra.
  f_equal. replace (k * k) with (Rsqr k) by reflexivity.
  apply sqrt_Rsqr_abs.
Qed.

Lemma normalize_as_scalar a :
  THREE.length a <> 0 -> normalize a = multiplyScalar a (/ THREE.length a).
Proof.
  intros H; unfold normalize.
  destruct (Req_dec_T (THREE.length a) 0); [contradiction | reflexivity].
Qed.

Lemma length_normalize a :
  THREE.length a <> 0 -> THREE.length (normalize a) = 1.
Proof.
  intros H. rewrite normalize_as_scalar by assumption.
  rewrite length_multiplyScalar.
  pose proof (length_nonneg a).
  rewrite Rabs_right.
  - field; assumption.
  - apply Rle_ge, Rlt_le, Rinv_0_lt_compat; lra.
Qed.

Lemma normalize_zero a : THREE.length a = 0 -> normalize a = a.
Proof.
  intros H; unfold normalize.
  destruct (Req_dec_T (THREE.length a) 0); [reflexivity | contradiction].
Qed.

Lemma length_zero_vector : THREE.length (V3 0 0 0) = 0.
Proof.
  unfold THREE.length, lengthSq, dot; simpl.
  replace (0 * 0 + 0 * 0 + 0 * 0) with 0 by ring. apply sqrt_0.
Qed.

Lemma length_axis_z k : THREE.length (V3 0 0 k) = Rabs k.
Proof.
  unfold THREE.length, lengthSq, dot; simpl.
  replace (0 * 0 + 0 * 0 + k * k) with (Rsqr k) by (unfold Rsqr; ring).
  apply sqrt_Rsqr_abs.
Qed.

Lemma length_axis_x k : THREE.length (V3 k 0 0) = Rabs k.
Proof.
  unfold THREE.length, lengthSq, dot; simpl.
  replace (k * k + 0 * 0 + 0 * 0) with (Rsqr k) by (unfold Rsqr; ring).
  apply sqrt_Rsqr_abs.
Qed.

(** ** Steering intensity (C4) *)

(** Continuity of [f] on the closed interval from [a] to [b], the points of
    the interval being the only ones looked at. *)
Definition continuousOn (f : R -> R) (a b : R) : Prop :=
  forall x, a <= x <= b ->
  forall eps, 0 < eps ->
  exists delta, 0 < delta /\
    forall y, a <= y <= b -> Rabs (y - x) < delta -> Rabs (f y - f x) < eps.

Definition nonIncreasingOn (f : R -> R) (a b : R) : Prop :=
  forall x y, a <= x -> x <= y -> y <= b -> f y <= f x.

Lemma steering_low s : s < 0.2 -> Car.steeringIntensityAt s = 1.2.
Proof.
  intros H; unfold Car.steeringIntensityAt.
  cmp_true (s <? 0.2). reflexivity.
Qed.

Lemma steering_mid s :
  0.2 <= s -> s < 0.6 -> Car.steeringIntensityAt s = 1.0.
Proof.
  intros H1 H2; unfold Car.steeringIntensityAt.
  cmp_false (s <? 0.2). cmp_true (s <? 0.6). reflexivity.
Qed.

Lemma steering_high s :
  0.6 <= s -> Car.steeringIntensityAt s = 0.8 - (s - 0.6) * 0.3.
Proof.
  intros H; unfold Car.steeringIntensityAt.
  cmp_false (s <? 0.2). cmp_false (s <? 0.6). reflexivity.
Qed.

Lemma steering_nonIncreasing :
  nonIncreasingOn Car.steeringIntensityAt 0.2 1.0.
Proof.
  intros x y Hx Hxy Hy.
  destruct (Rlt_dec x 0.6) as [Hx6 | Hx6];
    destruct (Rlt_dec y 0.6) as [Hy6 | Hy6].
  - rewrite !steering_mid by lra. lra.
  - rewrite (steering_mid x), (steering_high y) by lra. lra.
  - lra.
  - rewrite !steering_high by lra. lra.
Qed.

(** C4, as stated, fails: on the interval from 0.2 to 1.0 the steering
    intensity is not continuous.  At normalized speed 0.6 it is 0.8, and it
    is 1.0 at every point just below, so no neighbourhood of 0.6 keeps the
    values within 0.1 of each other. *)
Lemma steering_not_continuous :
  ~ continuousOn Car.steeringIntensityAt 0.2 1.0.
Proof.
  intros Hc.
  destruct (Hc 0.6 ltac:(lra) 0.1 ltac:(lra)) as [delta [Hd Hy]].
  pose (y := Rmax 0.2 (0.6 - delta / 2)).
  assert (Hy1 : 0.2 <= y) by apply Rmax_l.
  assert (Hy2 : y < 0.6).
  { unfold y; apply Rmax_lub_lt; lra. }
  assert (Hy3 : 0.6 - delta / 2 <= y) by apply Rmax_r.
  specialize (Hy y ltac:(lra)).
  rewrite (steering_mid y), (steering_high 0.6) in Hy by lra.
  assert (Hclose : Rabs (y - 0.6) < delta).
  { rewrite Rabs_left by lra. lra. }
  specialize (Hy Hclose).
  rewrite Rabs_right in Hy by lra. lra.
Qed.

(** C4, amended: [getSteeringIntensity] applies the three-piece function to
    |speed| / maxSpeed; the function is exactly 1.2 at 0 and below 0.2, 1.0
    from 0.2 up to 0.6, and 0.8 - (s - 0.6) * 0.3 from 0.6 on; on the
    interval from 0.2 to 1.0 it is non-increasing, and it is continuous on
    each side of 0.6 (from 0.2 up to any point below 0.6, and from 0.6 to
    1.0), with a drop from 1.0 to 0.8 at 0.6. *)
Theorem steering_three_pieces :
  (forall c, Car.getSteeringIntensity c
             = Car.steeringIntensityAt (Rabs (Car.speed c) / Car.maxSpeed))
  /\ Car.steeringIntensityAt 0 = 1.2
  /\ (forall s, s < 0.2 -> Car.steeringIntensityAt s = 1.2)
  /\ (forall s, 0.2 <= s -> s < 0.6 -> Car.steeringIntensityAt s = 1.0)
  /\ (forall s, 0.6 <= s ->
        Car.steeringIntensityAt s = 0.8 - (s - 0.6) * 0.3)
  /\ nonIncreasingOn Car.steeringIntensityAt 0.2 1.0
  /\ (forall b, b < 0.6 -> continuousOn Car.steeringIntensityAt 0.2 b)
  /\ continuousOn Car.steeringIntensityAt 0.6 1.0
  /\ Car.steeringIntensityAt 0.6 = 0.8.
Proof.
  split; [reflexivity |].
  split; [apply steering_low; lra |].
  split; [exact steering_low |].
  split; [exact steering_mid |].
  split; [exact steering_high |].
  split; [exact steering_nonIncreasing |].
  split; [| split].
  - intros b Hb x Hx eps Heps. exists 1. split; [lra |].
    intros y Hy _. rewrite !steering_mid by lra.
    replace (1.0 - 1.0) with 0 by lra. rewrite Rabs_R0. assumption.
  - intros x Hx eps Heps. exists eps. split; [assumption |].
    intros y Hy Hclose. rewrite !steering_high by lra.
    replace (0.8 - (y - 0.6) * 0.3 - (0.8 - (x - 0.6) * 0.3))
      with (- 0.3 * (y - x)) by lra.
    rewrite Rabs_mult.
    replace (Rabs (- 0.3)) with 0.3 by (rewrite Rabs_left; lra).
    pose proof (Rabs_pos (y - x)). lra.
  - rewrite steering_high by lra. lra.
Qed.

(** ** What each gameplay system leaves untouched *)

(** The amounts a tick can add to the score: sums of the points the call
    sites of [addScore] pass (50, 60 and 75 for props, 100 for a
    pedestrian). *)
Inductive Awarded : R -> Prop :=
| awarded_none : Awarded 0
| awarded_more points total :
    In points [50; 60; 75; 100] -> Awarded total ->
    Awarded (total + points).

Definition scoreGrows (g g' : Game.t) : Prop :=
  exists gain, Awarded gain /\ Game.score g' = Game.score g + gain.

(** The parts of the game no pedestrian or prop update assigns. *)
Definition sameSetting (g g' : Game.t) : Prop :=
  Game.city g' = Game.city g
  /\ Game.obstacles g' = Game.obstacles g
  /\ Game.ramps g' = Game.ramps g
  /\ Game.boost g' = Game.boost g.

(** The random numbers still to come in [g'] are those of [g] after some
    more draws. *)
Definition laterRandom (g g' : Game.t) : Prop :=
  exists k, forall n, Game.random g' n = Game.random g (k + n)%nat.

(** What one step of the loop over the props may do to the game: add to
    the score, draw random numbers, and change the speed of the car. *)
Definition propStep (g g' : Game.t) : Prop :=
  sameSetting g g'
  /\ Game.humans g' = Game.humans g
  /\ scoreGrows g g'
  /\ laterRandom g g'
  /\ exists v, Game.car g' = Car.set_speed (Game.car g) v.

(** What one step of the loop over the pedestrians may do: add to the
    score and draw random numbers. *)
Definition humanStep (g g' : Game.t) : Prop :=
  sameSetting g g'
  /\ Game.physicsObjects g' = Game.physicsObjects g
  /\ scoreGrows g g'
  /\ laterRandom g g'
  /\ Game.car g' = Game.car g.

Lemma Awarded_nonneg gain : Awarded gain -> 0 <= gain.
Proof.
  induction 1 as [| p t Hin _ IH]; [lra |].
  simpl in Hin. destruct Hin as [<- | [<- | [<- | [<- | []]]]]; lra.
Qed.

Lemma Awarded_plus a b : Awarded a -> Awarded b -> Awarded (a + b).
Proof.
  intros Ha Hb. induction Hb as [| p t Hin _ IH].
  - replace (a + 0) with a by ring. assumption.
  - replace (a + (t + p)) with (a + t + p) by ring.
    apply awarded_more; assumption.
Qed.

Lemma Awarded_one points :
  In points [50; 60; 75; 100] -> Awarded points.
Proof.
  intros H. replace points with (0 + points) by ring.
  apply awarded_more; [assumption | apply awarded_none].
Qed.

Lemma scoreGrows_refl g : scoreGrows g g.
Proof. exists 0; split; [apply awarded_none | ring]. Qed.

Lemma scoreGrows_same g g' : Game.score g' = Game.score g -> scoreGrows g g'.
Proof. intros H; exists 0; split; [apply awarded_none | rewrite H; ring]. Qed.

Lemma scoreGrows_trans g1 g2 g3 :
  scoreGrows g1 g2 -> scoreGrows g2 g3 -> scoreGrows g1 g3.
Proof.
  intros (a & Ha & Ea) (b & Hb & Eb). exists (a + b); split.
  - apply Awarded_plus; assumption.
  - rewrite Eb, Ea; ring.
Qed.

Lemma scoreGrows_le g g' : scoreGrows g g' -> Game.score g <= Game.score g'.
Proof.
  intros (a & Ha & Ea). apply Awarded_nonneg in Ha. lra.
Qed.

Lemma sameSetting_refl g : sameSetting g g.
Proof. repeat split. Qed.

Lemma sameSetting_trans g1 g2 g3 :
  sameSetting g1 g2 -> sameSetting g2 g3 -> sameSetting g1 g3.
Proof.
  unfold sameSetting; intros (a & b & c & d) (a' & b' & c' & d').
  repeat split; congruence.
Qed.

Lemma set_speed_same c : Car.set_speed c (Car.speed c) = c.
Proof. destruct c; reflexivity. Qed.

Lemma set_speed_twice c v w :
  Car.set_speed (Car.set_speed c v) w = Car.set_speed c w.
Proof. reflexivity. Qed.

Lemma laterRandom_refl g : laterRandom g g.
Proof. exists 0%nat; reflexivity. Qed.

Lemma laterRandom_trans g1 g2 g3 :
  laterRandom g1 g2 -> laterRandom g2 g3 -> laterRandom g1 g3.
Proof.
  intros [k1 H1] [k2 H2]. exists (k1 + k2)%nat. intros n.
  rewrite H2, H1. f_equal. lia.
Qed.

Lemma propStep_refl g : propStep g g.
Proof.
  split; [apply sameSetting_refl |]. split; [reflexivity |].
  split; [apply scoreGrows_refl |]. split; [apply laterRandom_refl |].
  exists (Car.speed (Game.car g)). symmetry; apply set_speed_same.
Qed.

Lemma propStep_trans g1 g2 g3 :
  propStep g1 g2 -> propStep g2 g3 -> propStep g1 g3.
Proof.
  intros (s1 & h1 & k1 & r1 & v1 & c1) (s2 & h2 & k2 & r2 & v2 & c2).
  split; [eapply sameSetting_trans; eassumption |].
  split; [congruence |].
  split; [eapply scoreGrows_trans; eassumption |].
  split; [eapply laterRandom_trans; eassumption |].
  exists v2. rewrite c2, c1. reflexivity.
Qed.

Lemma humanStep_refl g : humanStep g g.
Proof.
  split; [apply sameSetting_refl |]. split; [reflexivity |].
  split; [apply scoreGrows_refl |]. split; [apply laterRandom_refl |].
  reflexivity.
Qed.

Lemma humanStep_trans g1 g2 g3 :
  humanStep g1 g2 -> humanStep g2 g3 -> humanStep g1 g3.
Proof.
  intros (s1 & h1 & k1 & r1 & c1) (s2 & h2 & k2 & r2 & c2).
  split; [eapply sameSetting_trans; eassumption |].
  split; [congruence |].
  split; [eapply scoreGrows_trans; eassumption |].
  split; [eapply laterRandom_trans; eassumption | congruence].
Qed.

(** The game after [k] more calls of [Math.random()] and nothing else. *)
Definition afterDraws (k : nat) (g : Game.t) : Game.t :=
  Game.set_random g (fun n => Game.random g (k + n)%nat).

Lemma afterDraws_0 g : afterDraws 0 g = g.
Proof. destruct g; reflexivity. Qed.

Lemma Math_random_draws g : snd (Game.Math_random g) = afterDraws 1 g.
Proof. reflexivity. Qed.

Lemma afterDraws_propStep k g : propStep g (afterDraws k g).
Proof.
  split; [repeat split |]. split; [reflexivity |].
  split; [apply scoreGrows_same; reflexivity |].
  split; [exists k; reflexivity |].
  exists (Car.speed (Game.car g)). symmetry; apply set_speed_same.
Qed.

Lemma afterDraws_humanStep k g : humanStep g (afterDraws k g).
Proof.
  split; [repeat split |]. split; [reflexivity |].
  split; [apply scoreGrows_same; reflexivity |].
  split; [exists k; reflexivity | reflexivity].
Qed.

Lemma getRandomSidewalkPosition_step g p g' :
  Game.getRandomSidewalkPosition g = Some (p, g') -> g' = afterDraws 4 g.
Proof.
  unfold Game.getRandomSidewalkPosition; simpl.
  destruct (Game.roadAt _ _); [| discriminate].
  destruct (Game.random g 0%nat >? 0.5); intros H; injection H as _ <-;
    reflexivity.
Qed.

Lemma resetPhysicsObject_step g obj obj' g' :
  Game.resetPhysicsObject g obj = Some (obj', g') ->
  exists k, g' = afterDraws k g.
Proof.
  unfold Game.resetPhysicsObject.
  destruct (PhysicsObject.type obj);
    try (intros H; injection H as _ <-; exists 0%nat;
         symmetry; apply afterDraws_0).
  destruct (Game.getRandomSidewalkPosition g) as [[p g1] |] eqn:E;
    [| discriminate].
  intros H; injection H as _ <-. exists 4%nat.
  eapply getRandomSidewalkPosition_step; eassumption.
Qed.

Lemma knockOver_step carPosition carDirection carSpeed impactForce g obj :
  propStep g
    (snd (Game.knockOver carPosition carDirection carSpeed impactForce g obj)).
Proof.
  unfold Game.knockOver; simpl.
  destruct (PhysicsObject.type obj); simpl;
    (split; [repeat split |]); (split; [reflexivity |]);
    (split; [| split; [exists 3%nat; reflexivity | eexists; reflexivity]]).
  1-3: exists 50; split; [apply Awarded_one; simpl; tauto | simpl; ring].
  - exists (50 + 75); split; [| simpl; ring].
    apply awarded_more; [simpl; tauto | apply Awarded_one; simpl; tauto].
  - exists (50 + 60); split; [| simpl; ring].
    apply awarded_more; [simpl; tauto | apply Awarded_one; simpl; tauto].
Qed.

Section PropFacts.

Variable rotateBy : Euler -> Euler -> Euler.

Lemma simulateKnockedOver_step dt carPosition g obj obj' g' :
  Game.simulateKnockedOver rotateBy dt carPosition g obj = Some (obj', g') ->
  exists k, g' = afterDraws k g.
Proof.
  unfold Game.simulateKnockedOver.
  destruct (_ <? 0); simpl.
  all: match goal with
       | |- context [ if ?a || ?b || ?c then _ else _ ] =>
           destruct (a || b || c)
       end.
  all: try match goal with
       | |- context [ if ?a then Game.resetPhysicsObject _ _ else _ ] =>
           destruct a
       end.
  all: try (intros H; injection H as _ <-; exists 0%nat;
            symmetry; apply afterDraws_0).
  all: intros H; eapply resetPhysicsObject_step; eassumption.
Qed.

Lemma updatePhysicsObject_step dt carPosition carDirection carSpeed g obj
      obj' g' :
  Game.updatePhysicsObject rotateBy dt carPosition carDirection carSpeed g obj
  = Some (obj', g') ->
  propStep g g'.
Proof.
  unfold Game.updatePhysicsObject.
  destruct (negb (PhysicsObject.isKnockedOver obj)).
  - destruct (Game.hitByCar _ _ _); [destruct (_ >? _) |];
      intros H;
      try (injection H as _ <-; apply propStep_refl).
    injection H as H.
    match type of H with
    | Game.knockOver ?p ?d ?sp ?f ?g0 ?o = _ =>
        pose proof (knockOver_step p d sp f g0 o) as F; rewrite H in F
    end.
    exact F.
  - intros H. apply simulateKnockedOver_step in H. destruct H as [k ->].
    apply afterDraws_propStep.
Qed.

Lemma updatePhysicsObjectsLoop_step dt carPosition carDirection carSpeed objs :
  forall g objs' g',
  Game.updatePhysicsObjectsLoop rotateBy dt carPosition carDirection carSpeed
    g objs = Some (objs', g') ->
  propStep g g'.
Proof.
  induction objs as [| obj rest IH]; simpl; intros g objs' g' H.
  - injection H as _ <-. apply propStep_refl.
  - destruct (Game.updatePhysicsObject _ _ _ _ _ _ _) as [[o1 g1] |] eqn:E1;
      [| discriminate].
    destruct (Game.updatePhysicsObjectsLoop _ _ _ _ _ _ _) as [[r1 g2] |]
      eqn:E2; [| discriminate].
    injection H as _ <-.
    eapply propStep_trans.
    + eapply updatePhysicsObject_step; eassumption.
    + eapply IH; eassumption.
Qed.

Lemma updatePhysicsObjects_step dt g g' :
  Game.updatePhysicsObjects rotateBy dt g = Some g' -> propStep g g'.
Proof.
  unfold Game.updatePhysicsObjects.
  destruct (Game.updatePhysicsObjectsLoop _ _ _ _ _ _ _) as [[o1 g1] |] eqn:E;
    [| discriminate].
  intros H; injection H as <-.
  apply updatePhysicsObjectsLoop_step in E.
  destruct E as ((a & b & c & d) & h & (k & Hk & Ek) & r & v & Hv).
  split; [repeat split; assumption |]. split; [exact h |].
  split; [exists k; split; [assumption | exact Ek] |].
  split; [exact r |].
  exists v. exact Hv.
Qed.

End PropFacts.

(** ** Pedestrians *)

(** The fields of a pedestrian no update assigns. *)
Definition sameTraits (h h' : Human.t) : Prop :=
  Human.walkSpeed h' = Human.walkSpeed h
  /\ Human.walkHorizontal h' = Human.walkHorizontal h
  /\ Human.fleeSpeed h' = Human.fleeSpeed h
  /\ Human.detectionRadius h' = Human.detectionRadius h
  /\ Human.pointValue h' = Human.pointValue h
  /\ Human.animSpeed h' = Human.animSpeed h
  /\ Human.boundingRadius h' = Human.boundingRadius h.

Lemma sameTraits_refl h : sameTraits h h.
Proof. repeat split. Qed.

(** Every boundary obstacle has a position, as all those [City] builds. *)
Definition boundariesPlaced (obstacles : list Obstacle.t) : Prop :=
  Forall (fun o => Obstacle.type o = boundary -> Obstacle.position o <> None)
         obstacles.

Lemma hitsBoundaryObstacle_total newPosition radius obstacles :
  boundariesPlaced obstacles ->
  exists b, Game.hitsBoundaryObstacle newPosition radius obstacles = Some b.
Proof.
  induction 1 as [| o rest Ho _ IH]; simpl.
  - exists false; reflexivity.
  - destruct (Obstacle.type o); try exact IH.
    destruct (Obstacle.position o) as [p |].
    + destruct (_ <? _); [exists true; reflexivity | exact IH].
    + exfalso. apply Ho; reflexivity.
Qed.

Lemma updateWalkingHuman_step human dt g human' g' :
  Game.updateWalkingHuman human dt g = Some (human', g') ->
  (exists k, g' = afterDraws k g) /\ sameTraits human human'
  /\ Human.state human' = Human.state human
  /\ Human.isDead human' = Human.isDead human.
Proof.
  unfold Game.updateWalkingHuman.
  destruct (lengthSq (Human.velocity human) <? 0.01); simpl;
    (destruct (Game.hitsBoundaryObstacle _ _ _) as [cd |]; [| discriminate]);
    (destruct (cd || Game.atCityBoundary _ _) eqn:Eb; simpl;
     [ destruct (Game.atCityBoundary _ _); simpl
     | destruct (_ <? 0.01); simpl;
       try (destruct (Game.atCityBoundary _ _); simpl) ]);
    intros H; injection H as <- <-;
    (split; [| repeat split]).
  all: first [ exists 0%nat; symmetry; apply afterDraws_0
             | exists 1%nat; reflexivity
             | exists 2%nat; reflexivity
             | exists 3%nat; reflexivity ].
Qed.

Lemma updateWalkingHuman_total human dt g :
  boundariesPlaced (Game.obstacles g) ->
  exists human' g', Game.updateWalkingHuman human dt g = Some (human', g').
Proof.
  intros Hb. unfold Game.updateWalkingHuman.
  destruct (lengthSq (Human.velocity human) <? 0.01); simpl;
    match goal with
    | |- context [ Game.hitsBoundaryObstacle ?p ?r ?os ] =>
        destruct (hitsBoundaryObstacle_total p r os Hb) as [b ->]
    end;
    (destruct (b || Game.atCityBoundary _ _) eqn:Eb; simpl;
     [ destruct (Game.atCityBoundary _ _); simpl
     | destruct (_ <? 0.01); simpl;
       try (destruct (Game.atCityBoundary _ _); simpl) ]);
    eexists; eexists; reflexivity.
Qed.

Lemma flee_step human dt carPosition g human' g' :
  Game.flee human dt carPosition g = Some (human', g') ->
  g' = g /\ sameTraits human human'
  /\ Human.state human' = Human.state human
  /\ Human.isDead human' = Human.isDead human.
Proof.
  unfold Game.flee.
  destruct (Game.hitsBoundaryObstacle _ _ _) as [cd |]; [| discriminate].
  intros H; injection H as <- <-.
  split; [reflexivity |].
  destruct (cd || _); [destruct (Game.atCityBoundary _ _) |];
    repeat split.
Qed.

Lemma flee_total human dt carPosition g :
  boundariesPlaced (Game.obstacles g) ->
  exists human', Game.flee human dt carPosition g = Some (human', g).
Proof.
  intros Hb. unfold Game.flee.
  match goal with
  | |- context [ Game.hitsBoundaryObstacle ?p ?r ?os ] =>
      destruct (hitsBoundaryObstacle_total p r os Hb) as [b ->]
  end.
  eexists; reflexivity.
Qed.

(** The callback either kills the pedestrian, adding its [pointValue] to
    the score, or leaves the score as it is. *)
Lemma updateHuman_cases dt carPosition carRadius carSpeed g human human' g' :
  Game.updateHuman dt carPosition carRadius carSpeed g human
  = Some (human', g') ->
  sameTraits human human'
  /\ ((Human.isDead human = false /\ Human.isDead human' = true
       /\ Human.state human' = dead
       /\ g' = Game.addScore (Human.pointValue human) g)
      \/ (Human.isDead human' = Human.isDead human
          /\ exists k, g' = afterDraws k g)).
Proof.
  unfold Game.updateHuman.
  destruct (Human.isDead human) eqn:Hd.
  { intros H; injection H as <- <-. split; [apply sameTraits_refl |].
    right. split; [assumption |]. exists 0%nat; symmetry; apply afterDraws_0. }
  destruct (_ && _).
  { unfold Game.killHuman. simpl. rewrite Hd.
    intros H; injection H as <- <-. split; [repeat split |].
    left. repeat split. }
  assert (Hnone : forall h, Human.isDead h = false -> sameTraits human h ->
            sameTraits human h
            /\ ((false = false /\ Human.isDead h = true
                 /\ Human.state h = dead
                 /\ g = Game.addScore (Human.pointValue human) g)
                \/ (Human.isDead h = false /\ exists k, g = afterDraws k g))).
  { intros h Hh Ht. split; [assumption |]. right. split; [assumption |].
    exists 0%nat; symmetry; apply afterDraws_0. }
  destruct (_ >? _).
  { simpl. destruct (Human.state human); intros H; injection H as <- <-;
      apply Hnone; simpl; try assumption; repeat split. }
  simpl. destruct (Human.state human) eqn:Hs.
  - destruct (_ <? _).
    + intros H; injection H as <- <-. apply Hnone; simpl;
        try assumption; repeat split.
    + intros H. apply updateWalkingHuman_step in H.
      destruct H as ([k ->] & Ht & _ & Hd').
      split; [exact Ht |]. right. split; [| exists k; reflexivity].
      rewrite Hd'. simpl. assumption.
  - destruct (_ <? _).
    + intros H. apply flee_step in H. destruct H as (-> & Ht & _ & Hd').
      split; [exact Ht |]. right.
      split; [rewrite Hd'; simpl; assumption |].
      exists 0%nat; symmetry; apply afterDraws_0.
    + intros H; injection H as <- <-. apply Hnone; simpl;
        try assumption; repeat split.
  - intros H; injection H as <- <-. apply Hnone; simpl;
      try assumption; repeat split.
Qed.

Lemma updateHuman_total dt carPosition carRadius carSpeed g human :
  boundariesPlaced (Game.obstacles g) ->
  exists human' g',
    Game.updateHuman dt carPosition carRadius carSpeed g human
    = Some (human', g').
Proof.
  intros Hb. unfold Game.updateHuman.
  destruct (Human.isDead human); [eexists; eexists; reflexivity |].
  destruct (_ && _).
  { destruct (Game.killHuman _ _ _) as [h1 g1].
    eexists; eexists; reflexivity. }
  destruct (_ >? _).
  { destruct (Human.state _); eexists; eexists; reflexivity. }
  destruct (Human.state _).
  - destruct (_ <? _); [eexists; eexists; reflexivity |].
    apply updateWalkingHuman_total; assumption.
  - destruct (_ <? _); [| eexists; eexists; reflexivity].
    match goal with
    | |- context [ Game.flee ?h ?d ?c ?g0 ] =>
        destruct (flee_total h d c g0 Hb) as [h' ->]
    end.
    eexists; eexists; reflexivity.
  - eexists; eexists; reflexivity.
Qed.

Lemma updateHuman_step dt carPosition carRadius carSpeed g human human' g' :
  Human.pointValue human = 100 ->
  Game.updateHuman dt carPosition carRadius carSpeed g human
  = Some (human', g') ->
  humanStep g g'.
Proof.
  intros Hp H. apply updateHuman_cases in H.
  destruct H as [_ [(_ & _ & _ & ->) | (_ & k & ->)]].
  - split; [repeat split |]. split; [reflexivity |].
    split; [| split; [exists 0%nat; reflexivity | reflexivity]].
    exists 100; split; [apply Awarded_one; simpl; tauto |].
    simpl. rewrite Hp. reflexivity.
  - apply afterDraws_humanStep.
Qed.

Lemma updateHumansLoop_nth dt carPosition carRadius carSpeed hs :
  forall g hs' g' i human,
  Game.updateHumansLoop dt carPosition carRadius carSpeed g hs
  = Some (hs', g') ->
  nth_error hs i = Some human ->
  exists g1 g2 human',
    sameSetting g g1
    /\ Game.updateHuman dt carPosition carRadius carSpeed g1 human
       = Some (human', g2)
    /\ nth_error hs' i = Some human'.
Proof.
  induction hs as [| h rest IH]; simpl; intros g hs' g' i human H Hi.
  - destruct i; discriminate.
  - destruct (Game.updateHuman _ _ _ _ _ _) as [[h1 g1] |] eqn:E1;
      [| discriminate].
    destruct (Game.updateHumansLoop _ _ _ _ _ _) as [[r1 g2] |] eqn:E2;
      [| discriminate].
    injection H as <- <-.
    destruct i as [| i]; simpl in Hi.
    + injection Hi as <-. exists g, g1, h1.
      split; [apply sameSetting_refl |]. split; [assumption | reflexivity].
    + destruct (IH _ _ _ _ _ E2 Hi) as (ga & gb & h' & Hs & Hu & Hn).
      exists ga, gb, h'. split; [| split; assumption].
      eapply sameSetting_trans; [| exact Hs].
      apply updateHuman_cases in E1.
      destruct E1 as [_ [(_ & _ & _ & ->) | (_ & k & ->)]]; repeat split.
Qed.

Lemma updateHumansLoop_step dt carPosition carRadius carSpeed hs :
  forall g hs' g',
  Forall (fun h => Human.pointValue h = 100) hs ->
  Game.updateHumansLoop dt carPosition carRadius carSpeed g hs
  = Some (hs', g') ->
  humanStep g g' /\ Forall (fun h => Human.pointValue h = 100) hs'.
Proof.
  induction hs as [| h rest IH]; simpl; intros g hs' g' Hall H.
  - injection H as <- <-. split; [apply humanStep_refl | constructor].
  - destruct (Game.updateHuman _ _ _ _ _ _) as [[h1 g1] |] eqn:E1;
      [| discriminate].
    destruct (Game.updateHumansLoop _ _ _ _ _ _) as [[r1 g2] |] eqn:E2;
      [| discriminate].
    injection H as <- <-.
    inversion Hall as [| ? ? Hh Hrest]; subst.
    destruct (IH _ _ _ Hrest E2) as [Hstep Hall'].
    split.
    + eapply humanStep_trans; [| exact Hstep].
      eapply updateHuman_step; eassumption.
    + constructor; [| assumption].
      apply updateHuman_cases in E1.
      destruct E1 as [(_ & _ & _ & _ & Hp & _) _]. congruence.
Qed.

Lemma updateHumansLoop_total dt carPosition carRadius carSpeed hs :
  forall g,
  boundariesPlaced (Game.obstacles g) ->
  exists hs' g',
    Game.updateHumansLoop dt carPosition carRadius carSpeed g hs
    = Some (hs', g').
Proof.
  induction hs as [| h rest IH]; simpl; intros g Hb.
  - eexists; eexists; reflexivity.
  - destruct (updateHuman_total dt carPosition carRadius carSpeed g h Hb)
      as (h1 & g1 & E1).
    rewrite E1.
    assert (Hb1 : boundariesPlaced (Game.obstacles g1)).
    { apply updateHuman_cases in E1.
      destruct E1 as [_ [(_ & _ & _ & ->) | (_ & k & ->)]]; exact Hb. }
    destruct (IH g1 Hb1) as (r1 & g2 & E2). rewrite E2.
    eexists; eexists; reflexivity.
Qed.

Lemma updateHumans_unfold dt g g' :
  Game.updateHumans dt g = Some g' ->
  exists hs' g1,
    Game.updateHumansLoop dt (Car.getPosition (Game.car g))
      (Car.getBoundingRadius (Game.car g)) (Car.getSpeed (Game.car g))
      g (Game.humans g) = Some (hs', g1)
    /\ g' = Game.set_humans g1 hs'.
Proof.
  unfold Game.updateHumans.
  destruct (Game.updateHumansLoop _ _ _ _ _ _) as [[hs' g1] |];
    [| discriminate].
  intros H; injection H as <-. exists hs', g1. split; reflexivity.
Qed.

Lemma humanStep_set_humans g g1 hs :
  humanStep g g1 -> humanStep g (Game.set_humans g1 hs).
Proof.
  intros ((a & b & c & d) & p & (k & Hk & Ek) & r & e).
  split; [repeat split; assumption |]. split; [exact p |].
  split; [exists k; split; [assumption | exact Ek] |].
  split; [exact r | exact e].
Qed.

Lemma updateHumans_step dt g g' :
  Forall (fun h => Human.pointValue h = 100) (Game.humans g) ->
  Game.updateHumans dt g = Some g' ->
  humanStep g g'
  /\ Forall (fun h => Human.pointValue h = 100) (Game.humans g').
Proof.
  intros Hall H. apply updateHumans_unfold in H.
  destruct H as (hs' & g1 & E & ->).
  destruct (updateHumansLoop_step _ _ _ _ _ _ _ _ Hall E) as [Hs Ha].
  split; [apply humanStep_set_humans; assumption | exact Ha].
Qed.

(** The car and the setting are the same before and after the pedestrians'
    update, whatever their point values. *)
Lemma updateHumans_car dt g g' :
  Game.updateHumans dt g = Some g' ->
  Game.car g' = Game.car g /\ sameSetting g g'
  /\ Game.physicsObjects g' = Game.physicsObjects g.
Proof.
  intros H. apply updateHumans_unfold in H.
  destruct H as (hs' & g1 & E & ->). simpl.
  revert E. generalize (Car.getPosition (Game.car g)),
    (Car.getBoundingRadius (Game.car g)), (Car.getSpeed (Game.car g)).
  intros p r sp. generalize (Game.humans g). intros hs. revert g hs' g1.
  induction hs as [| h rest IH]; simpl; intros g hs' g1 E.
  - injection E as <- <-. repeat split.
  - destruct (Game.updateHuman _ _ _ _ _ _) as [[h1 g2] |] eqn:E1;
      [| discriminate].
    destruct (Game.updateHumansLoop _ _ _ _ _ _) as [[r1 g3] |] eqn:E2;
      [| discriminate].
    injection E as <- <-.
    destruct (IH _ _ _ E2) as (c & (s1 & s2 & s3 & s4) & po).
    apply updateHuman_cases in E1.
    destruct E1 as [_ [(_ & _ & _ & ->) | (_ & k & ->)]];
      simpl in *; repeat split; assumption.
Qed.

Lemma updateHumans_total dt g :
  boundariesPlaced (Game.obstacles g) ->
  exists g', Game.updateHumans dt g = Some g'.
Proof.
  intros Hb. unfold Game.updateHumans.
  destruct (updateHumansLoop_total dt (Car.getPosition (Game.car g))
              (Car.getBoundingRadius (Game.car g))
              (Car.getSpeed (Game.car g)) (Game.humans g) g Hb)
    as (hs' & g1 & ->).
  eexists; reflexivity.
Qed.

(** ** The first half of a tick: boost, car, boundary, ramps *)

(** The state [update] hands to [updatePhysicsObjects]. *)
Definition carPhase (inputHandler : InputHandler.t) (deltaTime : R)
    (g : Game.t) : Game.t :=
  Game.checkRampInteractions
    (fst (Game.enforceBoundary (Game.driveCar inputHandler deltaTime g))).

(** These blocks assign the car and the boost record only. *)
Definition onlyCarAndBoost (g g' : Game.t) : Prop :=
  exists c b, g' = Game.set_boost (Game.set_car g c) b.

Lemma onlyCarAndBoost_refl g : onlyCarAndBoost g g.
Proof. exists (Game.car g), (Game.boost g). destruct g; reflexivity. Qed.

Lemma onlyCarAndBoost_trans g1 g2 g3 :
  onlyCarAndBoost g1 g2 -> onlyCarAndBoost g2 g3 -> onlyCarAndBoost g1 g3.
Proof.
  intros (c & b & ->) (c' & b' & ->). exists c', b'. reflexivity.
Qed.

Lemma set_car_only g c : onlyCarAndBoost g (Game.set_car g c).
Proof. exists c, (Game.boost g). reflexivity. Qed.

Lemma set_boost_only g b : onlyCarAndBoost g (Game.set_boost g b).
Proof. exists (Game.car g), b. destruct g; reflexivity. Qed.

Lemma updateBoost_only dt g : onlyCarAndBoost g (Game.updateBoost dt g).
Proof.
  unfold Game.updateBoost. destruct (_ && _); apply set_boost_only.
Qed.

Lemma smoothBoost_only dt g : onlyCarAndBoost g (Game.smoothBoost dt g).
Proof. apply set_boost_only. Qed.

Lemma applyBoost_only dt g : onlyCarAndBoost g (Game.applyBoost dt g).
Proof.
  unfold Game.applyBoost.
  destruct (_ >? 1.01); [| apply onlyCarAndBoost_refl].
  destruct (Car.isAirborne _); [destruct (_ <? _) |];
    first [apply set_car_only | apply onlyCarAndBoost_refl].
Qed.

Lemma driveCar_only ih dt g : onlyCarAndBoost g (Game.driveCar ih dt g).
Proof.
  unfold Game.driveCar.
  eapply onlyCarAndBoost_trans; [apply updateBoost_only |].
  eapply onlyCarAndBoost_trans; [apply set_car_only |].
  eapply onlyCarAndBoost_trans; [apply smoothBoost_only |].
  apply applyBoost_only.
Qed.

Lemma enforceBoundary_only g :
  onlyCarAndBoost g (fst (Game.enforceBoundary g)).
Proof.
  unfold Game.enforceBoundary.
  destruct (_ || _); [| apply onlyCarAndBoost_refl].
  destruct (_ <? 0); apply set_car_only.
Qed.

Lemma checkRampInteractions_only g :
  onlyCarAndBoost g (Game.checkRampInteractions g).
Proof. apply set_car_only. Qed.

Lemma carPhase_only ih dt g : onlyCarAndBoost g (carPhase ih dt g).
Proof.
  unfold carPhase.
  eapply onlyCarAndBoost_trans; [apply driveCar_only |].
  eapply onlyCarAndBoost_trans; [apply enforceBoundary_only |].
  apply checkRampInteractions_only.
Qed.

Lemma enforceBoundary_boost g :
  Game.boost (fst (Game.enforceBoundary g)) = Game.boost g.
Proof.
  unfold Game.enforceBoundary.
  destruct (_ || _); [| reflexivity].
  destruct (_ <? 0); reflexivity.
Qed.

Lemma applyBoost_boost dt g :
  Game.boost (Game.applyBoost dt g) = Game.boost g.
Proof.
  unfold Game.applyBoost.
  destruct (_ >? 1.01); [| reflexivity].
  destruct (Car.isAirborne _); [destruct (_ <? _) |]; reflexivity.
Qed.

Lemma carPhase_boost ih dt g :
  Game.boost (carPhase ih dt g)
  = Game.boost (Game.smoothBoost dt (Game.updateBoost dt g)).
Proof.
  unfold carPhase. simpl.
  rewrite enforceBoundary_boost. unfold Game.driveCar.
  rewrite applyBoost_boost. reflexivity.
Qed.

Section TickFacts.

Variable rotateBy : Euler -> Euler -> Euler.

Lemma update_unfold ih dt g g' :
  Game.update rotateBy ih dt g = Some g' <->
  exists g1,
    Game.updatePhysicsObjects rotateBy dt (carPhase ih dt g) = Some g1
    /\ Game.updateHumans dt g1 = Some g'.
Proof.
  unfold Game.update, carPhase. split.
  - destruct (Game.updatePhysicsObjects _ _ _) as [g1 |]; [| discriminate].
    intros H. exists g1. split; [reflexivity | assumption].
  - intros (g1 & -> & H). exact H.
Qed.

End TickFacts.

(** ** A tick returns *)

(** Every result of [Math.random()] lies in the interval from 0 (included)
    to 1 (excluded). *)
Definition randomOk (g : Game.t) : Prop :=
  forall n, 0 <= Game.random g n < 1.

(** The world [City] builds: roads in both directions, and a position on
    every boundary obstacle. *)
Definition worldOk (g : Game.t) : Prop :=
  City.horizontal (Game.city g) <> []
  /\ City.vertical (Game.city g) <> []
  /\ boundariesPlaced (Game.obstacles g)
  /\ randomOk g.

Lemma randomOk_later g g' : laterRandom g g' -> randomOk g -> randomOk g'.
Proof. intros [k Hk] Hr n. rewrite Hk. apply Hr. Qed.

Lemma worldOk_later g g' :
  sameSetting g g' -> laterRandom g g' -> worldOk g -> worldOk g'.
Proof.
  intros (c & o & _ & _) Hl (h & v & b & r).
  unfold worldOk. rewrite c, o.
  split; [assumption | split; [assumption | split; [assumption |]]].
  eapply randomOk_later; eassumption.
Qed.

Lemma roadAt_total (roadArray : list City.Road) (r : R) :
  roadArray <> [] -> 0 <= r < 1 ->
  exists road,
    Game.roadAt roadArray (JsMath.floor (r * INR (List.length roadArray)))
    = Some road.
Proof.
  intros Hne [H0 H1]. unfold Game.roadAt, JsMath.floor.
  assert (Hn : (0 < List.length roadArray)%nat).
  { destruct roadArray; [contradiction | simpl; lia]. }
  set (n := List.length roadArray) in *.
  assert (HnR : 0 < INR n) by (apply lt_0_INR; assumption).
  pose proof (Zfloor_bound (r * INR n)) as [Hlo Hhi].
  assert (Hge : (0 <= Zfloor (r * INR n))%Z).
  { apply Zfloor_lub. simpl. nra. }
  assert (Hlt : (Zfloor (r * INR n) < Z.of_nat n)%Z).
  { apply lt_IZR. rewrite <- INR_IZR_INZ. nra. }
  destruct (Zfloor (r * INR n) <? 0)%Z eqn:E; [apply Z.ltb_lt in E; lia |].
  destruct (nth_error roadArray (Z.to_nat (Zfloor (r * INR n)))) as [road |]
    eqn:En; [exists road; reflexivity |].
  apply nth_error_None in En. fold n in En. lia.
Qed.

Lemma getRandomSidewalkPosition_total g :
  worldOk g -> exists p g', Game.getRandomSidewalkPosition g = Some (p, g').
Proof.
  intros (Hh & Hv & _ & Hr). unfold Game.getRandomSidewalkPosition; simpl.
  destruct (Game.random g 0%nat >? 0.5).
  - destruct (roadAt_total _ (Game.random g 1%nat) Hh (Hr 1%nat))
      as [road ->].
    eexists; eexists; reflexivity.
  - destruct (roadAt_total _ (Game.random g 1%nat) Hv (Hr 1%nat))
      as [road ->].
    eexists; eexists; reflexivity.
Qed.

Lemma resetPhysicsObject_total g obj :
  worldOk g -> exists obj' g', Game.resetPhysicsObject g obj = Some (obj', g').
Proof.
  intros Hw. unfold Game.resetPhysicsObject.
  destruct (PhysicsObject.type obj);
    try (eexists; eexists; reflexivity).
  destruct (getRandomSidewalkPosition_total g Hw) as (p & g1 & ->).
  eexists; eexists; reflexivity.
Qed.

Section Totality.

Variable rotateBy : Euler -> Euler -> Euler.

Lemma updatePhysicsObject_total dt carPosition carDirection carSpeed g obj :
  worldOk g ->
  exists obj' g',
    Game.updatePhysicsObject rotateBy dt carPosition carDirection carSpeed
      g obj = Some (obj', g').
Proof.
  intros Hw. unfold Game.updatePhysicsObject.
  destruct (negb (PhysicsObject.isKnockedOver obj)).
  - destruct (Game.hitByCar _ _ _); [destruct (_ >? _) |];
      try (eexists; eexists; reflexivity).
    destruct (Game.knockOver _ _ _ _ _ _) as [o1 g1].
    eexists; eexists; reflexivity.
  - unfold Game.simulateKnockedOver.
    destruct (_ <? 0); simpl.
    all: match goal with
         | |- context [ if ?a || ?b || ?c then _ else _ ] =>
             destruct (a || b || c)
         end.
    all: try match goal with
         | |- context [ if ?a then Game.resetPhysicsObject _ _ else _ ] =>
             destruct a
         end.
    all: try (eexists; eexists; reflexivity).
    all: apply resetPhysicsObject_total; assumption.
Qed.

Lemma updatePhysicsObjectsLoop_total dt carPosition carDirection carSpeed
      objs :
  forall g, worldOk g ->
  exists objs' g',
    Game.updatePhysicsObjectsLoop rotateBy dt carPosition carDirection
      carSpeed g objs = Some (objs', g').
Proof.
  induction objs as [| obj rest IH]; simpl; intros g Hw.
  - eexists; eexists; reflexivity.
  - destruct (updatePhysicsObject_total dt carPosition carDirection carSpeed
                g obj Hw) as (o1 & g1 & E1).
    rewrite E1.
    assert (Hw1 : worldOk g1).
    { apply updatePhysicsObject_step in E1.
      destruct E1 as (s & _ & _ & r & _). eapply worldOk_later; eassumption. }
    destruct (IH g1 Hw1) as (r1 & g2 & ->).
    eexists; eexists; reflexivity.
Qed.

Lemma updatePhysicsObjects_total dt g :
  worldOk g -> exists g', Game.updatePhysicsObjects rotateBy dt g = Some g'.
Proof.
  intros Hw. unfold Game.updatePhysicsObjects.
  destruct (updatePhysicsObjectsLoop_total dt (Car.getPosition (Game.car g))
              (Car.getDirection (Game.car g)) (Car.getSpeed (Game.car g))
              (Game.physicsObjects g) g Hw) as (o & g1 & ->).
  eexists; reflexivity.
Qed.

Lemma worldOk_carPhase ih dt g : worldOk g -> worldOk (carPhase ih dt g).
Proof.
  destruct (carPhase_only ih dt g) as (c & b & ->). exact (fun H => H).
Qed.

(** In a well-formed world a tick returns a state, and the world stays
    well formed. *)
Lemma update_total ih dt g :
  worldOk g ->
  exists g', Game.update rotateBy ih dt g = Some g' /\ worldOk g'.
Proof.
  intros Hw. apply (worldOk_carPhase ih dt) in Hw.
  destruct (updatePhysicsObjects_total dt _ Hw) as [g1 E1].
  assert (Hw1 : worldOk g1).
  { pose proof (updatePhysicsObjects_step _ _ _ _ E1) as (s & _ & _ & r & _).
    eapply worldOk_later; eassumption. }
  destruct (updateHumans_total dt g1) as [g2 E2].
  { apply Hw1. }
  exists g2. split.
  - apply update_unfold. exists g1. split; assumption.
  - apply updateHumans_unfold in E2. destruct E2 as (hs' & g3 & E & ->).
    clear E1 Hw. revert E.
    generalize (Car.getPosition (Game.car g1)),
      (Car.getBoundingRadius (Game.car g1)), (Car.getSpeed (Game.car g1)).
    intros p r sp. generalize (Game.humans g1). intros hs.
    revert g1 Hw1 hs' g3.
    induction hs as [| h rest IH]; simpl; intros g1 Hw1 hs' g3 E.
    + injection E as <- <-. exact Hw1.
    + destruct (Game.updateHuman _ _ _ _ _ _) as [[h1 g4] |] eqn:E1;
        [| discriminate].
      destruct (Game.updateHumansLoop _ _ _ _ _ _) as [[r1 g5] |] eqn:E2;
        [| discriminate].
      injection E as <- <-.
      apply (IH g4 ltac:(
        apply updateHuman_cases in E1;
        destruct E1 as [_ [(_ & _ & _ & ->) | (_ & k & ->)]];
        [ exact Hw1
        | eapply worldOk_later; [| | exact Hw1];
          [repeat split | exists k; reflexivity] ]) _ _ E2).
Qed.

End Totality.

(** ** The boost meter (C9) *)

(** The meter is within its bounds, and its rates are the constants
    [setupSpeedBoost] gave them. *)
Definition boostWithinBounds (b : Boost.t) : Prop :=
  0 <= Boost.available b <= Boost.max b.

Definition boostRatesSet (b : Boost.t) : Prop :=
  Boost.max b = 100 /\ Boost.rechargeRate b = 10 /\ Boost.depleteRate b = 30.

(** The states of a session: [init] leaves the boost as [setupSpeedBoost]
    builds it; afterwards the space bar listeners and the ticks run, in any
    order, each tick with the frame time and key state of its frame. *)
Inductive Reachable (rotateBy : Euler -> Euler -> Euler) : Game.t -> Prop :=
| reach_init g :
    Game.boost g = Game.setupSpeedBoost -> Reachable rotateBy g
| reach_keydown g :
    Reachable rotateBy g -> Reachable rotateBy (Game.keydownSpace g)
| reach_keyup g :
    Reachable rotateBy g -> Reachable rotateBy (Game.keyupSpace g)
| reach_tick g inputHandler deltaTime g' :
    Reachable rotateBy g -> 0 <= deltaTime ->
    Game.update rotateBy inputHandler deltaTime g = Some g' ->
    Reachable rotateBy g'.

Lemma updateBoost_bounds dt g :
  0 <= dt ->
  boostRatesSet (Game.boost g) ->
  boostWithinBounds (Game.boost g) ->
  boostWithinBounds (Game.boost (Game.updateBoost dt g))
  /\ boostRatesSet (Game.boost (Game.updateBoost dt g)).
Proof.
  intros Hdt (Hm & Hr & Hd) [H0 H1].
  unfold Game.updateBoost, boostWithinBounds, boostRatesSet.
  destruct (_ && _); simpl; rewrite ?Hm, ?Hr, ?Hd in *.
  - split; [| repeat split; assumption].
    split; [apply Rmax_l |]. apply Rmax_lub; lra.
  - split; [| repeat split; assumption].
    split; [| apply Rmin_l]. apply Rmin_glb; lra.
Qed.

Lemma update_boost rotateBy ih dt g g' :
  Game.update rotateBy ih dt g = Some g' ->
  Game.boost g'
  = Game.boost (Game.smoothBoost dt (Game.updateBoost dt g)).
Proof.
  intros H. apply update_unfold in H. destruct H as (g1 & E1 & E2).
  apply updateHumans_car in E2. destruct E2 as (_ & (_ & _ & _ & ->) & _).
  apply updatePhysicsObjects_step in E1.
  destruct E1 as ((_ & _ & _ & ->) & _).
  apply carPhase_boost.
Qed.

Lemma reachable_boost rotateBy g :
  Reachable rotateBy g ->
  boostWithinBounds (Game.boost g) /\ boostRatesSet (Game.boost g).
Proof.
  induction 1 as [g Hb | g Hr IH | g Hr IH | g h dt g' Hr IH Hdt Hup].
  - rewrite Hb. unfold boostWithinBounds, boostRatesSet,
      Game.setupSpeedBoost; simpl. repeat split; lra.
  - unfold Game.keydownSpace. destruct (_ >? 0); [| assumption].
    exact IH.
  - exact IH.
  - rewrite (update_boost _ _ _ _ _ Hup).
    destruct IH as [Hw Hrates].
    destruct (updateBoost_bounds dt g Hdt Hrates Hw) as [Hw' Hr'].
    exact (conj Hw' Hr').
Qed.

(** C9: in every state a session reaches (from [init], by space bar events
    and by ticks with frame time at least 0) the boost meter satisfies
    0 <= available <= max, and so it does right after the [updateBoost]
    call of the next tick, whatever its frame time (at least 0) and whether
    or not the boost is active. *)
Theorem boost_available_within_bounds
    (rotateBy : Euler -> Euler -> Euler) (g : Game.t) :
  Reachable rotateBy g ->
  boostWithinBounds (Game.boost g)
  /\ forall deltaTime, 0 <= deltaTime ->
       boostWithinBounds (Game.boost (Game.updateBoost deltaTime g)).
Proof.
  intros Hr. destruct (reachable_boost rotateBy g Hr) as [Hw Hrates].
  split; [assumption |].
  intros dt Hdt. apply updateBoost_bounds; assumption.
Qed.

Lemma worldOk_openField : worldOk Sample.openField.
Proof.
  split; [discriminate |]. split; [discriminate |].
  split; [constructor |]. intros n; simpl; lra.
Qed.

(** The game one tick (16 ms, no key held) after the start on the empty
    field. *)
Definition afterFirstTick : Game.t :=
  match Game.update Sample.addAngles Sample.noKeys 0.016 Sample.openField with
  | Some g => g
  | None => Sample.openField
  end.

Lemma afterFirstTick_eq :
  Game.update Sample.addAngles Sample.noKeys 0.016 Sample.openField
  = Some afterFirstTick.
Proof.
  unfold afterFirstTick.
  destruct (update_total Sample.addAngles Sample.noKeys 0.016
              Sample.openField worldOk_openField) as (g & -> & _).
  reflexivity.
Qed.

Lemma boost_available_within_bounds_witness :
  boostWithinBounds (Game.boost (Game.keydownSpace afterFirstTick))
  /\ forall deltaTime, 0 <= deltaTime ->
       boostWithinBounds
         (Game.boost
            (Game.updateBoost deltaTime (Game.keydownSpace afterFirstTick))).
Proof.
  apply (boost_available_within_bounds Sample.addAngles).
  apply reach_keydown.
  apply (reach_tick _ Sample.openField Sample.noKeys 0.016).
  - apply reach_init. reflexivity.
  - lra.
  - exact afterFirstTick_eq.
Defined.

(** ** The score (C10) *)

(** C10: the score never decreases over a tick.  The only assignment to the
    score is the one in [addScore]; a tick calls it with 50, 60 or 75 for a
    prop and with the [pointValue] of a pedestrian, which is 100 for every
    pedestrian [City] creates and stays so; hence the score after a tick
    is the score before plus a sum of such amounts. *)
Theorem score_never_decreases
    (rotateBy : Euler -> Euler -> Euler) (inputHandler : InputHandler.t)
    (deltaTime : R) (g g' : Game.t) :
  Forall (fun h => Human.pointValue h = 100) (Game.humans g) ->
  Game.update rotateBy inputHandler deltaTime g = Some g' ->
  Game.score g <= Game.score g'
  /\ scoreGrows g g'
  /\ Forall (fun h => Human.pointValue h = 100) (Game.humans g').
Proof.
  intros Hall H. apply update_unfold in H. destruct H as (g1 & E1 & E2).
  destruct (carPhase_only inputHandler deltaTime g) as (c & b & Ec).
  apply updatePhysicsObjects_step in E1.
  rewrite Ec in E1. destruct E1 as (_ & Hh & Hs & _).
  simpl in Hh. rewrite <- Hh in Hall.
  destruct (updateHumans_step _ _ _ Hall E2) as ((_ & _ & Hs2 & _) & Hall').
  assert (Hg : scoreGrows g g').
  { destruct Hs as (k1 & Hk1 & Ek1). destruct Hs2 as (k2 & Hk2 & Ek2).
    exists (k1 + k2). split; [apply Awarded_plus; assumption |].
    rewrite Ek2, Ek1. simpl. ring. }
  split; [apply scoreGrows_le; assumption |].
  split; assumption.
Qed.

(** ** The pedestrian state machine (C5) *)

Lemma updateHuman_dead dt carPosition carRadius carSpeed g human :
  Human.isDead human = true ->
  Game.updateHuman dt carPosition carRadius carSpeed g human
  = Some (human, g).
Proof. intros H; unfold Game.updateHuman; rewrite H; reflexivity. Qed.

Lemma updateHuman_kill dt carPosition carRadius carSpeed g human :
  Human.isDead human = false ->
  distanceTo (setY (Human.position human) 0) carPosition
  < carRadius + Human.boundingRadius human ->
  carSpeed > 5 ->
  exists human',
    Game.updateHuman dt carPosition carRadius carSpeed g human
    = Some (human', Game.addScore (Human.pointValue human) g)
    /\ Human.state human' = dead /\ Human.isDead human' = true.
Proof.
  intros Hd Hnear Hfast. unfold Game.updateHuman. rewrite Hd. simpl.
  cmp_true (distanceTo (setY (Human.position human) 0) carPosition
            <? carRadius + Human.boundingRadius human).
  cmp_true (carSpeed >? 5). simpl.
  unfold Game.killHuman. simpl. rewrite Hd.
  eexists. split; [reflexivity |]. split; reflexivity.
Qed.

Lemma updateHumansLoop_all_dead dt carPosition carRadius carSpeed hs :
  forall g,
  Forall (fun h => Human.isDead h = true) hs ->
  Game.updateHumansLoop dt carPosition carRadius carSpeed g hs
  = Some (hs, g).
Proof.
  induction hs as [| h rest IH]; simpl; intros g Hall; [reflexivity |].
  inversion Hall as [| ? ? Hh Hrest]; subst.
  rewrite updateHuman_dead by assumption.
  rewrite IH by assumption. reflexivity.
Qed.

Lemma set_humans_same g : Game.set_humans g (Game.humans g) = g.
Proof. destruct g; reflexivity. Qed.

(** The pedestrian at index [i] after a tick is the result of the callback
    on the pedestrian at index [i] before it, run with the position and
    speed the car has at the end of the tick. *)
Lemma update_human_at rotateBy ih dt g g' i human :
  Game.update rotateBy ih dt g = Some g' ->
  nth_error (Game.humans g) i = Some human ->
  exists g1 g2 human',
    Game.city g1 = Game.city g
    /\ Game.obstacles g1 = Game.obstacles g
    /\ Game.updateHuman dt (Car.getPosition (Game.car g'))
         Car.boundingRadius (Car.getSpeed (Game.car g')) g1 human
       = Some (human', g2)
    /\ nth_error (Game.humans g') i = Some human'.
Proof.
  intros H Hi. apply update_unfold in H. destruct H as (g1 & E1 & E2).
  destruct (carPhase_only ih dt g) as (c & b & Ec).
  pose proof (updatePhysicsObjects_step _ _ _ _ E1) as (Hs1 & Hh & _).
  rewrite Ec in Hh, Hs1. simpl in Hh.
  pose proof (updateHumans_car _ _ _ E2) as (Hc & _ & _).
  apply updateHumans_unfold in E2. destruct E2 as (hs' & g2 & E & ->).
  rewrite Hh in E. simpl in Hc.
  destruct (updateHumansLoop_nth _ _ _ _ _ _ _ _ _ _ E Hi)
    as (ga & gb & human' & Hsa & Hu & Hn).
  exists ga, gb, human'. simpl.
  assert (Hcar : Game.car g2 = Game.car g1) by exact Hc.
  rewrite Hcar. unfold Car.getBoundingRadius in Hu.
  destruct Hs1 as (s1 & s2 & _). destruct Hsa as (a1 & a2 & _).
  simpl in *.
  split; [congruence |]. split; [congruence |]. split; assumption.
Qed.

(** C5: Dead is terminal, and a close, fast car kills within the tick.
    - The callback of [updateHumans] returns a pedestrian whose [isDead] is
      set, and the game (the score with it), exactly as they were; so a
      tick leaves a dead pedestrian as it was, and the pedestrians' update
      of a population that is all dead changes nothing.
    - A pedestrian that is not dead, whose position (on the ground, y = 0)
      is at distance less than the car's bounding radius plus its own from
      the position the car has in this tick, while the car's speed
      magnitude is above 5, is dead ([state] Dead, [isDead] set) at the
      end of this tick.
    - In a well-formed world the tick returns. *)
Theorem dead_is_terminal_and_close_fast_car_kills
    (rotateBy : Euler -> Euler -> Euler) (inputHandler : InputHandler.t)
    (deltaTime : R) (g : Game.t) :
  (forall carPosition carRadius carSpeed g0 human,
      Human.isDead human = true ->
      Game.updateHuman deltaTime carPosition carRadius carSpeed g0 human
      = Some (human, g0))
  /\ (Forall (fun h => Human.isDead h = true) (Game.humans g) ->
      Game.updateHumans deltaTime g = Some g)
  /\ (forall g' i human,
      Game.update rotateBy inputHandler deltaTime g = Some g' ->
      nth_error (Game.humans g) i = Some human ->
      (Human.isDead human = true ->
       nth_error (Game.humans g') i = Some human)
      /\ (Human.isDead human = false ->
          distanceTo (setY (Human.position human) 0)
                     (Car.getPosition (Game.car g'))
          < Car.boundingRadius + Human.boundingRadius human ->
          Car.getSpeed (Game.car g') > 5 ->
          exists human',
            nth_error (Game.humans g') i = Some human'
            /\ Human.state human' = dead
            /\ Human.isDead human' = true))
  /\ (worldOk g ->
      exists g', Game.update rotateBy inputHandler deltaTime g = Some g').
Proof.
  split; [intros; apply updateHuman_dead; assumption |].
  split.
  { intros Hall. unfold Game.updateHumans.
    rewrite updateHumansLoop_all_dead by assumption.
    rewrite set_humans_same. reflexivity. }
  split.
  - intros g' i human Hup Hi.
    destruct (update_human_at _ _ _ _ _ _ _ Hup Hi)
      as (g1 & g2 & human' & _ & _ & Hu & Hn).
    split.
    + intros Hd. rewrite updateHuman_dead in Hu by assumption.
      injection Hu as <- _. assumption.
    + intros Hd Hnear Hfast.
      destruct (updateHuman_kill deltaTime (Car.getPosition (Game.car g'))
                  Car.boundingRadius (Car.getSpeed (Game.car g')) g1 human
                  Hd Hnear Hfast) as (h' & Hk & Hs & Hd').
      rewrite Hk in Hu. injection Hu as <- _.
      exists h'. split; [assumption | split; assumption].
  - intros Hw.
    destruct (update_total rotateBy inputHandler deltaTime g Hw)
      as (g' & E & _).
    exists g'; assumption.
Qed.

(** ** Evaluating the model on concrete numbers *)

Lemma length_eq v l :
  0 <= l -> lengthSq v = l * l -> THREE.length v = l.
Proof.
  intros Hl H. unfold THREE.length. rewrite H. apply sqrt_square; assumption.
Qed.

Lemma distanceTo_eq a b l :
  0 <= l -> lengthSq (sub a b) = l * l -> distanceTo a b = l.
Proof. intros; unfold distanceTo; apply length_eq; assumption. Qed.

Lemma Rabs_0 : Rabs 0 = 0.
Proof. apply Rabs_R0. Qed.

(** ** Walking to fleeing (C6) *)

(** The new game with [Sample.walker] as its only pedestrian: the car
    stands at the origin, 2.525 away from the pedestrian. *)
Definition walkerGame : Game.t :=
  Sample.game Car.new [] [] [] [Sample.walker].

Definition walkerAfter : Human.t :=
  Human.set_runningFrom (Human.set_state Sample.walker fleeing)
                        (Some (V3 0 0.5 0)).

Lemma walker_distance :
  distanceTo (V3 2.475 0 0) (V3 0 0.5 0) = 2.525.
Proof.
  apply distanceTo_eq; [lra |]. unfold lengthSq, dot, sub; simpl. lra.
Qed.

Lemma walkerGame_updateHumans :
  Game.updateHumans 0.016 walkerGame
  = Some (Game.set_humans walkerGame [walkerAfter]).
Proof.
  unfold Game.updateHumans, walkerGame, Sample.game. simpl.
  unfold Game.updateHuman. simpl.
  unfold setY; simpl. rewrite walker_distance.
  unfold Car.getSpeed, Car.getBoundingRadius, Car.boundingRadius. simpl.
  rewrite Rabs_R0.
  cmp_false (2.525 <? 1.8 + 0.4). simpl.
  cmp_false (2.525 >? 500). cmp_true (2.525 <? 15).
  reflexivity.
Qed.

(** C6, as stated, fails: the car comes within the detection radius (15) of
    a walking pedestrian without killing it; at the end of that tick the
    pedestrian is Fleeing, but its velocity is still its walking velocity,
    of magnitude 2, while its flee speed is 5. *)
Lemma walker_flees_at_walking_speed :
  Human.state Sample.walker = walking
  /\ distanceTo (Human.position Sample.walker)
                (Car.getPosition (Game.car walkerGame))
     < Human.detectionRadius Sample.walker
  /\ Game.updateHumans 0.016 walkerGame
     = Some (Game.set_humans walkerGame [walkerAfter])
  /\ Human.state walkerAfter = fleeing
  /\ THREE.length (Human.velocity walkerAfter) = 2
  /\ Human.fleeSpeed walkerAfter = 5.
Proof.
  split; [reflexivity |].
  split; [simpl; rewrite walker_distance; lra |].
  split; [exact walkerGame_updateHumans |].
  split; [reflexivity |].
  split; [| reflexivity].
  simpl. rewrite length_axis_x. rewrite Rabs_right; lra.
Qed.

(** ** Driving straight on an open field *)

Ltac vec_eq :=
  unfold add, sub, multiplyScalar, setX, setY, setZ; simpl;
  f_equal; first [ring | lra].

Lemma applyThrottle_grounded h dt c :
  Car.isAirborne c = false ->
  Car.applyThrottle h dt c
  = Car.set_speed c (Car.speed (Car.applyThrottle h dt c)).
Proof.
  intros Ha. unfold Car.applyThrottle. rewrite Ha. simpl.
  destruct (Car.forwardKey h); [reflexivity |].
  destruct (Car.backKey h); [reflexivity |].
  destruct (_ >? 0); [reflexivity |].
  destruct (_ <? 0); [reflexivity |].
  symmetry; apply set_speed_same.
Qed.

Lemma applyEuler_forward_level :
  applyEuler (V3 0 0 1) (mkEuler 0 0 0) = V3 0 0 1.
Proof.
  unfold applyEuler; simpl. rewrite sin_0, cos_0. f_equal; ring.
Qed.

Lemma steering_straight h dt p v lv s rh cr coll dr ldt :
  Car.leftKey h = false -> Car.rightKey h = false ->
  Car.applySteering h dt (Sample.headingNorth p v lv s rh cr coll dr ldt)
  = (Sample.headingNorth p v lv s rh cr coll dr ldt, false).
Proof.
  intros Hl Hr. unfold Car.applySteering, Sample.headingNorth. simpl.
  rewrite Hl, Hr. simpl.
  destruct (_ >? 0.1); simpl.
  - unfold Car.set_direction, Car.set_rotation, Car.set_currentTurnAmount,
      setEy. simpl.
    replace (0 * (1 - Car.turnInertia) + 0 * Car.turnInertia) with 0 by ring.
    replace (0 + Car.turnSpeed * dt * _ * 0) with 0 by ring.
    rewrite applyEuler_forward_level. reflexivity.
  - unfold Car.set_currentTurnAmount. simpl.
    replace (0 * (1 - Car.turnInertia * 2)) with 0 by ring. reflexivity.
Qed.

(** With no obstacle around and the wheel straight, [Car.update] moves the
    car along +z by the speed the throttle block computes. *)
Lemma straight_update h dt p v lv s rh cr coll dr ldt :
  Car.leftKey h = false -> Car.rightKey h = false ->
  let c := Sample.headingNorth p v lv s rh cr coll dr ldt in
  let s' := Car.speed (Car.applyThrottle h dt c) in
  Car.update h dt [] c
  = Sample.headingNorth (V3 (vx p) 0.5 (vz p + s' * dt)) (V3 0 0 s')
      (if coll then lv else p) s' rh cr false false ldt.
Proof.
  intros Hl Hr c s'.
  unfold Car.update, Car.move, Car.beforeMove.
  assert (E0 : Car.saveValidPosition c
               = Sample.headingNorth p v (if coll then lv else p) s rh cr
                   coll dr ldt).
  { unfold Car.saveValidPosition, c, Sample.headingNorth. simpl.
    destruct coll; reflexivity. }
  rewrite E0.
  set (c1 := Sample.headingNorth p v (if coll then lv else p) s rh cr
               coll dr ldt).
  assert (Es : Car.speed (Car.applyThrottle h dt c1) = s').
  { unfold s', c, c1, Sample.headingNorth, Car.applyThrottle. simpl.
    repeat match goal with
    | |- context [ if ?b then _ else _ ] => destruct b
    end; reflexivity. }
  rewrite (applyThrottle_grounded h dt c1) by reflexivity.
  rewrite Es.
  change (Car.set_speed c1 s')
    with (Sample.headingNorth p v (if coll then lv else p) s' rh cr
            coll dr ldt).
  rewrite steering_straight by assumption.
  unfold Car.updateDrift, Sample.headingNorth, Car.newPositionOf,
    Car.detectCollision. simpl.
  unfold Car.updateVertical. simpl.
  rewrite Rabs_R0. cmp_false (0 >? 0.01).
  unfold Car.set_rotation, Car.set_position. simpl.
  f_equal; vec_eq.
Qed.

(** The boost record after the meter and the multiplier were updated. *)
Definition boostAfter (deltaTime : R) (b : Boost.t) : Boost.t :=
  let b1 :=
    if Boost.active b && (Boost.available b >? 0) then
      Boost.set_available b
        (Rmax 0 (Boost.available b - Boost.depleteRate b * deltaTime))
    else
      Boost.set_available b
        (Rmin (Boost.max b)
              (Boost.available b + Boost.rechargeRate b * deltaTime)) in
  let targetMultiplier :=
    if Boost.active b1 && (Boost.available b1 >? 0)
    then Boost.speedMultiplier b1 else 1.0 in
  Boost.set_currentMultiplier b1
    (Boost.currentMultiplier b1
     + (targetMultiplier - Boost.currentMultiplier b1)
       * Boost.transitionSpeed b1 * deltaTime).

Lemma boostAfter_eq dt g :
  Game.boost (Game.smoothBoost dt (Game.updateBoost dt g))
  = boostAfter dt (Game.boost g).
Proof.
  unfold Game.smoothBoost, Game.updateBoost, boostAfter.
  destruct (Boost.active (Game.boost g) && _); reflexivity.
Qed.

Lemma driveCar_unfold ih dt g :
  Game.driveCar ih dt g
  = Game.applyBoost dt
      (Game.set_boost
         (Game.set_car g (Car.update ih dt (Game.obstacles g) (Game.car g)))
         (boostAfter dt (Game.boost g))).
Proof.
  unfold Game.driveCar. f_equal.
  rewrite <- boostAfter_eq.
  unfold Game.smoothBoost, Game.updateBoost.
  destruct (Boost.active (Game.boost g) && _); reflexivity.
Qed.

(** [driveCar] for a car driving straight on a field without obstacles. *)
Lemma driveCar_straight ih dt p v lv s rh cr coll dr ldt
      city sc ramps props humans b rnd :
  Car.leftKey ih = false -> Car.rightKey ih = false ->
  let c := Sample.headingNorth p v lv s rh cr coll dr ldt in
  let s' := Car.speed (Car.applyThrottle ih dt c) in
  let b' := boostAfter dt b in
  Game.driveCar ih dt (Game.mk c city sc [] ramps props humans b rnd)
  = Game.mk
      (Sample.headingNorth (V3 (vx p) 0.5 (vz p + s' * dt)) (V3 0 0 s')
         (if coll then lv else p)
         (if Boost.currentMultiplier b' >? 1.01
          then s' * Boost.currentMultiplier b' else s')
         rh cr false false ldt)
      city sc [] ramps props humans b' rnd.
Proof.
  intros Hl Hr c s' b'. rewrite driveCar_unfold. simpl.
  unfold c. rewrite straight_update by assumption. fold c s' b'.
  unfold Game.applyBoost. simpl.
  destruct (_ >? 1.01); reflexivity.
Qed.

(** ** Where the car is at the end of a tick (C1) *)

Lemma applyBoost_position dt g :
  Car.position (Game.car (Game.applyBoost dt g))
  = Car.position (Game.car g).
Proof.
  unfold Game.applyBoost.
  destruct (_ >? 1.01); [| reflexivity].
  destruct (Car.isAirborne _); [destruct (_ <? _) |]; reflexivity.
Qed.

(** The boundary block assigns the direction, speed, yaw and airborne
    state of the car, never its position: what it clamps is the vector
    [getPosition] returned. *)
Lemma enforceBoundary_position g :
  Car.position (Game.car (fst (Game.enforceBoundary g)))
  = Car.position (Game.car g).
Proof.
  unfold Game.enforceBoundary.
  destruct (_ || _); [| reflexivity].
  destruct (_ <? 0); simpl; [| reflexivity].
  destruct (_ && _); reflexivity.
Qed.

Definition sameGroundPoint (p q : Vector3) : Prop :=
  vx q = vx p /\ vz q = vz p.

Lemma rideLaunchpad_ground carPosition carSpeed radius height jumpStrength
      distanceSquared c :
  sameGroundPoint (Car.position c)
    (Car.position (Game.rideLaunchpad carPosition carSpeed radius height
                     jumpStrength distanceSquared c)).
Proof.
  unfold Game.rideLaunchpad.
  destruct (negb (Car.isAirborne c)); [| split; reflexivity].
  simpl. destruct (carSpeed >? 10); simpl;
    (destruct (_ && _); [destruct (carSpeed >? 30) |]); split; reflexivity.
Qed.

Lemma rideRamp_ground carDirection rampForward carSpeed height jumpStrength
      normalizedPos currentRampHeight c :
  sameGroundPoint (Car.position c)
    (Car.position (Game.rideRamp carDirection rampForward carSpeed height
                     jumpStrength normalizedPos currentRampHeight c)).
Proof.
  unfold Game.rideRamp.
  destruct (negb (Car.isAirborne c)) eqn:Ea; simpl.
  - destruct (_ && (carSpeed >? 15)); simpl;
      (destruct (_ && (carSpeed >? 10)); [| split; reflexivity]);
      (destruct (_ >? 0.7); [| split; reflexivity]);
      simpl; rewrite Ea; (destruct (carSpeed >? 30)); split; reflexivity.
  - destruct (_ && (carSpeed >? 10)); [| split; reflexivity].
    destruct (_ >? 0.7); [| split; reflexivity].
    rewrite Ea. split; reflexivity.
Qed.

Lemma scanRamps_ground carPosition carDirection carSpeed ramps :
  forall s,
  sameGroundPoint (Car.position (Game.scanCar s))
    (Car.position
       (Game.scanCar
          (Game.scanRamps carPosition carDirection carSpeed ramps s))).
Proof.
  induction ramps as [| ramp rest IH]; simpl; intros s.
  - split; reflexivity.
  - destruct ramp.
    + destruct (_ && _); [| apply IH].
      match goal with
      | |- sameGroundPoint _
             (Car.position (Game.scanCar (Game.scanRamps _ _ _ _ ?s1))) =>
          destruct (IH s1) as [Hx Hz]
      end.
      simpl in Hx, Hz.
      match type of Hx with
      | _ = vx (Car.position (Game.rideRamp ?a ?b ?c ?d ?e ?f ?g0 ?c0)) =>
          destruct (rideRamp_ground a b c d e f g0 c0) as [Hx' Hz']
      end.
      split; congruence.
    + destruct (_ <=? _); [| apply IH].
      simpl. apply rideLaunchpad_ground.
Qed.

Lemma checkRampInteractions_ground g :
  sameGroundPoint (Car.position (Game.car g))
    (Car.position (Game.car (Game.checkRampInteractions g))).
Proof.
  unfold Game.checkRampInteractions. simpl.
  match goal with
  | |- context [ Game.scanRamps ?p ?d ?sp ?rs ?s ] =>
      pose proof (scanRamps_ground p d sp rs s) as [Hx Hz];
      set (sc := Game.scanRamps p d sp rs s) in *
  end.
  simpl in Hx, Hz.
  destruct (negb (Game.onAnyRamp sc)
            && negb (Car.isAirborne (Game.scanCar sc)));
    simpl; split; simpl; assumption.
Qed.

(** The ground position (x and z) the car has at the end of a tick is the
    one [car.update] left: no later block of [update] assigns it. *)
Lemma update_ground_position rotateBy ih dt g g' :
  Game.update rotateBy ih dt g = Some g' ->
  sameGroundPoint
    (Car.position (Car.update ih dt (Game.obstacles g) (Game.car g)))
    (Car.position (Game.car g')).
Proof.
  intros H. apply update_unfold in H. destruct H as (g1 & E1 & E2).
  apply updateHumans_car in E2. destruct E2 as (-> & _).
  apply updatePhysicsObjects_step in E1.
  destruct E1 as (_ & _ & _ & _ & v & ->).
  unfold carPhase.
  destruct (checkRampInteractions_ground
              (fst (Game.enforceBoundary (Game.driveCar ih dt g))))
    as [Hx Hz].
  rewrite enforceBoundary_position in Hx, Hz.
  rewrite driveCar_unfold in *.
  rewrite applyBoost_position in Hx, Hz.
  split; [exact Hx | exact Hz].
Qed.

Lemma worldOk_sample c obstacles ramps props humans :
  boundariesPlaced obstacles ->
  worldOk (Sample.game c obstacles ramps props humans).
Proof.
  intros Hb. split; [discriminate |]. split; [discriminate |].
  split; [exact Hb |]. intros n; simpl; lra.
Qed.

Lemma halfSize_sample c obstacles ramps props humans :
  Game.halfSize (Sample.game c obstacles ramps props humans) = 95.
Proof. unfold Game.halfSize; simpl. lra. Qed.

Lemma forward_held :
  Car.forwardKey (Sample.keysDown ["ArrowUp"%string]) = true
  /\ Car.leftKey (Sample.keysDown ["ArrowUp"%string]) = false
  /\ Car.rightKey (Sample.keysDown ["ArrowUp"%string]) = false.
Proof. repeat split. Qed.

Lemma no_key_held :
  Car.forwardKey Sample.noKeys = false
  /\ Car.backKey Sample.noKeys = false
  /\ Car.leftKey Sample.noKeys = false
  /\ Car.rightKey Sample.noKeys = false.
Proof. repeat split. Qed.

Lemma boostAfter_idle dt :
  0 <= dt ->
  boostAfter dt Game.setupSpeedBoost = Game.setupSpeedBoost.
Proof.
  intros Hdt. unfold boostAfter, Game.setupSpeedBoost. simpl.
  rewrite Rmin_left by lra.
  unfold Boost.set_currentMultiplier, Boost.set_available. simpl.
  f_equal. lra.
Qed.

Lemma normalize_axis_z_neg k : k < 0 -> normalize (V3 0 0 k) = V3 0 0 (-1).
Proof.
  intros Hk. unfold normalize. rewrite length_axis_z.
  rewrite Rabs_left by assumption.
  destruct (Req_dec_T (- k) 0) as [E | _]; [lra |]. simpl.
  f_equal; field; lra.
Qed.

Lemma normalize_axis_z_pos k : 0 < k -> normalize (V3 0 0 k) = V3 0 0 1.
Proof.
  intros Hk. unfold normalize. rewrite length_axis_z.
  rewrite Rabs_right by lra.
  destruct (Req_dec_T k 0) as [E | _]; [lra |]. simpl.
  f_equal; field; lra.
Qed.

(** The game of the failing input of C1: [Sample.northRunner] on the empty
    field. *)
Definition boundaryGame : Game.t :=
  Sample.game Sample.northRunner [] [] [] [].

Lemma boundaryGame_driveCar :
  Game.driveCar (Sample.keysDown ["ArrowUp"%string]) 0.1 boundaryGame
  = Sample.game
      (Sample.headingNorth (V3 0 0.5 88) (V3 0 0 40) (V3 0 0.5 84) 40 0 None
                           false false 0)
      [] [] [] [].
Proof.
  unfold boundaryGame, Sample.game, Sample.northRunner.
  rewrite driveCar_straight by reflexivity.
  rewrite boostAfter_idle by lra.
  unfold Car.applyThrottle, Sample.headingNorth. simpl.
  rewrite Rmin_right by (unfold Car.acceleration, Car.maxSpeed; lra).
  unfold Game.setupSpeedBoost. simpl.
  cmp_false (1.0 >? 1.01).
  unfold Car.maxSpeed.
  f_equal. f_equal. vec_eq.
Qed.

(** C1: the stored position is not clamped.  The car is at z = 84 on the
    empty field, heading north at speed 40 with the forward key held; the
    playable rectangle ends at halfSize - buffer = 85.  After a tick of
    0.1 s [car.position.z] is 88.  The boundary block did run: the vector
    it clamped (the clone [getPosition] returned) ends at z = 85, the
    direction was reflected to (0, 0, -1) and the speed cut to 16; but the
    clamped vector is never copied back to the car. *)
Theorem boundary_clamp_misses_stored_position :
  Game.halfSize boundaryGame - 10 = 85
  /\ (exists g',
        Game.update Sample.addAngles (Sample.keysDown ["ArrowUp"%string]) 0.1
                    boundaryGame = Some g'
        /\ vz (Car.position (Game.car g')) = 88)
  /\ (let after :=
        Game.enforceBoundary
          (Game.driveCar (Sample.keysDown ["ArrowUp"%string]) 0.1
                         boundaryGame) in
      vz (snd after) = 85
      /\ vz (Car.position (Game.car (fst after))) = 88
      /\ Car.direction (Game.car (fst after)) = V3 0 0 (-1)
      /\ Car.speed (Game.car (fst after)) = 16).
Proof.
  split; [unfold boundaryGame; rewrite halfSize_sample; lra |].
  split.
  - destruct (update_total Sample.addAngles
                (Sample.keysDown ["ArrowUp"%string]) 0.1 boundaryGame)
      as (g' & E & _).
    { apply worldOk_sample. constructor. }
    exists g'. split; [exact E |].
    destruct (update_ground_position _ _ _ _ _ E) as [_ Hz].
    rewrite Hz. unfold boundaryGame, Sample.game, Sample.northRunner. simpl.
    rewrite straight_update by reflexivity.
    unfold Car.applyThrottle, Sample.headingNorth. simpl.
    rewrite Rmin_right by (unfold Car.acceleration, Car.maxSpeed; lra).
    unfold Car.maxSpeed. lra.
  - rewrite boundaryGame_driveCar.
    unfold Game.enforceBoundary. rewrite halfSize_sample.
    unfold Sample.game, Sample.headingNorth, Car.getPosition. simpl.
    rewrite Rabs_R0. rewrite (Rabs_right 88) by lra.
    cmp_false (0 >? 95 - 10). cmp_true (88 >? 95 - 10). simpl.
    rewrite ?Rabs_R0, ?(Rabs_right 88) by lra.
    cmp_true (88 >? 95 - 10). simpl.
    rewrite (sign_pos 88) by lra.
    rewrite normalize_axis_z_neg by lra.
    unfold dot. simpl.
    cmp_true (0 * 0 + 0 * 0 + 40 * -1 <? 0).
    simpl.
    assert (Eb : normalize
                   (sub (V3 0 0 40)
                        (multiplyScalar (V3 0 0 (-1))
                           (2 * (0 * 0 + 0 * 0 + 40 * -1))))
                 = V3 0 0 (-1)).
    { replace (sub _ _) with (V3 0 0 (-40)) by vec_eq.
      apply normalize_axis_z_neg; lra. }
    rewrite Eb.
    rewrite (Rabs_right (40 * 0.4)) by lra.
    cmp_true (40 * 0.4 >? 15). simpl.
    repeat split; lra.
Qed.

(** The first half of a tick for a car driving straight on the empty
    field of the sample city, as long as it stays inside the playable
    rectangle. *)
Lemma carPhase_straight ih dt p v lv s rh cr coll dr ldt sc props humans
      b rnd :
  Car.leftKey ih = false -> Car.rightKey ih = false ->
  let c := Sample.headingNorth p v lv s rh cr coll dr ldt in
  let s' := Car.speed (Car.applyThrottle ih dt c) in
  let b' := boostAfter dt b in
  Rabs (vx p) <= 85 -> Rabs (vz p + s' * dt) <= 85 ->
  carPhase ih dt (Game.mk c Sample.city sc [] [] props humans b rnd)
  = Game.mk
      (Sample.headingNorth (V3 (vx p) 0.5 (vz p + s' * dt)) (V3 0 0 s')
         (if coll then lv else p)
         (if Boost.currentMultiplier b' >? 1.01
          then s' * Boost.currentMultiplier b' else s')
         0 None false false ldt)
      Sample.city sc [] [] props humans b' rnd.
Proof.
  intros Hl Hr c s' b' Hx Hz. unfold carPhase, c.
  rewrite driveCar_straight by assumption. fold c s' b'.
  unfold Game.enforceBoundary.
  assert (Eh : forall c0, Game.halfSize
            (Game.mk c0 Sample.city sc [] [] props humans b' rnd) = 95).
  { intros c0. unfold Game.halfSize; simpl. lra. }
  rewrite Eh. unfold Car.getPosition, Sample.headingNorth. simpl.
  cmp_false (Rabs (vx p) >? 95 - 10).
  cmp_false (Rabs (vz p + s' * dt) >? 95 - 10). simpl.
  unfold Game.checkRampInteractions. simpl.
  unfold Car.set_currentRamp, Car.set_rampHeight, Car.set_onRamp,
    Car.set_position. simpl.
  reflexivity.
Qed.

Lemma update_no_props rotateBy ih dt g :
  Game.physicsObjects (carPhase ih dt g) = [] ->
  Game.update rotateBy ih dt g = Game.updateHumans dt (carPhase ih dt g).
Proof.
  intros Hp. unfold Game.update. fold (carPhase ih dt g).
  unfold Game.updatePhysicsObjects. rewrite Hp. simpl.
  f_equal. rewrite <- Hp. destruct (carPhase ih dt g); reflexivity.
Qed.

(** The tick of 16 ms, no key held, of the game with [Sample.walker]. *)
Definition walkerGameAfter : Game.t :=
  Game.set_humans walkerGame [walkerAfter].

Lemma walkerGame_tick :
  Game.update Sample.addAngles Sample.noKeys 0.016 walkerGame
  = Some walkerGameAfter.
Proof.
  assert (Ec : carPhase Sample.noKeys 0.016 walkerGame = walkerGame).
  { unfold walkerGame, Sample.game.
    change Car.new
      with (Sample.headingNorth (V3 0 0.5 0) (V3 0 0 0) (V3 0 0.5 0) 0 0 None
              false false 0).
    rewrite carPhase_straight; try reflexivity.
    - rewrite boostAfter_idle by lra.
      unfold Car.applyThrottle, Sample.headingNorth. simpl.
      cmp_false (0 >? 0). cmp_false (0 <? 0). simpl.
      unfold Game.setupSpeedBoost. simpl. cmp_false (1.0 >? 1.01).
      f_equal. f_equal; vec_eq.
    - simpl. rewrite Rabs_R0. lra.
    - unfold Car.applyThrottle, Sample.headingNorth. simpl.
      cmp_false (0 >? 0). cmp_false (0 <? 0). simpl.
      replace (0 + 0 * 0.016) with 0 by lra. rewrite Rabs_R0. lra. }
  rewrite update_no_props by (rewrite Ec; reflexivity).
  rewrite Ec. exact walkerGame_updateHumans.
Qed.

Lemma flee_velocity human dt carPosition g human' g' :
  Game.flee human dt carPosition g = Some (human', g') ->
  THREE.length (sub (Human.position human) carPosition) <> 0 ->
  Game.atCityBoundary g
    (add (Human.position human)
         (multiplyScalar
            (multiplyScalar (normalize (sub (Human.position human) carPosition))
                            (Human.fleeSpeed human))
            dt)) = false ->
  0 <= Human.fleeSpeed human ->
  Human.state human' = Human.state human
  /\ Human.velocity human'
     = multiplyScalar (normalize (sub (Human.position human) carPosition))
                      (Human.fleeSpeed human)
  /\ THREE.length (Human.velocity human') = Human.fleeSpeed human.
Proof.
  intros H Hne Hb Hf. unfold Game.flee in H.
  destruct (Game.hitsBoundaryObstacle _ _ _) as [cd |]; [| discriminate].
  simpl in H. rewrite Hb in H. rewrite orb_false_r in H.
  assert (Hv : Human.velocity human'
               = multiplyScalar
                   (normalize (sub (Human.position human) carPosition))
                   (Human.fleeSpeed human)).
  { destruct cd; injection H as <- _; reflexivity. }
  split; [destruct cd; injection H as <- _; reflexivity |].
  split; [exact Hv |].
  rewrite Hv, length_multiplyScalar, length_normalize by assumption.
  rewrite Rabs_right by lra. ring.
Qed.

(** C6, amended: a walking pedestrian that is not killed in a tick in which
    its distance to the car is below its detection radius (and within the
    AI range of 500) is Fleeing at the end of that tick, with [runningFrom]
    set to the car's position and with its velocity as it was.  Its
    velocity gets magnitude [fleeSpeed] in a later callback: whenever the
    pedestrian so left is updated while the car is still within 1.5 times
    the detection radius (not at its very position, not killing it) and
    the flee step does not cross the city boundary, its velocity is
    [fleeSpeed] times the unit vector away from the car. *)
Theorem walking_pedestrian_turns_to_flee
    (rotateBy : Euler -> Euler -> Euler) (inputHandler : InputHandler.t)
    (deltaTime : R) (g g' : Game.t) (i : nat) (human : Human.t) :
  Game.update rotateBy inputHandler deltaTime g = Some g' ->
  nth_error (Game.humans g) i = Some human ->
  Human.isDead human = false ->
  Human.state human = walking ->
  let p := setY (Human.position human) 0 in
  let d := distanceTo p (Car.getPosition (Game.car g')) in
  d < Human.detectionRadius human ->
  d <= 500 ->
  ~ (d < Car.boundingRadius + Human.boundingRadius human
     /\ Car.getSpeed (Game.car g') > 5) ->
  exists human',
    nth_error (Game.humans g') i = Some human'
    /\ human' = Human.set_runningFrom
                  (Human.set_state (Human.set_position human p) fleeing)
                  (Some (Car.getPosition (Game.car g')))
    /\ Human.state human' = fleeing
    /\ Human.velocity human' = Human.velocity human
    /\ forall deltaTime2 carPosition carSpeed g2 human2 g3,
         let d2 := distanceTo p carPosition in
         Game.updateHuman deltaTime2 carPosition Car.boundingRadius carSpeed
                          g2 human' = Some (human2, g3) ->
         ~ (d2 < Car.boundingRadius + Human.boundingRadius human
            /\ carSpeed > 5) ->
         0 < d2 -> d2 < Human.detectionRadius human * 1.5 -> d2 <= 500 ->
         Game.atCityBoundary g2
           (add p (multiplyScalar
                     (multiplyScalar (normalize (sub p carPosition))
                                     (Human.fleeSpeed human))
                     deltaTime2)) = false ->
         0 <= Human.fleeSpeed human ->
         Human.state human2 = fleeing
         /\ Human.velocity human2
            = multiplyScalar (normalize (sub p carPosition))
                             (Human.fleeSpeed human)
         /\ THREE.length (Human.velocity human2) = Human.fleeSpeed human.
Proof.
  intros Hup Hi Hd Hs p d Hnear Hrange Hnokill.
  destruct (update_human_at _ _ _ _ _ _ _ Hup Hi)
    as (g1 & g2 & human' & _ & _ & Hu & Hn).
  assert (Hkill : forall x r sp,
            ~ (x < r /\ sp > 5) -> ((x <? r) && (sp >? 5)) = false).
  { intros x r sp Hno.
    destruct (x <? r) eqn:E1; [| reflexivity].
    destruct (sp >? 5) eqn:E2; [| reflexivity].
    apply ltb_true in E1. apply gtb_true in E2.
    exfalso; apply Hno; split; lra. }
  unfold Game.updateHuman in Hu. rewrite Hd in Hu. simpl in Hu.
  fold p in Hu. fold d in Hu.
  rewrite (Hkill _ _ _ Hnokill) in Hu.
  assert (E500 : (d >? 500) = false) by (apply gtb_false; exact Hrange).
  rewrite E500, Hs in Hu.
  assert (Enear : (d <? Human.detectionRadius human) = true)
    by (apply ltb_true; exact Hnear).
  rewrite Enear in Hu. injection Hu as <- _.
  eexists. split; [exact Hn |]. split; [reflexivity |].
  split; [reflexivity |]. split; [reflexivity |].
  intros dt2 cp cs g3 h2 g4 d2 Hu2 Hnokill2 Hpos Hnear2 Hrange2 Hb Hf.
  unfold Game.updateHuman in Hu2. simpl in Hu2. rewrite Hd in Hu2.
  assert (Epp : setY p 0 = p) by reflexivity.
  rewrite Epp in Hu2. fold d2 in Hu2.
  rewrite (Hkill _ _ _ Hnokill2) in Hu2.
  assert (E500b : (d2 >? 500) = false) by (apply gtb_false; exact Hrange2).
  assert (Enear2 : (d2 <? Human.detectionRadius human * 1.5) = true)
    by (apply ltb_true; exact Hnear2).
  rewrite E500b, Enear2 in Hu2.
  apply flee_velocity in Hu2; simpl.
  - exact Hu2.
  - unfold d2, distanceTo in Hpos. lra.
  - exact Hb.
  - exact Hf.
Qed.

Lemma walking_pedestrian_turns_to_flee_witness :
  exists human',
    nth_error (Game.humans walkerGameAfter) 0 = Some human'
    /\ human' = Human.set_runningFrom
                  (Human.set_state
                     (Human.set_position Sample.walker
                        (setY (Human.position Sample.walker) 0)) fleeing)
                  (Some (Car.getPosition (Game.car walkerGameAfter)))
    /\ Human.state human' = fleeing
    /\ Human.velocity human' = Human.velocity Sample.walker
    /\ forall deltaTime2 carPosition carSpeed g2 human2 g3,
         let p := setY (Human.position Sample.walker) 0 in
         let d2 := distanceTo p carPosition in
         Game.updateHuman deltaTime2 carPosition Car.boundingRadius carSpeed
                          g2 human' = Some (human2, g3) ->
         ~ (d2 < Car.boundingRadius + Human.boundingRadius Sample.walker
            /\ carSpeed > 5) ->
         0 < d2 -> d2 < Human.detectionRadius Sample.walker * 1.5 ->
         d2 <= 500 ->
         Game.atCityBoundary g2
           (add p (multiplyScalar
                     (multiplyScalar (normalize (sub p carPosition))
                                     (Human.fleeSpeed Sample.walker))
                     deltaTime2)) = false ->
         0 <= Human.fleeSpeed Sample.walker ->
         Human.state human2 = fleeing
         /\ Human.velocity human2
            = multiplyScalar (normalize (sub p carPosition))
                             (Human.fleeSpeed Sample.walker)
         /\ THREE.length (Human.velocity human2)
            = Human.fleeSpeed Sample.walker.
Proof.
  apply (walking_pedestrian_turns_to_flee Sample.addAngles Sample.noKeys
           0.016 walkerGame walkerGameAfter 0 Sample.walker).
  - exact walkerGame_tick.
  - reflexivity.
  - reflexivity.
  - reflexivity.
  - simpl. unfold setY; simpl. rewrite walker_distance. lra.
  - simpl. unfold setY; simpl. rewrite walker_distance. lra.
  - simpl. unfold setY; simpl. rewrite walker_distance.
    unfold Car.boundingRadius. intros [H _]. lra.
Defined.

(** ** Ramps (C7) *)

Lemma axis_forward_0 : applyAxisAngleY (V3 0 0 1) 0 = V3 0 0 1.
Proof. unfold applyAxisAngleY; simpl. rewrite sin_0, cos_0. f_equal; ring. Qed.

Lemma axis_right_0 : applyAxisAngleY (V3 1 0 0) 0 = V3 1 0 0.
Proof. unfold applyAxisAngleY; simpl. rewrite sin_0, cos_0. f_equal; ring. Qed.

(** The loop goes through the whole list when no footprint contains the
    car. *)
Lemma scanRamps_no_match carPosition carDirection carSpeed ramps :
  forall s,
  Forall (fun ramp => Game.onFootprint carPosition ramp = false) ramps ->
  Game.scanRamps carPosition carDirection carSpeed ramps s = s.
Proof.
  induction ramps as [| ramp rest IH]; simpl; intros s Hall; [reflexivity |].
  inversion Hall as [| ? ? Hr Hrest]; subst.
  destruct ramp; simpl in Hr; rewrite Hr; apply IH; assumption.
Qed.

(** With no ramp or launchpad under a grounded car, its height is reset
    to 0.5 and [onRamp] is cleared. *)
Lemma no_ramp_resets_height g :
  Forall (fun ramp =>
            Game.onFootprint (Car.getPosition (Game.car g)) ramp = false)
         (Game.ramps g) ->
  Car.isAirborne (Game.car g) = false ->
  vy (Car.position (Game.car (Game.checkRampInteractions g))) = 0.5
  /\ Car.onRamp (Game.car (Game.checkRampInteractions g)) = false
  /\ Car.currentRamp (Game.car (Game.checkRampInteractions g)) = None.
Proof.
  intros Hall Ha. unfold Game.checkRampInteractions.
  rewrite scanRamps_no_match by assumption. simpl.
  rewrite Ha. simpl. repeat split.
Qed.

(** A launchpad ends the scan: when the first entry whose footprint
    contains the car is a launchpad, it is the current ramp. *)
Lemma first_match_launchpad carPosition carDirection carSpeed before
      position radius height jumpStrength rest s :
  Forall (fun ramp => Game.onFootprint carPosition ramp = false) before ->
  Game.onFootprint carPosition
    (Ramp.Launchpad position radius height jumpStrength) = true ->
  Game.currentRamp
    (Game.scanRamps carPosition carDirection carSpeed
       (before ++ Ramp.Launchpad position radius height jumpStrength :: rest)
       s)
  = Some (Ramp.Launchpad position radius height jumpStrength).
Proof.
  revert s. induction before as [| ramp before' IH]; simpl; intros s Hall Hon.
  - simpl in Hon. rewrite Hon. reflexivity.
  - inversion Hall as [| ? ? Hr Hrest]; subst.
    destruct ramp; simpl in Hr; rewrite Hr; apply IH; assumption.
Qed.

(** Two directional ramps under the car: it stands still at
    (0, 0.5, 0.5), on the footprints of both [Sample.rampA] and
    [Sample.rampB]. *)
Definition twoRampsGame : Game.t :=
  Sample.game (Car.set_position Car.new (V3 0 0.5 0.5)) []
              [Sample.rampA; Sample.rampB] [] [].

(** The branch for directional ramps has no [break].  Such ramps are
    built by [createRamp] only, which the constructor no longer calls
    ([createRamps] is commented out), so no [ramps] array of the game
    holds one; on a list that does, the last matching directional ramp
    wins.  Here the footprints of two directional ramps both contain the
    car, [Sample.rampA] first in the list: [checkRampInteractions] sets the
    ride height for rampA (0.5 + 2.25) and then for rampB (0.5 + 1.75), and
    leaves rampB as the current ramp, with rampB's height. *)
Remark later_ramp_overrides_first_match :
  Game.onFootprint (Car.getPosition (Game.car twoRampsGame)) Sample.rampA
  = true
  /\ Game.onFootprint (Car.getPosition (Game.car twoRampsGame)) Sample.rampB
     = true
  /\ Car.currentRamp (Game.car (Game.checkRampInteractions twoRampsGame))
     = Some Sample.rampB
  /\ Car.rampHeight (Game.car (Game.checkRampInteractions twoRampsGame))
     = 1.75
  /\ vy (Car.position (Game.car (Game.checkRampInteractions twoRampsGame)))
     = 2.25.
Proof.
  assert (Ea : Game.onFootprint (V3 0 0.5 0.5) Sample.rampA = true).
  { unfold Game.onFootprint, Sample.rampA.
    rewrite axis_forward_0, axis_right_0. unfold dot, sub. simpl.
    rewrite (Rabs_right ((0 - 0) * 1 + (0.5 - 0.5) * 0 + (0.5 - 0) * 0))
      by lra.
    cmp_true ((0 - 0) * 1 + (0.5 - 0.5) * 0 + (0.5 - 0) * 0 <? 7 / 2).
    cmp_true ((0 - 0) * 0 + (0.5 - 0.5) * 0 + (0.5 - 0) * 1 >? - (8) / 2).
    cmp_true ((0 - 0) * 0 + (0.5 - 0.5) * 0 + (0.5 - 0) * 1 <? 8 / 2).
    reflexivity. }
  assert (Eb : Game.onFootprint (V3 0 0.5 0.5) Sample.rampB = true).
  { unfold Game.onFootprint, Sample.rampB.
    rewrite axis_forward_0, axis_right_0. unfold dot, sub. simpl.
    rewrite (Rabs_right ((0 - 0) * 1 + (0.5 - 0.5) * 0 + (0.5 - 1) * 0))
      by lra.
    cmp_true ((0 - 0) * 1 + (0.5 - 0.5) * 0 + (0.5 - 1) * 0 <? 7 / 2).
    cmp_true ((0 - 0) * 0 + (0.5 - 0.5) * 0 + (0.5 - 1) * 1 >? - (8) / 2).
    cmp_true ((0 - 0) * 0 + (0.5 - 0.5) * 0 + (0.5 - 1) * 1 <? 8 / 2).
    reflexivity. }
  split; [exact Ea |]. split; [exact Eb |].
  unfold Game.checkRampInteractions, twoRampsGame, Sample.game. simpl.
  unfold Game.onFootprint, Sample.rampA, Sample.rampB in Ea, Eb.
  rewrite Ea, Eb. simpl.
  unfold Game.rideRamp. simpl.
  rewrite axis_forward_0. unfold dot, sub, Car.getSpeed. simpl.
  rewrite Rabs_R0.
  cmp_false (0 >? 15). cmp_false (0 >? 10).
  rewrite !andb_false_r. simpl.
  repeat split; lra.
Qed.

(** *** The ramps of the game: launchpads *)

Definition isLaunchpad (ramp : Ramp.t) : Prop :=
  match ramp with
  | Ramp.Launchpad _ _ _ _ => True
  | Ramp.Directional _ _ _ _ _ _ => False
  end.

Lemma scanRamps_launchpads carPosition carDirection carSpeed ramps :
  forall s,
  Forall isLaunchpad ramps ->
  Game.scanRamps carPosition carDirection carSpeed ramps s
  = match find (Game.onFootprint carPosition) ramps with
    | None => s
    | Some (Ramp.Launchpad position radius height jumpStrength as ramp) =>
      {| Game.onAnyRamp := true;
         Game.currentRampHeight := Game.currentRampHeight s;
         Game.currentRamp := Some ramp;
         Game.scanCar :=
           Game.rideLaunchpad carPosition carSpeed radius height jumpStrength
             ((vx carPosition - vx position) * (vx carPosition - vx position)
              + (vz carPosition - vz position)
                * (vz carPosition - vz position))
             (Game.scanCar s) |}
    | Some (Ramp.Directional _ _ _ _ _ _) => s
    end.
Proof.
  induction ramps as [| ramp rest IH]; intros s Hall; [reflexivity |].
  inversion Hall as [| ? ? Hl Hrest]; subst.
  destruct ramp as [| position radius height jumpStrength]; [destruct Hl |].
  simpl. destruct (_ <=? _); [reflexivity |].
  apply IH. exact Hrest.
Qed.

Lemma launchpads_are_launchpads c : Forall isLaunchpad (City.launchpads c).
Proof.
  unfold City.launchpads. apply Forall_flat_map.
  unfold City.createOpenSpaces.
  repeat constructor; unfold City.addStuntRamps; apply Forall_map;
    apply Forall_forall; intros i _; exact I.
Qed.

(** The game [g] with [ramps] as its ramp array. *)
Definition withRamps (g : Game.t) (ramps : list Ramp.t) : Game.t :=
  Game.mk (Game.car g) (Game.city g) (Game.score g) (Game.obstacles g) ramps
          (Game.physicsObjects g) (Game.humans g) (Game.boost g)
          (Game.random g).

Lemma find_first_match {A : Type} (f : A -> bool) before x rest :
  Forall (fun a => f a = false) before -> f x = true ->
  find f (before ++ x :: rest) = Some x.
Proof.
  intros Hb Hx. induction before as [| b before' IH]; simpl.
  - rewrite Hx. reflexivity.
  - inversion Hb as [| ? ? Hb1 Hb2]; subst. rewrite Hb1. apply IH. exact Hb2.
Qed.

(** C7: per tick at most one launchpad is treated as active, the first
    entry of [ramps] whose footprint contains the car.  The [ramps] of the
    game hold launchpads only ([createLaunchpad] is the one function the
    constructor calls that pushes to the array); for such a list the scan
    stops at the first match: that entry is the current ramp, and the car
    comes out of [checkRampInteractions] as it would if that launchpad
    were the only entry of the array, whatever precedes or follows it.
    And when no footprint contains a car that is on the ground, its height
    is reset to 0.5. *)
Theorem first_matching_launchpad_alone_is_active g :
  Forall isLaunchpad (Game.ramps g) ->
  let p := Car.getPosition (Game.car g) in
  let c' := Game.car (Game.checkRampInteractions g) in
  (forall before pad rest,
      Game.ramps g = before ++ pad :: rest ->
      Forall (fun ramp => Game.onFootprint p ramp = false) before ->
      Game.onFootprint p pad = true ->
      Car.currentRamp c' = Some pad
      /\ Car.onRamp c' = true
      /\ c' = Game.car (Game.checkRampInteractions (withRamps g [pad])))
  /\ (Forall (fun ramp => Game.onFootprint p ramp = false) (Game.ramps g) ->
      Car.isAirborne (Game.car g) = false ->
      vy (Car.position c') = 0.5
      /\ Car.onRamp c' = false
      /\ Car.currentRamp c' = None).
Proof.
  intros Hall p c'. split.
  - intros before pad rest Hr Hb Hon.
    assert (Hpad : isLaunchpad pad).
    { rewrite Forall_forall in Hall. apply Hall. rewrite Hr.
      apply in_or_app. right. left. reflexivity. }
    assert (E : Game.scanRamps p (Car.getDirection (Game.car g))
                  (Car.getSpeed (Game.car g)) (Game.ramps g)
                  {| Game.onAnyRamp := false; Game.currentRampHeight := 0;
                     Game.currentRamp := None; Game.scanCar := Game.car g |}
                = Game.scanRamps p (Car.getDirection (Game.car g))
                    (Car.getSpeed (Game.car g)) [pad]
                    {| Game.onAnyRamp := false; Game.currentRampHeight := 0;
                       Game.currentRamp := None;
                       Game.scanCar := Game.car g |}).
    { rewrite (scanRamps_launchpads _ _ _ (Game.ramps g)) by assumption.
      rewrite (scanRamps_launchpads _ _ _ [pad])
        by (constructor; [assumption | constructor]).
      rewrite Hr, (find_first_match _ before pad rest Hb Hon).
      simpl. rewrite Hon. reflexivity. }
    unfold c', Game.checkRampInteractions, withRamps. simpl. fold p.
    rewrite E.
    split; [| split]; try reflexivity.
    + destruct pad as [| position radius height jumpStrength];
        [destruct Hpad |].
      simpl in Hon |- *. fold p. rewrite Hon. reflexivity.
    + destruct pad as [| position radius height jumpStrength];
        [destruct Hpad |].
      simpl in Hon |- *. fold p. rewrite Hon. reflexivity.
  - intros Hnone Ha. apply no_ramp_resets_height; assumption.
Qed.

Lemma floor_eq (z : Z) x : IZR z <= x < IZR z + 1 -> JsMath.floor x = z.
Proof. apply Zfloor_eq. Qed.

(** The launchpads of the city the constructor builds: those around the
    centre, 48 away from it, then one in each of the two smaller spaces. *)
Definition centralPads : list Ramp.t :=
  City.addStuntRamps
    {| City.spaceX := 0; City.spaceZ := 0; City.radius := 120 |}.

Lemma built_launchpads :
  City.launchpads City.new
  = centralPads
    ++ City.createLaunchpad (-41) 57 :: [City.createLaunchpad 77 (-57)].
Proof.
  unfold City.launchpads, City.createOpenSpaces, centralPads. simpl.
  f_equal. unfold City.addStuntRamps. simpl.
  rewrite (floor_eq 1 (40 / 30)) by (simpl; lra).
  rewrite (floor_eq 1 (50 / 30)) by (simpl; lra).
  simpl.
  replace (0 / IZR (Z.min 3 1) * PI * 2) with 0 by (unfold Rdiv; ring).
  rewrite cos_0, sin_0.
  f_equal; [| f_equal]; unfold City.createLaunchpad;
    f_equal; f_equal; lra.
Qed.

Lemma centralPads_far x y z :
  57 <= z ->
  Forall (fun ramp => Game.onFootprint (V3 x y z) ramp = false) centralPads.
Proof.
  intros Hz. unfold centralPads, City.addStuntRamps.
  apply Forall_map, Forall_forall. intros i _. simpl.
  apply leb_false.
  match goal with
  | |- context [ sin ?a ] => pose proof (SIN_bound a) as Hs; set (s := sin a) in *
  end.
  match goal with
  | |- context [ cos ?a ] => set (k := cos a) in *
  end.
  assert (H1 : 9 <= z - (0 + s * (120 * 0.4))) by lra.
  assert (H2 : 0 <= (x - (0 + k * (120 * 0.4))) * (x - (0 + k * (120 * 0.4))))
    by apply Rle_0_sqr.
  nra.
Qed.

(** The car stands on the launchpad of the second open space, the fourth
    entry of the [ramps] the constructor builds. *)
Definition padGame : Game.t :=
  Sample.game (Car.set_position Car.new (V3 (-41) 0.5 57)) []
              (City.launchpads City.new) [] [].

Lemma first_matching_launchpad_alone_is_active_witness :
  let c' := Game.car (Game.checkRampInteractions padGame) in
  Car.currentRamp c' = Some (City.createLaunchpad (-41) 57)
  /\ Car.onRamp c' = true
  /\ c' = Game.car
            (Game.checkRampInteractions
               (withRamps padGame [City.createLaunchpad (-41) 57])).
Proof.
  apply (proj1 (first_matching_launchpad_alone_is_active padGame
                  (launchpads_are_launchpads City.new))
           centralPads (City.createLaunchpad (-41) 57)
           [City.createLaunchpad 77 (-57)]).
  - exact built_launchpads.
  - apply centralPads_far. lra.
  - simpl. apply leb_true. lra.
Defined.

(** ** Resetting a prop (C8) *)

(** A prop that was never moved: upright, at its original pose, at rest. *)
Definition untouched (obj : PhysicsObject.t) : Prop :=
  PhysicsObject.isKnockedOver obj = false
  /\ PhysicsObject.position obj = PhysicsObject.originalPosition obj
  /\ PhysicsObject.rotation obj = PhysicsObject.originalRotation obj
  /\ PhysicsObject.velocity obj = V3 0 0 0
  /\ PhysicsObject.angularVelocity obj = V3 0 0 0.

Lemma untouched_trashCan : untouched Sample.trashCanAtOrigin.
Proof. repeat split. Qed.

Lemma untouched_bench : untouched Sample.benchAtOrigin.
Proof. repeat split. Qed.

Lemma floor_0 : JsMath.floor 0 = 0%Z.
Proof. unfold JsMath.floor. apply (ZfloorZ 0). Qed.

Lemma openField_sidewalk :
  Game.getRandomSidewalkPosition Sample.openField
  = Some (V3 (-101.5) 1 (-95), afterDraws 4 Sample.openField).
Proof.
  unfold Game.getRandomSidewalkPosition. simpl.
  cmp_false (0 >? 0.5).
  replace (0 * INR (List.length Sample.roads)) with 0 by ring.
  rewrite floor_0. simpl.
  unfold afterDraws. simpl.
  f_equal. f_equal. f_equal; lra.
Qed.

(** C8, as stated, fails for trash cans: resetting the untouched trash can
    at (0, 1, 0) moves it to a sidewalk position drawn at random, here
    (-101.5, 1, -95). *)
Lemma trash_can_reset_moves_it :
  untouched Sample.trashCanAtOrigin
  /\ exists obj',
       Game.resetPhysicsObject Sample.openField Sample.trashCanAtOrigin
       = Some (obj', afterDraws 4 Sample.openField)
       /\ PhysicsObject.position obj' = V3 (-101.5) 1 (-95)
       /\ PhysicsObject.position obj'
          <> PhysicsObject.position Sample.trashCanAtOrigin.
Proof.
  split; [exact untouched_trashCan |].
  unfold Game.resetPhysicsObject. simpl.
  rewrite openField_sidewalk.
  eexists. split; [reflexivity |]. simpl.
  split; [reflexivity |].
  intros H. injection H as H _. lra.
Qed.

(** C8, amended: resetting an untouched prop of any type other than a
    trash can returns it, and the game, exactly as they were.  Resetting
    an untouched trash can leaves its rotation, velocity and angular
    velocity as they were, and moves it, with its original position, to a
    random sidewalk position at height 1. *)
Theorem reset_of_untouched_prop (g : Game.t) (obj : PhysicsObject.t) :
  untouched obj ->
  (PhysicsObject.type obj <> trashCan ->
   Game.resetPhysicsObject g obj = Some (obj, g))
  /\ (forall obj' g',
        Game.resetPhysicsObject g obj = Some (obj', g') ->
        PhysicsObject.rotation obj' = PhysicsObject.rotation obj
        /\ PhysicsObject.velocity obj' = PhysicsObject.velocity obj
        /\ PhysicsObject.angularVelocity obj'
           = PhysicsObject.angularVelocity obj
        /\ PhysicsObject.isKnockedOver obj' = false
        /\ (PhysicsObject.type obj = trashCan ->
            PhysicsObject.position obj' = PhysicsObject.originalPosition obj'
            /\ vy (PhysicsObject.position obj') = 1
            /\ Game.getRandomSidewalkPosition g
               = Some (PhysicsObject.position obj', g'))).
Proof.
  intros (Hk & Hp & Hr & Hv & Hw).
  assert (Hsame : forall o,
            o = PhysicsObject.set_isKnockedOver
                  (PhysicsObject.set_angularVelocity
                     (PhysicsObject.set_velocity
                        (PhysicsObject.set_rotation
                           (PhysicsObject.set_position obj
                              (PhysicsObject.originalPosition obj))
                           (PhysicsObject.originalRotation obj))
                        (V3 0 0 0))
                     (V3 0 0 0))
                  false ->
            o = obj).
  { intros o ->. destruct obj; simpl in *. subst. reflexivity. }
  split.
  - intros Hty. unfold Game.resetPhysicsObject.
    destruct (PhysicsObject.type obj) eqn:Ety; try contradiction;
      simpl; f_equal; f_equal; apply Hsame; reflexivity.
  - intros obj' g' H. unfold Game.resetPhysicsObject in H.
    destruct (PhysicsObject.type obj) eqn:Ety.
    + destruct (Game.getRandomSidewalkPosition g) as [[p g1] |] eqn:E;
        [| discriminate].
      injection H as <- <-. simpl.
      split; [symmetry; exact Hr |]. split; [symmetry; exact Hv |].
      split; [symmetry; exact Hw |]. split; [reflexivity |].
      intros _. split; [reflexivity |]. split; [| reflexivity].
      unfold Game.getRandomSidewalkPosition in E. simpl in E.
      destruct (Game.roadAt _ _); [| discriminate].
      destruct (_ >? 0.5); injection E as <- _; reflexivity.
    + injection H as <- <-. simpl.
      split; [symmetry; exact Hr |]. split; [symmetry; exact Hv |].
      split; [symmetry; exact Hw |]. split; [reflexivity | discriminate].
    + injection H as <- <-. simpl.
      split; [symmetry; exact Hr |]. split; [symmetry; exact Hv |].
      split; [symmetry; exact Hw |]. split; [reflexivity | discriminate].
    + injection H as <- <-. simpl.
      split; [symmetry; exact Hr |]. split; [symmetry; exact Hv |].
      split; [symmetry; exact Hw |]. split; [reflexivity | discriminate].
    + injection H as <- <-. simpl.
      split; [symmetry; exact Hr |]. split; [symmetry; exact Hv |].
      split; [symmetry; exact Hw |]. split; [reflexivity | discriminate].
Qed.

Lemma reset_of_untouched_prop_witness :
  (PhysicsObject.type Sample.benchAtOrigin <> trashCan ->
   Game.resetPhysicsObject Sample.openField Sample.benchAtOrigin
   = Some (Sample.benchAtOrigin, Sample.openField))
  /\ (forall obj' g',
        Game.resetPhysicsObject Sample.openField Sample.benchAtOrigin
        = Some (obj', g') ->
        PhysicsObject.rotation obj'
        = PhysicsObject.rotation Sample.benchAtOrigin
        /\ PhysicsObject.velocity obj'
           = PhysicsObject.velocity Sample.benchAtOrigin
        /\ PhysicsObject.angularVelocity obj'
           = PhysicsObject.angularVelocity Sample.benchAtOrigin
        /\ PhysicsObject.isKnockedOver obj' = false
        /\ (PhysicsObject.type Sample.benchAtOrigin = trashCan ->
            PhysicsObject.position obj' = PhysicsObject.originalPosition obj'
            /\ vy (PhysicsObject.position obj') = 1
            /\ Game.getRandomSidewalkPosition Sample.openField
               = Some (PhysicsObject.position obj', g'))).
Proof.
  apply (reset_of_untouched_prop Sample.openField Sample.benchAtOrigin).
  exact untouched_bench.
Defined.

(** ** Collision response (C3) *)

Lemma length_zero_iff v : THREE.length v = 0 <-> v = V3 0 0 0.
Proof.
  split.
  - intros H. unfold THREE.length in H.
    apply sqrt_eq_0 in H; [| apply lengthSq_nonneg].
    unfold lengthSq, dot in H. destruct v as [a b c]; simpl in H.
    assert (a = 0) by nra. assert (b = 0) by nra. assert (c = 0) by nra.
    subst; reflexivity.
  - intros ->. apply length_zero_vector.
Qed.

Lemma sub_zero_iff a b : sub a b = V3 0 0 0 <-> a = b.
Proof.
  destruct a as [a1 a2 a3], b as [b1 b2 b3]. unfold sub; simpl. split.
  - intros H; injection H as H1 H2 H3. f_equal; lra.
  - intros H; injection H as -> -> ->. f_equal; lra.
Qed.

(** Every collision [checkCollisions] reports carries a contact normal:
    the unit vector from the obstacle's position to the tested one. *)
Lemma checkCollisions_normal pos obstacles o opos n :
  Car.checkCollisions pos obstacles = Car.Collision o opos n ->
  n = Some (normalize (sub pos opos))
  /\ In o obstacles /\ Obstacle.position o = Some opos.
Proof.
  induction obstacles as [| o1 rest IH]; simpl; [discriminate |].
  destruct (Obstacle.position o1) as [p1 |] eqn:Ep.
  - destruct (Car.usesBoxCollision _).
    + destruct (Car.checkBoxCollision _ _ _).
      * intros H; injection H as <- <- <-. repeat split; auto.
      * intros H. destruct (IH H) as (a & b & c). repeat split; auto.
    + destruct (negb _).
      * destruct (_ <? _).
        -- intros H; injection H as <- <- <-. repeat split; auto.
        -- intros H. destruct (IH H) as (a & b & c). repeat split; auto.
      * intros H. destruct (IH H) as (a & b & c). repeat split; auto.
  - intros H. destruct (IH H) as (a & b & c). repeat split; auto.
Qed.

(** The response sets speed and direction from the impact, and picks the
    position: the last valid one if it is clear of the obstacle, else the
    point pushed away from the obstacle's position. *)
Lemma resolveCollision_result c o opos n :
  let c' := Car.resolveCollision c o opos (Some n) in
  Car.speed c' = Rabs (Car.speed c) * Car.bounceFactor
  /\ Car.direction c'
     = normalize (sub (Car.velocity c)
                      (multiplyScalar n (2 * dot (Car.velocity c) n)))
  /\ Car.position c'
     = if distanceTo (Car.lastValidPosition c) opos
          >? Car.boundingRadius + Obstacle.boundingRadius o
       then Car.lastValidPosition c
       else add opos
              (multiplyScalar (normalize (sub (Car.position c) opos))
                 (Car.boundingRadius + Obstacle.boundingRadius o + 0.1)).
Proof.
  unfold Car.resolveCollision. simpl.
  destruct (Rabs (Car.speed c) >? 10); simpl;
    destruct (distanceTo (Car.lastValidPosition c) opos >? _); simpl;
    match goal with
    | |- context [ if ?b then _ else _ ] => destruct b
    end; repeat split.
Qed.

Lemma sub_add_cancel' a b : sub (add a b) a = b.
Proof. destruct a, b; unfold add, sub; simpl; f_equal; ring. Qed.

Lemma pushed_distance opos v k :
  THREE.length v <> 0 ->
  distanceTo (add opos (multiplyScalar (normalize v) k)) opos = Rabs k.
Proof.
  intros Hv. unfold distanceTo. rewrite sub_add_cancel'.
  rewrite length_multiplyScalar, length_normalize by assumption. ring.
Qed.

Lemma beforeMove_straight h dt p v lv s rh cr coll dr ldt :
  Car.leftKey h = false -> Car.rightKey h = false ->
  let c := Sample.headingNorth p v lv s rh cr coll dr ldt in
  let s' := Car.speed (Car.applyThrottle h dt c) in
  Car.beforeMove h dt c
  = Sample.headingNorth p (V3 0 0 s') (if coll then lv else p) s' rh cr
      coll false ldt.
Proof.
  intros Hl Hr c s'. unfold Car.beforeMove.
  assert (E0 : Car.saveValidPosition c
               = Sample.headingNorth p v (if coll then lv else p) s rh cr
                   coll dr ldt).
  { unfold Car.saveValidPosition, c, Sample.headingNorth. simpl.
    destruct coll; reflexivity. }
  rewrite E0.
  set (c1 := Sample.headingNorth p v (if coll then lv else p) s rh cr
               coll dr ldt).
  assert (Es : Car.speed (Car.applyThrottle h dt c1) = s').
  { unfold s', c, c1, Sample.headingNorth, Car.applyThrottle. simpl.
    repeat match goal with
    | |- context [ if ?b then _ else _ ] => destruct b
    end; reflexivity. }
  rewrite (applyThrottle_grounded h dt c1) by reflexivity.
  rewrite Es.
  change (Car.set_speed c1 s')
    with (Sample.headingNorth p v (if coll then lv else p) s' rh cr
            coll dr ldt).
  rewrite steering_straight by assumption.
  unfold Car.updateDrift, Sample.headingNorth. simpl.
  unfold Car.set_velocity. simpl. f_equal. vec_eq.
Qed.

Lemma cruiser_coasts dt :
  0 <= dt -> dt <= 1 ->
  Car.speed (Car.applyThrottle Sample.noKeys dt Sample.cruiser) = 20 - 8 * dt.
Proof.
  intros H0 H1. unfold Car.applyThrottle, Sample.cruiser,
    Sample.headingNorth. simpl.
  cmp_true (20 >? 0). simpl. unfold Car.deceleration.
  rewrite Rmax_left by lra. reflexivity.
Qed.

(** A sphere obstacle on the very position of the car. *)
Definition obstacleUnderCar : Obstacle.t :=
  Sample.sphereObstacle (V3 0 0.5 0) 1.5.

Lemma cruiser_hits_obstacle_under_it :
  Car.collisionOf Sample.noKeys 0.016 [obstacleUnderCar] Sample.cruiser
  = Car.Collision obstacleUnderCar (V3 0 0.5 0) (Some (V3 0 0 1)).
Proof.
  unfold Car.collisionOf, Sample.cruiser.
  rewrite beforeMove_straight by reflexivity.
  fold Sample.cruiser. rewrite cruiser_coasts by lra.
  unfold Car.detectCollision, Car.newPositionOf, Sample.headingNorth. simpl.
  unfold distanceTo.
  replace (sub _ (V3 0 0.5 0)) with (V3 0 0 0.317952) by vec_eq.
  rewrite length_axis_z, Rabs_right by lra.
  unfold JsMath.eqb. destruct (Req_dec_T 1.5 0) as [E | _]; [lra |]. simpl.
  unfold Car.boundingRadius. cmp_true (0.317952 <? 1.8 + 1.5).
  rewrite normalize_axis_z_pos by lra. reflexivity.
Qed.

Lemma distanceTo_self p : distanceTo p p = 0.
Proof.
  unfold distanceTo. replace (sub p p) with (V3 0 0 0) by vec_eq.
  apply length_zero_vector.
Qed.

(** The push has no direction when the car is at the obstacle's position:
    the car is at the position of a sphere obstacle of radius 1.5 and
    drives on at speed 20; the collision is detected, with contact normal
    (0, 0, 1), and the response leaves the car at the obstacle's position,
    at distance 0 from it, while the two bounding radii add up to 3.3. *)
Lemma car_at_obstacle_position_is_not_pushed_out :
  Car.collisionOf Sample.noKeys 0.016 [obstacleUnderCar] Sample.cruiser
  = Car.Collision obstacleUnderCar (V3 0 0.5 0) (Some (V3 0 0 1))
  /\ distanceTo
       (Car.position
          (Car.move Sample.noKeys 0.016 [obstacleUnderCar] Sample.cruiser))
       (V3 0 0.5 0) = 0
  /\ Car.boundingRadius + Obstacle.boundingRadius obstacleUnderCar = 3.3.
Proof.
  split; [exact cruiser_hits_obstacle_under_it |].
  split; [| unfold Car.boundingRadius; simpl; lra].
  pose proof cruiser_hits_obstacle_under_it as Hc.
  unfold Car.collisionOf in Hc. unfold Car.move. rewrite Hc.
  match goal with
  | |- context [ Car.resolveCollision ?c ?o ?p (Some ?n) ] =>
      destruct (resolveCollision_result c o p n) as (_ & _ & ->)
  end.
  unfold Sample.cruiser. rewrite beforeMove_straight by reflexivity.
  unfold Sample.headingNorth. simpl.
  rewrite distanceTo_self.
  unfold Car.boundingRadius. cmp_false (0 >? 1.8 + 1.5).
  replace (sub (V3 0 0.5 0) (V3 0 0.5 0)) with (V3 0 0 0) by vec_eq.
  rewrite normalize_zero by apply length_zero_vector.
  unfold distanceTo.
  replace (sub _ (V3 0 0.5 0)) with (V3 0 0 0) by vec_eq.
  apply length_zero_vector.
Qed.

(** The collision response itself, that is [update] up to the airborne
    block that ends it.  When a collision is detected (every collision
    carries a contact normal n), then after the response, with v the
    velocity and s the speed at the impact:
    - the speed is |s| * bounceFactor, and bounceFactor is 0.3;
    - the direction is the normalized reflection v - 2 (v . n) n;
    - the position is at distance at least (car bounding radius +
      obstacle bounding radius) from the obstacle's position, provided the
      last valid position is clear of the obstacle or the car was not
      exactly at the obstacle's position.
    The airborne block that follows changes the height, and the speed at
    a landing. *)
Lemma collision_response
    (inputHandler : InputHandler.t) (deltaTime : R)
    (obstacles : list Obstacle.t) (c : Car.t)
    (o : Obstacle.t) (obstaclePosition n : Vector3) :
  Car.collisionOf inputHandler deltaTime obstacles c
  = Car.Collision o obstaclePosition (Some n) ->
  let atImpact := Car.beforeMove inputHandler deltaTime c in
  let after := Car.move inputHandler deltaTime obstacles c in
  let clearance := Car.boundingRadius + Obstacle.boundingRadius o in
  In o obstacles
  /\ Obstacle.position o = Some obstaclePosition
  /\ Car.colliding after = true
  /\ Car.speed after = Rabs (Car.speed atImpact) * Car.bounceFactor
  /\ Car.bounceFactor = 0.3
  /\ Car.direction after
     = normalize (sub (Car.velocity atImpact)
                      (multiplyScalar n (2 * dot (Car.velocity atImpact) n)))
  /\ (distanceTo (Car.lastValidPosition atImpact) obstaclePosition > clearance
      \/ Car.position atImpact <> obstaclePosition ->
      distanceTo (Car.position after) obstaclePosition >= clearance).
Proof.
  intros Hc atImpact after clearance.
  assert (Hin : In o obstacles /\ Obstacle.position o = Some obstaclePosition).
  { unfold Car.collisionOf, Car.detectCollision in Hc.
    destruct (_ && _).
    - clear - Hc.
      match type of Hc with
      | Car.sweep ?os ?st ?md ?sd ?i ?k = _ =>
          revert Hc; generalize i; generalize k
      end.
      intros k; induction k as [| k IH]; simpl; intros i Hc;
        [discriminate |].
      destruct (Car.checkCollisions _ _) eqn:E.
      + eapply IH; eassumption.
      + injection Hc as -> -> ->.
        apply checkCollisions_normal in E. tauto.
    - apply checkCollisions_normal in Hc. tauto. }
  destruct Hin as [Hin Hpos].
  split; [exact Hin |]. split; [exact Hpos |].
  unfold after, Car.move. unfold Car.collisionOf in Hc. rewrite Hc.
  fold atImpact.
  destruct (resolveCollision_result
              (Car.set_colliding atImpact
                 (Car.isColliding
                    (Car.Collision o obstaclePosition (Some n))))
              o obstaclePosition n) as (Hs & Hd & Hp).
  simpl in Hs, Hd, Hp.
  split.
  { unfold Car.resolveCollision. simpl.
    destruct (Rabs (Car.speed atImpact) >? 10); simpl;
      destruct (distanceTo (Car.lastValidPosition atImpact) _ >? _); simpl;
      match goal with
      | |- context [ if ?b then _ else _ ] => destruct b
      end; reflexivity. }
  split; [exact Hs |].
  split; [reflexivity |].
  split; [exact Hd |].
  intros Hok. simpl. rewrite Hp. fold clearance.
  destruct (distanceTo (Car.lastValidPosition atImpact) obstaclePosition
            >? clearance) eqn:E.
  - apply gtb_true in E. lra.
  - apply gtb_false in E.
    destruct Hok as [Hok | Hok]; [lra |].
    rewrite pushed_distance.
    + unfold Rabs. destruct (Rcase_abs (clearance + 0.1)); lra.
    + intros Hz. apply (proj1 (length_zero_iff _)) in Hz.
      apply (proj1 (sub_zero_iff _ _)) in Hz. apply Hok. exact Hz.
Qed.

(** The car drives at speed 20 head-on into a sphere obstacle of radius 1.5
    whose position is 5 ahead. *)
Definition obstacleAhead : Obstacle.t :=
  Sample.sphereObstacle (V3 0 0.5 5) 1.5.

Lemma cruiser_hits_obstacle_ahead :
  Car.collisionOf Sample.noKeys 0.1 [obstacleAhead] Sample.cruiser
  = Car.Collision obstacleAhead (V3 0 0.5 5) (Some (V3 0 0 (-1))).
Proof.
  unfold Car.collisionOf, Sample.cruiser.
  rewrite beforeMove_straight by reflexivity.
  fold Sample.cruiser. rewrite cruiser_coasts by lra.
  unfold Car.detectCollision, Car.newPositionOf, Sample.headingNorth. simpl.
  unfold distanceTo.
  replace (sub _ (V3 0 0.5 5)) with (V3 0 0 (-3.08)) by vec_eq.
  rewrite length_axis_z, Rabs_left by lra.
  unfold JsMath.eqb. destruct (Req_dec_T 1.5 0) as [E | _]; [lra |]. simpl.
  unfold Car.boundingRadius. cmp_true (- -3.08 <? 1.8 + 1.5).
  rewrite normalize_axis_z_neg by lra. reflexivity.
Qed.

Lemma collision_response_witness :
  let atImpact := Car.beforeMove Sample.noKeys 0.1 Sample.cruiser in
  let after := Car.move Sample.noKeys 0.1 [obstacleAhead] Sample.cruiser in
  let clearance :=
    Car.boundingRadius + Obstacle.boundingRadius obstacleAhead in
  In obstacleAhead [obstacleAhead]
  /\ Obstacle.position obstacleAhead = Some (V3 0 0.5 5)
  /\ Car.colliding after = true
  /\ Car.speed after = Rabs (Car.speed atImpact) * Car.bounceFactor
  /\ Car.bounceFactor = 0.3
  /\ Car.direction after
     = normalize (sub (Car.velocity atImpact)
                      (multiplyScalar (V3 0 0 (-1))
                         (2 * dot (Car.velocity atImpact) (V3 0 0 (-1)))))
  /\ (distanceTo (Car.lastValidPosition atImpact) (V3 0 0.5 5) > clearance
      \/ Car.position atImpact <> V3 0 0.5 5 ->
      distanceTo (Car.position after) (V3 0 0.5 5) >= clearance).
Proof.
  apply (collision_response Sample.noKeys 0.1 [obstacleAhead] Sample.cruiser
           obstacleAhead (V3 0 0.5 5) (V3 0 0 (-1))).
  exact cruiser_hits_obstacle_ahead.
Defined.

(** ** The speed limits (C2) *)

(** Forward speed at most [maxSpeed], reverse speed at most half of it. *)
Definition speedWithinLimits (c : Car.t) : Prop :=
  - Car.maxSpeed / 2 <= Car.speed c <= Car.maxSpeed.

Lemma limits_scaled v k :
  - Car.maxSpeed / 2 <= v <= Car.maxSpeed -> 0 <= k <= 1 ->
  - Car.maxSpeed / 2 <= v * k <= Car.maxSpeed.
Proof. unfold Car.maxSpeed. intros [H1 H2] [H3 H4]. split; nra. Qed.

Lemma applyThrottle_limits h dt c :
  0 <= dt -> speedWithinLimits c ->
  speedWithinLimits (Car.applyThrottle h dt c).
Proof.
  unfold speedWithinLimits, Car.applyThrottle.
  unfold Car.maxSpeed, Car.acceleration, Car.braking, Car.deceleration.
  intros Hdt [H1 H2].
  destruct (negb (Car.isAirborne c)).
  - destruct (Car.forwardKey h); simpl.
    { split; [apply Rmin_glb; lra | apply Rmin_r]. }
    destruct (Car.backKey h); simpl.
    { split; [apply Rmax_r | apply Rmax_lub; lra]. }
    destruct (Car.speed c >? 0) eqn:E1; simpl.
    { apply gtb_true in E1.
      split; [eapply Rle_trans; [| apply Rmax_r]; lra
             | apply Rmax_lub; lra]. }
    destruct (Car.speed c <? 0) eqn:E2; simpl.
    { apply ltb_true in E2.
      split; [apply Rmin_glb; lra
             | eapply Rle_trans; [apply Rmin_r |]; lra]. }
    split; assumption.
  - assert (Hs : - (40) / 2 <=
                 Car.speed
                   (if Car.speed c >? 0
                    then Car.set_speed c (Rmax (Car.speed c - 8 * 0.1 * dt) 0)
                    else if Car.speed c <? 0
                    then Car.set_speed c (Rmin (Car.speed c + 8 * 0.1 * dt) 0)
                    else c) <= 40).
    { destruct (Car.speed c >? 0) eqn:E1; simpl.
      { apply gtb_true in E1.
        split; [eapply Rle_trans; [| apply Rmax_r]; lra
               | apply Rmax_lub; nra]. }
      destruct (Car.speed c <? 0) eqn:E2; simpl.
      { apply ltb_true in E2.
        split; [apply Rmin_glb; nra
               | eapply Rle_trans; [apply Rmin_r |]; lra]. }
      split; assumption. }
    repeat match goal with
    | |- context [ if Car.leftKey h then _ else _ ] =>
        destruct (Car.leftKey h)
    | |- context [ if Car.rightKey h then _ else _ ] =>
        destruct (Car.rightKey h)
    | |- context [ if Car.forwardKey h then _ else _ ] =>
        destruct (Car.forwardKey h)
    | |- context [ if Car.backKey h then _ else _ ] =>
        destruct (Car.backKey h)
    end; simpl; exact Hs.
Qed.

Lemma saveValidPosition_speed c :
  Car.speed (Car.saveValidPosition c) = Car.speed c.
Proof. unfold Car.saveValidPosition. destruct (negb _); reflexivity. Qed.

Lemma applySteering_speed h dt c :
  Car.speed (fst (Car.applySteering h dt c)) = Car.speed c.
Proof. unfold Car.applySteering. destruct (_ && _); reflexivity. Qed.

Lemma updateDrift_speed dt ns t c :
  Car.speed (Car.updateDrift dt ns t c) = Car.speed c.
Proof.
  unfold Car.updateDrift. simpl.
  destruct (t && _ && _ && _); [| reflexivity].
  unfold Car.createDriftMarks. simpl. destruct (_ <? _); reflexivity.
Qed.

Lemma beforeMove_speed h dt c :
  Car.speed (Car.beforeMove h dt c)
  = Car.speed (Car.applyThrottle h dt (Car.saveValidPosition c)).
Proof.
  unfold Car.beforeMove.
  destruct (Car.applySteering h dt _) as [c1 t] eqn:E. simpl.
  rewrite updateDrift_speed.
  change c1 with (fst (c1, t)). rewrite <- E.
  apply applySteering_speed.
Qed.

Lemma beforeMove_limits h dt c :
  0 <= dt -> speedWithinLimits c -> speedWithinLimits (Car.beforeMove h dt c).
Proof.
  intros Hdt Hc. unfold speedWithinLimits. rewrite beforeMove_speed.
  apply applyThrottle_limits; [assumption |].
  unfold speedWithinLimits. rewrite saveValidPosition_speed. exact Hc.
Qed.

Lemma resolveCollision_limits c o opos n :
  speedWithinLimits c ->
  speedWithinLimits (Car.resolveCollision c o opos n).
Proof.
  unfold speedWithinLimits, Car.maxSpeed. intros [H1 H2].
  assert (Hs : Car.speed (Car.resolveCollision c o opos n)
               = match n with
                 | Some _ => Rabs (Car.speed c) * Car.bounceFactor
                 | None => 0
                 end).
  { unfold Car.resolveCollision. destruct n as [n |]; simpl.
    - destruct (Rabs (Car.speed c) >? 10); simpl;
        destruct (distanceTo (Car.lastValidPosition c) opos >? _); simpl;
        match goal with
        | |- context [ if ?b then _ else _ ] => destruct b
        end; reflexivity.
    - destruct (distanceTo (Car.lastValidPosition c) opos >? _); simpl;
        match goal with
        | |- context [ if ?b then _ else _ ] => destruct b
        end; reflexivity. }
  rewrite Hs. destruct n; [| lra].
  unfold Car.bounceFactor, Rabs. destruct (Rcase_abs (Car.speed c)); lra.
Qed.

Lemma move_limits h dt obstacles c :
  0 <= dt -> speedWithinLimits c ->
  speedWithinLimits (Car.move h dt obstacles c).
Proof.
  intros Hdt Hc. unfold Car.move.
  pose proof (beforeMove_limits h dt c Hdt Hc) as Hb.
  destruct (Car.detectCollision _ _ _).
  - exact Hb.
  - apply resolveCollision_limits. exact Hb.
Qed.

Lemma updateVertical_limits dt c :
  speedWithinLimits c -> speedWithinLimits (Car.updateVertical dt c).
Proof.
  unfold speedWithinLimits, Car.updateVertical. intros Hc.
  destruct (Car.isAirborne c).
  - simpl. destruct (_ <=? 0.5); simpl; [| exact Hc].
    apply limits_scaled; [exact Hc | lra].
  - destruct (negb (Car.onRamp c)); simpl; exact Hc.
Qed.

(** [Car.update] never takes the speed out of the limits. *)
Lemma Car_update_limits h dt obstacles c :
  0 <= dt -> speedWithinLimits c ->
  speedWithinLimits (Car.update h dt obstacles c).
Proof.
  intros Hdt Hc. unfold Car.update.
  apply updateVertical_limits, move_limits; assumption.
Qed.

(** A tick on the empty field of the sample city, the car driving
    straight and staying inside the playable rectangle. *)
Lemma straight_tick rotateBy ih dt p v lv s rh cr coll dr ldt sc b rnd :
  Car.leftKey ih = false -> Car.rightKey ih = false ->
  let c := Sample.headingNorth p v lv s rh cr coll dr ldt in
  let s' := Car.speed (Car.applyThrottle ih dt c) in
  let b' := boostAfter dt b in
  Rabs (vx p) <= 85 -> Rabs (vz p + s' * dt) <= 85 ->
  Game.update rotateBy ih dt (Game.mk c Sample.city sc [] [] [] [] b rnd)
  = Some
      (Game.mk
         (Sample.headingNorth (V3 (vx p) 0.5 (vz p + s' * dt)) (V3 0 0 s')
            (if coll then lv else p)
            (if Boost.currentMultiplier b' >? 1.01
             then s' * Boost.currentMultiplier b' else s')
            0 None false false ldt)
         Sample.city sc [] [] [] [] b' rnd).
Proof.
  intros Hl Hr c s' b' Hx Hz.
  pose proof (carPhase_straight ih dt p v lv s rh cr coll dr ldt sc [] []
                b rnd Hl Hr Hx Hz) as E.
  fold c s' b' in E.
  rewrite update_no_props by (rewrite E; reflexivity).
  rewrite E. reflexivity.
Qed.

(** Three ticks of half a second from the start on the empty field: two
    with the forward key and the boost held, then one with every key
    released. *)
Definition boostHeld : Game.t := Game.keydownSpace Sample.openField.

Definition boostTick1 : Game.t :=
  Game.mk
    (Sample.headingNorth (V3 0 0.5 6.25) (V3 0 0 12.5) (V3 0 0.5 0) 22.5
       0 None false false 0)
    Sample.city 0 [] [] [] [] (Boost.mk 85 100 10 30 true 1.8 1.8 2.0)
    (fun _ => 0).

Definition boostTick2 : Game.t :=
  Game.mk
    (Sample.headingNorth (V3 0 0.5 23.75) (V3 0 0 35) (V3 0 0.5 6.25) 63
       0 None false false 0)
    Sample.city 0 [] [] [] [] (Boost.mk 70 100 10 30 true 1.8 1.8 2.0)
    (fun _ => 0).

Definition boostReleased : Game.t := Game.keyupSpace boostTick2.

Definition coastTick : Game.t :=
  Game.mk
    (Sample.headingNorth (V3 0 0.5 53.25) (V3 0 0 59) (V3 0 0.5 23.75) 59
       0 None false false 0)
    Sample.city 0 [] [] [] [] (Boost.mk 75 100 10 30 false 1.8 1 2.0)
    (fun _ => 0).

Lemma throttle_forward ih dt p v lv s rh cr coll dr ldt :
  Car.forwardKey ih = true ->
  Car.speed
    (Car.applyThrottle ih dt (Sample.headingNorth p v lv s rh cr coll dr ldt))
  = Rmin (s + 25 * dt) 40.
Proof.
  intros Hf. unfold Car.applyThrottle, Sample.headingNorth. simpl.
  rewrite Hf. reflexivity.
Qed.

Lemma throttle_coast dt p v lv s rh cr coll dr ldt :
  0 < s ->
  Car.speed
    (Car.applyThrottle Sample.noKeys dt
       (Sample.headingNorth p v lv s rh cr coll dr ldt))
  = Rmax (s - 8 * dt) 0.
Proof.
  intros Hs. unfold Car.applyThrottle, Sample.headingNorth. simpl.
  cmp_true (s >? 0). reflexivity.
Qed.

(** Equality of records whose fields are equal real numbers. *)
Ltac fields_eq :=
  first [ reflexivity | lra | progress f_equal; fields_eq ].

Lemma boostTick1_eq :
  Game.update Sample.addAngles (Sample.keysDown ["ArrowUp"%string]) 0.5
    boostHeld = Some boostTick1.
Proof.
  unfold boostHeld, Sample.openField, Sample.game, Game.keydownSpace,
    Game.setupSpeedBoost. simpl.
  cmp_true (100 >? 0). unfold Game.set_boost, Boost.set_active. simpl.
  change Car.new
    with (Sample.headingNorth (V3 0 0.5 0) (V3 0 0 0) (V3 0 0.5 0) 0 0 None
            false false 0).
  assert (Es : Car.speed
                 (Car.applyThrottle (Sample.keysDown ["ArrowUp"%string]) 0.5
                    (Sample.headingNorth (V3 0 0.5 0) (V3 0 0 0) (V3 0 0.5 0)
                       0 0 None false false 0)) = 12.5).
  { rewrite throttle_forward by reflexivity. rewrite Rmin_left; lra. }
  rewrite straight_tick; try reflexivity.
  - rewrite Es. unfold boostTick1, boostAfter. simpl.
    cmp_true (100 >? 0). simpl. rewrite Rmax_right by lra.
    cmp_true (100 - 30 * 0.5 >? 0).
    cmp_true (1.0 + (1.8 - 1.0) * 2.0 * 0.5 >? 1.01).
    unfold Boost.set_currentMultiplier, Boost.set_available,
      Sample.headingNorth. simpl.
    fields_eq.
  - simpl. rewrite Rabs_R0. lra.
  - rewrite Es. simpl. rewrite Rabs_right; lra.
Qed.

Lemma boostTick2_eq :
  Game.update Sample.addAngles (Sample.keysDown ["ArrowUp"%string]) 0.5
    boostTick1 = Some boostTick2.
Proof.
  unfold boostTick1.
  assert (Es : Car.speed
                 (Car.applyThrottle (Sample.keysDown ["ArrowUp"%string]) 0.5
                    (Sample.headingNorth (V3 0 0.5 6.25) (V3 0 0 12.5)
                       (V3 0 0.5 0) 22.5 0 None false false 0)) = 35).
  { rewrite throttle_forward by reflexivity. rewrite Rmin_left; lra. }
  rewrite straight_tick; try reflexivity.
  - rewrite Es. unfold boostTick2, boostAfter. simpl.
    cmp_true (85 >? 0). simpl. rewrite Rmax_right by lra.
    cmp_true (85 - 30 * 0.5 >? 0).
    cmp_true (1.8 + (1.8 - 1.8) * 2.0 * 0.5 >? 1.01).
    unfold Boost.set_currentMultiplier, Boost.set_available,
      Sample.headingNorth. simpl.
    fields_eq.
  - simpl. rewrite Rabs_R0. lra.
  - rewrite Es. simpl. rewrite Rabs_right; lra.
Qed.

Lemma coastTick_eq :
  Game.update Sample.addAngles Sample.noKeys 0.5 boostReleased
  = Some coastTick.
Proof.
  unfold boostReleased, boostTick2, Game.keyupSpace, Game.set_boost,
    Boost.set_active. simpl.
  assert (Es : Car.speed
                 (Car.applyThrottle Sample.noKeys 0.5
                    (Sample.headingNorth (V3 0 0.5 23.75) (V3 0 0 35)
                       (V3 0 0.5 6.25) 63 0 None false false 0)) = 59).
  { rewrite throttle_coast by lra. rewrite Rmax_left; lra. }
  rewrite straight_tick; try reflexivity.
  - rewrite Es. unfold coastTick, boostAfter. simpl.
    rewrite Rmin_right by lra.
    cmp_false (1.8 + (1.0 - 1.8) * 2.0 * 0.5 >? 1.01).
    unfold Boost.set_currentMultiplier, Boost.set_available,
      Sample.headingNorth. simpl.
    fields_eq.
  - simpl. rewrite Rabs_R0. lra.
  - rewrite Es. simpl. rewrite Rabs_right; lra.
Qed.

(** The multiplier block does nothing while the multiplier is at most
    1.01. *)
Lemma applyBoost_idle dt g :
  Boost.currentMultiplier (Game.boost g) <= 1.01 -> Game.applyBoost dt g = g.
Proof.
  intros H. unfold Game.applyBoost.
  cmp_false (Boost.currentMultiplier (Game.boost g) >? 1.01). reflexivity.
Qed.

Lemma driveCar_limits ih dt g :
  0 <= dt -> speedWithinLimits (Game.car g) ->
  Boost.currentMultiplier (boostAfter dt (Game.boost g)) <= 1.01 ->
  speedWithinLimits (Game.car (Game.driveCar ih dt g)).
Proof.
  intros Hdt Hc Hb. rewrite driveCar_unfold.
  rewrite applyBoost_idle by exact Hb. simpl.
  apply Car_update_limits; assumption.
Qed.

(** The boundary block scales the speed by 0.4 or 0.5, or leaves it. *)
Lemma enforceBoundary_limits g :
  speedWithinLimits (Game.car g) ->
  speedWithinLimits (Game.car (fst (Game.enforceBoundary g))).
Proof.
  intros Hc. unfold Game.enforceBoundary.
  destruct (_ || _); [| exact Hc].
  destruct (_ <? 0); simpl.
  - destruct (_ && _); simpl; apply limits_scaled; solve [exact Hc | lra].
  - apply limits_scaled; [exact Hc | lra].
Qed.

Lemma checkRampInteractions_speed g :
  Forall (fun ramp =>
            Game.onFootprint (Car.getPosition (Game.car g)) ramp = false)
         (Game.ramps g) ->
  Car.speed (Game.car (Game.checkRampInteractions g)) = Car.speed (Game.car g).
Proof.
  intros Hall. unfold Game.checkRampInteractions.
  rewrite scanRamps_no_match by assumption. simpl.
  destruct (negb (Car.isAirborne (Game.car g))); reflexivity.
Qed.

Lemma carPhase_limits ih dt g :
  0 <= dt -> speedWithinLimits (Game.car g) ->
  Boost.currentMultiplier (boostAfter dt (Game.boost g)) <= 1.01 ->
  Forall (fun ramp =>
            Game.onFootprint
              (Car.position
                 (Car.update ih dt (Game.obstacles g) (Game.car g)))
              ramp = false)
         (Game.ramps g) ->
  speedWithinLimits (Game.car (carPhase ih dt g)).
Proof.
  intros Hdt Hc Hb Hall. unfold carPhase, speedWithinLimits.
  rewrite checkRampInteractions_speed.
  - apply enforceBoundary_limits, driveCar_limits; assumption.
  - unfold Car.getPosition. rewrite enforceBoundary_position.
    assert (Er : Game.ramps (fst (Game.enforceBoundary
                                    (Game.driveCar ih dt g)))
                 = Game.ramps g).
    { destruct (enforceBoundary_only (Game.driveCar ih dt g))
        as (c1 & b1 & ->).
      destruct (driveCar_only ih dt g) as (c0 & b0 & ->). reflexivity. }
    rewrite Er, driveCar_unfold, applyBoost_position. simpl. exact Hall.
Qed.

Lemma knockOver_speed carPosition carDirection carSpeed impactForce g obj :
  Game.car
    (snd (Game.knockOver carPosition carDirection carSpeed impactForce g obj))
  = Car.set_speed (Game.car g)
      (Car.speed (Game.car g)
       * (1 - Rmin 0.8 (PhysicsObject.mass obj / 100))).
Proof.
  unfold Game.knockOver; simpl.
  destruct (PhysicsObject.type obj); reflexivity.
Qed.

Section PropSpeed.

Variable rotateBy : Euler -> Euler -> Euler.

(** A prop the car knocks over takes a share of at most 0.8 of the speed,
    its mass in hundredths. *)
Lemma updatePhysicsObject_limits dt carPosition carDirection carSpeed g obj
      obj' g' :
  0 <= PhysicsObject.mass obj ->
  speedWithinLimits (Game.car g) ->
  Game.updatePhysicsObject rotateBy dt carPosition carDirection carSpeed g obj
  = Some (obj', g') ->
  speedWithinLimits (Game.car g').
Proof.
  intros Hm Hc. unfold Game.updatePhysicsObject.
  destruct (negb (PhysicsObject.isKnockedOver obj)).
  - destruct (Game.hitByCar _ _ _); [destruct (_ >? _) |];
      intros H; try (injection H as _ <-; exact Hc).
    injection H as H.
    apply (f_equal snd) in H. simpl in H. rewrite <- H.
    rewrite knockOver_speed. unfold speedWithinLimits. simpl.
    apply limits_scaled; [exact Hc |].
    assert (0 <= PhysicsObject.mass obj / 100) by lra.
    unfold Rmin. destruct (Rle_dec _ _); lra.
  - intros H. apply simulateKnockedOver_step in H. destruct H as [k ->].
    exact Hc.
Qed.

Lemma updatePhysicsObjectsLoop_limits dt carPosition carDirection carSpeed
      objs :
  forall g objs' g',
  Forall (fun obj => 0 <= PhysicsObject.mass obj) objs ->
  speedWithinLimits (Game.car g) ->
  Game.updatePhysicsObjectsLoop rotateBy dt carPosition carDirection carSpeed
    g objs = Some (objs', g') ->
  speedWithinLimits (Game.car g').
Proof.
  induction objs as [| obj rest IH]; simpl; intros g objs' g' Hall Hc H.
  - injection H as _ <-. exact Hc.
  - inversion Hall as [| ? ? Hm Hrest]; subst.
    destruct (Game.updatePhysicsObject _ _ _ _ _ _ _) as [[o1 g1] |] eqn:E1;
      [| discriminate].
    destruct (Game.updatePhysicsObjectsLoop _ _ _ _ _ _ _) as [[r1 g2] |]
      eqn:E2; [| discriminate].
    injection H as _ <-.
    eapply IH; [exact Hrest | | exact E2].
    eapply updatePhysicsObject_limits; eassumption.
Qed.

Lemma updatePhysicsObjects_limits dt g g' :
  Forall (fun obj => 0 <= PhysicsObject.mass obj) (Game.physicsObjects g) ->
  speedWithinLimits (Game.car g) ->
  Game.updatePhysicsObjects rotateBy dt g = Some g' ->
  speedWithinLimits (Game.car g').
Proof.
  intros Hall Hc. unfold Game.updatePhysicsObjects.
  destruct (Game.updatePhysicsObjectsLoop _ _ _ _ _ _ _) as [[o1 g1] |] eqn:E;
    [| discriminate].
  intros H; injection H as <-. simpl.
  eapply updatePhysicsObjectsLoop_limits; eassumption.
Qed.

(** C2 (amended): a tick that starts with the speed in the closed interval
    from [- maxSpeed / 2] to [maxSpeed] keeps it there, right after the
    throttle/brake block of [Car.update], at the end of [Car.update]
    (a collision bounce included) and at the end of the tick, provided the
    boost multiplier is not applied in this tick (it is at most 1.01 after
    smoothing), the car is on no ramp or launchpad, and no prop has a
    negative mass.  On the ground the forward key clamps the speed at
    [maxSpeed] and the reverse key at [- maxSpeed / 2]. *)
Theorem speed_limits_kept_without_boost ih dt g g' :
  0 <= dt ->
  speedWithinLimits (Game.car g) ->
  Boost.currentMultiplier (boostAfter dt (Game.boost g)) <= 1.01 ->
  Forall (fun ramp =>
            Game.onFootprint
              (Car.position
                 (Car.update ih dt (Game.obstacles g) (Game.car g)))
              ramp = false)
         (Game.ramps g) ->
  Forall (fun obj => 0 <= PhysicsObject.mass obj) (Game.physicsObjects g) ->
  Game.update rotateBy ih dt g = Some g' ->
  speedWithinLimits
    (Car.applyThrottle ih dt (Car.saveValidPosition (Game.car g)))
  /\ speedWithinLimits (Car.update ih dt (Game.obstacles g) (Game.car g))
  /\ speedWithinLimits (Game.car g')
  /\ (Car.isAirborne (Game.car g) = false -> Car.forwardKey ih = true ->
      Car.speed
        (Car.applyThrottle ih dt (Car.saveValidPosition (Game.car g)))
      = Rmin (Car.speed (Game.car g) + Car.acceleration * dt) Car.maxSpeed)
  /\ (Car.isAirborne (Game.car g) = false -> Car.forwardKey ih = false ->
      Car.backKey ih = true ->
      Car.speed
        (Car.applyThrottle ih dt (Car.saveValidPosition (Game.car g)))
      = Rmax (Car.speed (Game.car g) - Car.braking * dt)
             (- Car.maxSpeed / 2)).
Proof.
  intros Hdt Hc Hb Hramps Hprops H.
  assert (Hsave : speedWithinLimits (Car.saveValidPosition (Game.car g))).
  { unfold speedWithinLimits. rewrite saveValidPosition_speed. exact Hc. }
  split; [apply applyThrottle_limits; assumption |].
  split; [apply Car_update_limits; assumption |].
  split.
  - apply update_unfold in H. destruct H as (g1 & E1 & E2).
    apply updateHumans_car in E2. destruct E2 as (-> & _).
    eapply updatePhysicsObjects_limits; [| | exact E1].
    + destruct (carPhase_only ih dt g) as (c & b & ->). exact Hprops.
    + apply carPhase_limits; assumption.
  - assert (Ha : forall c, Car.isAirborne (Car.saveValidPosition c)
                           = Car.isAirborne c).
    { intros c. unfold Car.saveValidPosition.
      destruct (negb _); reflexivity. }
    split.
    + intros Hg Hf. unfold Car.applyThrottle.
      rewrite Ha, Hg, Hf. simpl. rewrite saveValidPosition_speed.
      reflexivity.
    + intros Hg Hf Hk. unfold Car.applyThrottle.
      rewrite Ha, Hg, Hf, Hk. simpl. rewrite saveValidPosition_speed.
      reflexivity.
Qed.

End PropSpeed.

(** The car of [Sample.cruiser] on the empty field, and the game after
    half a second with the forward key held. *)
Definition cruiserGame : Game.t := Sample.game Sample.cruiser [] [] [] [].

Definition cruiserAfter : Game.t :=
  Game.mk
    (Sample.headingNorth (V3 0 0.5 16.25) (V3 0 0 32.5) (V3 0 0.5 0) 32.5
       0 None false false 0)
    Sample.city 0 [] [] [] [] Game.setupSpeedBoost (fun _ => 0).

Lemma cruiserTick_eq :
  Game.update Sample.addAngles (Sample.keysDown ["ArrowUp"%string]) 0.5
    cruiserGame = Some cruiserAfter.
Proof.
  unfold cruiserGame, Sample.game, Sample.cruiser.
  assert (Es : Car.speed
                 (Car.applyThrottle (Sample.keysDown ["ArrowUp"%string]) 0.5
                    (Sample.headingNorth (V3 0 0.5 0) (V3 0 0 20)
                       (V3 0 0.5 0) 20 0 None false false 0)) = 32.5).
  { rewrite throttle_forward by reflexivity. rewrite Rmin_left; lra. }
  rewrite straight_tick; try reflexivity.
  - rewrite Es. rewrite boostAfter_idle by lra. unfold cruiserAfter.
    unfold Game.setupSpeedBoost at 1 2. simpl.
    cmp_false (1.0 >? 1.01).
    unfold Sample.headingNorth. fields_eq.
  - simpl. rewrite Rabs_R0. lra.
  - rewrite Es. simpl. rewrite Rabs_right; lra.
Qed.

Lemma speed_limits_kept_without_boost_witness :
  speedWithinLimits (Game.car cruiserGame)
  /\ speedWithinLimits (Game.car cruiserAfter).
Proof.
  assert (Hc : speedWithinLimits (Game.car cruiserGame)).
  { unfold speedWithinLimits, Car.maxSpeed; simpl; lra. }
  split; [exact Hc |].
  refine (proj1 (proj2 (proj2
    (speed_limits_kept_without_boost Sample.addAngles
       (Sample.keysDown ["ArrowUp"%string]) 0.5 cruiserGame cruiserAfter
       _ Hc _ _ _ cruiserTick_eq)))).
  - lra.
  - change (Game.boost cruiserGame) with Game.setupSpeedBoost.
    rewrite boostAfter_idle by lra.
    unfold Game.setupSpeedBoost; simpl; lra.
  - constructor.
  - constructor.
Defined.

Lemma sweep_nothing start moveDir stepDistance remaining :
  forall i,
  Car.sweep [] start moveDir stepDistance i remaining = Car.NoCollision.
Proof.
  induction remaining as [| k IH]; intros i; simpl; [reflexivity | apply IH].
Qed.

(** Without obstacles there is no collision. *)
Lemma detectCollision_nothing h dt c :
  Car.collisionOf h dt [] c = Car.NoCollision.
Proof.
  unfold Car.collisionOf, Car.detectCollision.
  destruct (_ && _); [apply sweep_nothing | reflexivity].
Qed.

(** C2 as written fails on the tick after a boost.  From the start on the
    empty field, two ticks of half a second with the forward key and the
    boost held take the speed to 63; the boost is then released.  In the
    third tick no key is held, the multiplier falls to 1 and is not
    applied, there is no obstacle and the car stays inside the playable
    rectangle, and yet the speed is 59 right after the throttle/brake block
    and at the end of the tick, above [maxSpeed] = 40: without a key the
    block subtracts [deceleration * deltaTime] and clamps at 0 only. *)
Lemma speed_above_maxSpeed_after_boost_released :
  Game.update Sample.addAngles (Sample.keysDown ["ArrowUp"%string]) 0.5
    boostHeld = Some boostTick1
  /\ Game.update Sample.addAngles (Sample.keysDown ["ArrowUp"%string]) 0.5
       boostTick1 = Some boostTick2
  /\ Game.update Sample.addAngles Sample.noKeys 0.5 boostReleased
     = Some coastTick
  /\ Boost.active (Game.boost boostReleased) = false
  /\ Boost.currentMultiplier (boostAfter 0.5 (Game.boost boostReleased)) = 1
  /\ Game.applyBoost 0.5
       (Game.set_boost boostReleased
          (boostAfter 0.5 (Game.boost boostReleased)))
     = Game.set_boost boostReleased
         (boostAfter 0.5 (Game.boost boostReleased))
  /\ Car.collisionOf Sample.noKeys 0.5 (Game.obstacles boostReleased)
       (Game.car boostReleased) = Car.NoCollision
  /\ Rabs (vx (Car.position (Game.car coastTick))) <= Game.halfSize coastTick - 10
  /\ Rabs (vz (Car.position (Game.car coastTick))) <= Game.halfSize coastTick - 10
  /\ Car.speed
       (Car.applyThrottle Sample.noKeys 0.5
          (Car.saveValidPosition (Game.car boostReleased))) = 59
  /\ Car.speed (Game.car coastTick) = 59
  /\ ~ speedWithinLimits
         (Car.applyThrottle Sample.noKeys 0.5
            (Car.saveValidPosition (Game.car boostReleased)))
  /\ ~ speedWithinLimits (Game.car coastTick).
Proof.
  assert (Em : Boost.currentMultiplier
                 (boostAfter 0.5 (Game.boost boostReleased)) = 1).
  { unfold boostAfter; simpl. lra. }
  assert (Es : Car.speed
                 (Car.applyThrottle Sample.noKeys 0.5
                    (Car.saveValidPosition (Game.car boostReleased))) = 59).
  { unfold Car.saveValidPosition; simpl.
    unfold Car.set_lastValidPosition; simpl.
    change (Car.speed
              (Car.applyThrottle Sample.noKeys 0.5
                 (Sample.headingNorth (V3 0 0.5 23.75) (V3 0 0 35)
                    (V3 0 0.5 23.75) 63 0 None false false 0)) = 59).
    rewrite throttle_coast by lra. rewrite Rmax_left; lra. }
  split; [exact boostTick1_eq |]. split; [exact boostTick2_eq |].
  split; [exact coastTick_eq |]. split; [reflexivity |].
  split; [exact Em |].
  split.
  { apply applyBoost_idle.
    change (Boost.currentMultiplier
              (boostAfter 0.5 (Game.boost boostReleased)) <= 1.01).
    rewrite Em; lra. }
  split; [apply detectCollision_nothing |].
  assert (Eh : Game.halfSize coastTick = 95).
  { unfold Game.halfSize; simpl. lra. }
  rewrite Eh.
  split; [simpl; rewrite Rabs_R0; lra |].
  split; [simpl; rewrite Rabs_right; lra |].
  split; [exact Es |]. split; [reflexivity |].
  unfold speedWithinLimits, Car.maxSpeed. rewrite Es. simpl.
  split; lra.
Qed.

(** Why the amended C2 asks for a car on no ramp: a launchpad as [City]
    builds them (radius 6, height 0.3, jump strength 14) under a grounded
    car that reverses at 20, the limit, takes the speed below the limit. *)
Lemma launchpad_speeds_up_reversing_car :
  let c := Sample.headingNorth (V3 0 0.5 0) (V3 0 0 (-20)) (V3 0 0.5 0)
             (-20) 0 None false false 0 in
  speedWithinLimits c
  /\ Car.speed
       (Game.rideLaunchpad (Car.getPosition c) (Car.getSpeed c) 6 0.3 14 0 c)
     = -21.42.
Proof.
  simpl. split; [unfold speedWithinLimits, Car.maxSpeed; simpl; lra |].
  unfold Game.rideLaunchpad, Car.getSpeed, Sample.headingNorth. simpl.
  rewrite Rabs_left by lra.
  cmp_true (- -20 >? 10). simpl. cmp_true (- -20 >? 5). simpl.
  cmp_false (- -20 >? 30). simpl. lra.
Qed.

(** ** A tick that scores (C10) *)

(** A pedestrian as [createHuman] builds them, standing one unit east of
    the origin. *)
Definition bystander : Human.t :=
  Human.set_position Sample.walker (V3 1 0 0).

(** The car drives at speed 20 past a trash can and the pedestrian. *)
Definition runOverGame : Game.t :=
  Sample.game Sample.cruiser [] [] [Sample.trashCanAtOrigin] [bystander].

Lemma length_lt v l :
  0 < l -> lengthSq v < l * l -> THREE.length v < l.
Proof.
  intros Hl H. unfold THREE.length.
  rewrite <- (sqrt_square l) by lra.
  apply sqrt_lt_1_alt. split; [apply lengthSq_nonneg | exact H].
Qed.

Lemma runOverGame_carPhase :
  carPhase Sample.noKeys 0.016 runOverGame
  = Game.mk
      (Sample.headingNorth (V3 0 0.5 0.317952) (V3 0 0 19.872)
         (V3 0 0.5 0) 19.872 0 None false false 0)
      Sample.city 0 [] [] [Sample.trashCanAtOrigin] [bystander]
      Game.setupSpeedBoost (fun _ => 0).
Proof.
  unfold runOverGame, Sample.game, Sample.cruiser.
  rewrite carPhase_straight; try reflexivity.
  - fold Sample.cruiser. rewrite cruiser_coasts by lra.
    rewrite boostAfter_idle by lra.
    unfold Game.setupSpeedBoost. simpl. cmp_false (1.0 >? 1.01).
    f_equal. unfold Sample.headingNorth. f_equal; vec_eq.
  - simpl. rewrite Rabs_R0. lra.
  - fold Sample.cruiser. rewrite cruiser_coasts by lra. simpl.
    rewrite Rabs_right; lra.
Qed.

Lemma runOverGame_props :
  exists can rnd,
    Game.updatePhysicsObjects Sample.addAngles 0.016
      (carPhase Sample.noKeys 0.016 runOverGame)
    = Some (Game.mk
              (Sample.headingNorth (V3 0 0.5 0.317952) (V3 0 0 19.872)
                 (V3 0 0.5 0) (19.872 * (1 - 0.2)) 0 None false false 0)
              Sample.city (0 + 50) [] [] [can] [bystander]
              Game.setupSpeedBoost rnd).
Proof.
  rewrite runOverGame_carPhase.
  unfold Game.updatePhysicsObjects. simpl.
  unfold Game.updatePhysicsObject. simpl.
  unfold Game.hitByCar. simpl.
  assert (Hd : distanceTo (V3 0 0.5 0.317952) (V3 0 1 0) < 1.8 + 0.8).
  { unfold distanceTo. apply length_lt; [lra |].
    unfold lengthSq, dot, sub. simpl. lra. }
  unfold Car.getBoundingRadius, Car.boundingRadius, Car.getSpeed. simpl.
  rewrite (Rabs_right 19.872) by lra.
  apply ltb_true in Hd. rewrite Hd. simpl.
  cmp_true (19.872 * 0.5 >? 3).
  unfold Game.knockOver. simpl.
  replace (Rmin 0.8 (20 / 100)) with 0.2 by (rewrite Rmin_right; lra).
  eexists. eexists. reflexivity.
Qed.

Lemma runOverGame_tick :
  exists g',
    Game.update Sample.addAngles Sample.noKeys 0.016 runOverGame = Some g'
    /\ Game.score g' = 150
    /\ exists human', Game.humans g' = [human']
                      /\ Human.isDead human' = true.
Proof.
  unfold Game.update. fold (carPhase Sample.noKeys 0.016 runOverGame).
  destruct runOverGame_props as (can & rnd & E). rewrite E. simpl.
  unfold Game.updateHumans. simpl.
  match goal with
  | |- context [ Game.updateHuman ?dt ?p ?r ?s ?g ?h ] =>
      destruct (updateHuman_kill dt p r s g h) as (human' & Ek & _ & Hd)
  end.
  - reflexivity.
  - simpl. unfold setY. simpl. unfold distanceTo.
    unfold Car.getBoundingRadius, Car.boundingRadius.
    apply length_lt; [lra |]. unfold lengthSq, dot, sub. simpl. lra.
  - unfold Car.getSpeed. simpl. rewrite Rabs_right; lra.
  - rewrite Ek. simpl. eexists. split; [reflexivity |].
    split; [simpl; lra |]. exists human'. split; [reflexivity | exact Hd].
Qed.

Lemma score_never_decreases_witness :
  Game.score runOverGame = 0
  /\ exists g',
       Game.update Sample.addAngles Sample.noKeys 0.016 runOverGame = Some g'
       /\ Game.score g' = 150
       /\ Game.score runOverGame <= Game.score g'
       /\ scoreGrows runOverGame g'
       /\ Forall (fun h => Human.pointValue h = 100) (Game.humans g').
Proof.
  split; [reflexivity |].
  destruct runOverGame_tick as (g' & Hu & Hs & _).
  exists g'. split; [exact Hu |]. split; [exact Hs |].
  apply (score_never_decreases Sample.addAngles Sample.noKeys 0.016
           runOverGame g').
  - repeat constructor.
  - exact Hu.
Defined.

(** * Further properties of the code *)

(** ** The keyboard state ([InputHandler]) *)

Lemma dispatch_other h e key :
  InputHandler.keyOf e <> key ->
  InputHandler.isKeyDown (InputHandler.dispatch h e) key
  = InputHandler.isKeyDown h key.
Proof.
  intros Hk. destruct e as [k | k]; simpl in *;
    unfold InputHandler.onKeyDown, InputHandler.onKeyUp, InputHandler.assign;
    destruct (String.eqb k "__proto__"%string); try reflexivity;
    unfold InputHandler.isKeyDown; simpl;
    destruct (String.eqb_spec key k); congruence.
Qed.

Lemma dispatch_proto h e key :
  InputHandler.keyOf e = "__proto__"%string ->
  InputHandler.isKeyDown (InputHandler.dispatch h e) key
  = InputHandler.isKeyDown h key.
Proof.
  intros Hk. destruct e as [k | k]; simpl in *; subst k; reflexivity.
Qed.

Lemma dispatch_same h e :
  InputHandler.keyOf e <> "__proto__"%string ->
  InputHandler.isKeyDown (InputHandler.dispatch h e) (InputHandler.keyOf e)
  = match e with
    | InputHandler.keydown _ => true
    | InputHandler.keyup _ => false
    end.
Proof.
  intros Hk. destruct e as [k | k]; simpl in *;
    unfold InputHandler.onKeyDown, InputHandler.onKeyUp, InputHandler.assign;
    destruct (String.eqb_spec k "__proto__"%string); try contradiction;
    unfold InputHandler.isKeyDown; simpl; rewrite String.eqb_refl;
    reflexivity.
Qed.

(** A key is held after a sequence of events when the sequence has a
    [keydown] of it with no later event of the same key. *)
Definition lastIsKeydown (events : list InputHandler.KeyboardEvent)
    (key : string) : Prop :=
  exists before after,
    events = (before ++ InputHandler.keydown key :: after)%list
    /\ Forall (fun e => InputHandler.keyOf e <> key) after.

Lemma lastIsKeydown_nil key : ~ lastIsKeydown [] key.
Proof. intros (b & a & H & _). destruct b; discriminate. Qed.

Lemma lastIsKeydown_snoc events e key :
  lastIsKeydown (events ++ [e])%list key
  <-> e = InputHandler.keydown key
      \/ (InputHandler.keyOf e <> key /\ lastIsKeydown events key).
Proof.
  split.
  - intros (b & a & H & Ha).
    destruct a as [| x a' _] using rev_ind.
    + apply app_inj_tail in H. left. apply H.
    + right.
      change (b ++ InputHandler.keydown key :: a' ++ [x])%list
        with (b ++ (InputHandler.keydown key :: a') ++ [x])%list in H.
      rewrite app_assoc in H. apply app_inj_tail in H.
      destruct H as [He ->].
      apply Forall_app in Ha. destruct Ha as [Ha Hx].
      split; [inversion Hx; assumption |].
      exists b, a'. split; assumption.
  - intros [-> | (Hk & b & a & -> & Ha)].
    + exists events, []. split; [reflexivity | constructor].
    + exists b, (a ++ [e])%list. split.
      * rewrite <- app_assoc. reflexivity.
      * apply Forall_app. split; [assumption |].
        constructor; [assumption | constructor].
Qed.

(** X1: after any sequence of [keydown] and [keyup] events delivered to a
    new handler, a key reads as down exactly when the sequence has a
    [keydown] of it with no later event of that key; except for the key
    ["__proto__"], which never reads as down: the assignment
    [this.keys["__proto__"] = true] creates no property of the table. *)
Theorem key_is_down_iff_its_last_event_is_keydown events key :
  let h := fold_left InputHandler.dispatch events InputHandler.new in
  (InputHandler.isKeyDown h key = true
   <-> key <> "__proto__"%string /\ lastIsKeydown events key)
  /\ InputHandler.isKeyDown h "__proto__"%string = false.
Proof.
  assert (H : forall k,
            InputHandler.isKeyDown
              (fold_left InputHandler.dispatch events InputHandler.new) k
            = true
            <-> k <> "__proto__"%string /\ lastIsKeydown events k).
  { intros k. induction events as [| e es IH] using rev_ind.
    - simpl. split; [discriminate |].
      intros [_ Hl]. destruct (lastIsKeydown_nil _ Hl).
    - rewrite fold_left_app. simpl. rewrite lastIsKeydown_snoc.
      destruct (string_dec (InputHandler.keyOf e) k) as [Ek | Ek].
      + destruct (string_dec k "__proto__"%string) as [Ep | Ep].
        * rewrite dispatch_proto by congruence.
          rewrite IH. tauto.
        * subst k. rewrite dispatch_same by assumption.
          destruct e as [k | k]; simpl.
          -- split; [intros _; split; [assumption | left; reflexivity] |].
             reflexivity.
          -- split; [discriminate |].
             intros [_ [He | [Hk _]]]; [discriminate | contradiction].
      + rewrite dispatch_other by assumption. rewrite IH.
        split.
        * intros [Hp Hl]. split; [assumption | right; split; assumption].
        * intros [Hp [He | [_ Hl]]]; [| split; assumption].
          subst e. simpl in Ek. contradiction. }
  intros h. split; [apply H |].
  apply not_true_is_false. intros Ht. apply H in Ht.
  destruct Ht as [Hp _]. apply Hp. reflexivity.
Qed.

(** X2: [getDirectionalInput] returns -1, 0 or 1 on each axis, and of two
    opposite keys held together the one tested later wins: back over
    forward, right over left.  [Car.update] reads the same keys the other
    way round: with forward and back both held, a car on the ground
    accelerates forward. *)
Theorem directional_input_later_key_wins h :
  let d := InputHandler.getDirectionalInput h in
  (InputHandler.dix d = -1 \/ InputHandler.dix d = 0 \/ InputHandler.dix d = 1)
  /\ (InputHandler.diz d = -1 \/ InputHandler.diz d = 0
      \/ InputHandler.diz d = 1)
  /\ (Car.backKey h = true -> InputHandler.diz d = -1)
  /\ (Car.backKey h = false -> Car.forwardKey h = true ->
      InputHandler.diz d = 1)
  /\ (Car.rightKey h = true -> InputHandler.dix d = 1)
  /\ (Car.rightKey h = false -> Car.leftKey h = true ->
      InputHandler.dix d = -1)
  /\ (forall dt c,
        Car.isAirborne c = false ->
        Car.forwardKey h = true -> Car.backKey h = true ->
        InputHandler.diz d = -1
        /\ Car.speed (Car.applyThrottle h dt c)
           = Rmin (Car.speed c + Car.acceleration * dt) Car.maxSpeed).
Proof.
  intros d.
  assert (Hlast : forall dt c,
            Car.isAirborne c = false ->
            Car.forwardKey h = true -> Car.backKey h = true ->
            InputHandler.diz d = -1
            /\ Car.speed (Car.applyThrottle h dt c)
               = Rmin (Car.speed c + Car.acceleration * dt) Car.maxSpeed).
  { intros dt c Ha Hf Hb. split.
    - unfold d, InputHandler.getDirectionalInput. simpl.
      unfold Car.backKey in Hb. rewrite Hb. reflexivity.
    - unfold Car.applyThrottle. rewrite Ha, Hf. reflexivity. }
  repeat (split; [| try exact Hlast]); clear Hlast;
    unfold d, InputHandler.getDirectionalInput, Car.backKey, Car.forwardKey,
      Car.rightKey, Car.leftKey; simpl;
    destruct (InputHandler.isKeyDown h "ArrowUp"
              || InputHandler.isKeyDown h "w");
    destruct (InputHandler.isKeyDown h "ArrowDown"
              || InputHandler.isKeyDown h "s");
    destruct (InputHandler.isKeyDown h "ArrowLeft"
              || InputHandler.isKeyDown h "a");
    destruct (InputHandler.isKeyDown h "ArrowRight"
              || InputHandler.isKeyDown h "d");
    simpl; intros; try discriminate; try reflexivity; auto.
Qed.

(** ** The car between collisions *)

(** X3: with neither throttle key held, or in the air, the car slows down
    without ever reversing: the speed moves toward 0 and stops there. *)
Theorem coasting_never_reverses h dt c :
  0 <= dt ->
  Car.isAirborne c = true
  \/ (Car.forwardKey h = false /\ Car.backKey h = false) ->
  let s' := Car.speed (Car.applyThrottle h dt c) in
  (0 <= Car.speed c -> 0 <= s' <= Car.speed c)
  /\ (Car.speed c <= 0 -> Car.speed c <= s' <= 0).
Proof.
  intros Hdt Hk.
  assert (Hcoast : forall k, 0 <= k ->
    let s' := Car.speed
                (if Car.speed c >? 0
                 then Car.set_speed c (Rmax (Car.speed c - k * dt) 0)
                 else if Car.speed c <? 0
                 then Car.set_speed c (Rmin (Car.speed c + k * dt) 0)
                 else c) in
    (0 <= Car.speed c -> 0 <= s' <= Car.speed c)
    /\ (Car.speed c <= 0 -> Car.speed c <= s' <= 0)).
  { intros k Hk0.
    assert (0 <= k * dt) by (apply Rmult_le_pos; assumption).
    destruct (Car.speed c >? 0) eqn:E1; simpl.
    - apply gtb_true in E1. split; intros Hs; [| lra].
      split; [apply Rmax_r | apply Rmax_lub; lra].
    - apply gtb_false in E1.
      destruct (Car.speed c <? 0) eqn:E2; simpl.
      + apply ltb_true in E2. split; intros Hs; [lra |].
        split; [apply Rmin_glb; lra | apply Rmin_r].
      + apply ltb_false in E2. split; intros Hs; lra. }
  unfold Car.applyThrottle.
  destruct (Car.isAirborne c) eqn:Ea; simpl.
  - pose proof (Hcoast (Car.deceleration * 0.1)) as Hc.
    assert (0 <= Car.deceleration * 0.1)
      by (unfold Car.deceleration; lra).
    specialize (Hc H). simpl in Hc.
    repeat match goal with
    | |- context [ if Car.leftKey h then _ else _ ] =>
        destruct (Car.leftKey h)
    | |- context [ if Car.rightKey h then _ else _ ] =>
        destruct (Car.rightKey h)
    | |- context [ if Car.forwardKey h then _ else _ ] =>
        destruct (Car.forwardKey h)
    | |- context [ if Car.backKey h then _ else _ ] =>
        destruct (Car.backKey h)
    end; simpl; exact Hc.
  - destruct Hk as [Hk | [Hf Hb]]; [discriminate |].
    rewrite Hf, Hb.
    apply (Hcoast Car.deceleration). unfold Car.deceleration; lra.
Qed.

Lemma coasting_never_reverses_witness :
  let s' := Car.speed (Car.applyThrottle Sample.noKeys 0.5 Sample.cruiser) in
  (0 <= Car.speed Sample.cruiser -> 0 <= s' <= Car.speed Sample.cruiser)
  /\ (Car.speed Sample.cruiser <= 0 -> Car.speed Sample.cruiser <= s' <= 0).
Proof.
  apply (coasting_never_reverses Sample.noKeys 0.5 Sample.cruiser).
  - lra.
  - right. split; reflexivity.
Defined.

(** *** The steering wheel *)

Lemma applyThrottle_currentTurnAmount h dt c :
  Car.currentTurnAmount (Car.applyThrottle h dt c) = Car.currentTurnAmount c.
Proof.
  unfold Car.applyThrottle.
  repeat match goal with
  | |- context [ if ?b then _ else _ ] => destruct b
  end; reflexivity.
Qed.

Lemma saveValidPosition_currentTurnAmount c :
  Car.currentTurnAmount (Car.saveValidPosition c) = Car.currentTurnAmount c.
Proof. unfold Car.saveValidPosition. destruct (negb _); reflexivity. Qed.

Lemma updateDrift_currentTurnAmount dt ns t c :
  Car.currentTurnAmount (Car.updateDrift dt ns t c) = Car.currentTurnAmount c.
Proof.
  unfold Car.updateDrift. simpl.
  destruct (t && _ && _ && _); [| reflexivity].
  unfold Car.createDriftMarks. simpl. destruct (_ <? _); reflexivity.
Qed.

Lemma resolveCollision_currentTurnAmount c o opos n :
  Car.currentTurnAmount (Car.resolveCollision c o opos n)
  = Car.currentTurnAmount c.
Proof.
  unfold Car.resolveCollision.
  repeat match goal with
  | |- context [ if ?b then _ else _ ] => destruct b
  | |- context [ match ?x with Some _ => _ | None => _ end ] => destruct x
  end; reflexivity.
Qed.

Lemma updateVertical_currentTurnAmount dt c :
  Car.currentTurnAmount (Car.updateVertical dt c) = Car.currentTurnAmount c.
Proof.
  unfold Car.updateVertical.
  repeat match goal with
  | |- context [ if ?b then _ else _ ] => destruct b
  end; reflexivity.
Qed.

Lemma applySteering_turn_bounds h dt c :
  -1 <= Car.currentTurnAmount c <= 1 ->
  -1 <= Car.currentTurnAmount (fst (Car.applySteering h dt c)) <= 1.
Proof.
  unfold Car.applySteering, Car.turnInertia. intros [H1 H2].
  destruct (_ && _); simpl.
  - destruct (Car.leftKey h); [| destruct (Car.rightKey h)]; lra.
  - lra.
Qed.

(** X4: [update] keeps the steering amount [currentTurnAmount] between -1
    and 1: it moves 15% of the way toward the held direction, or decays, and
    nothing else in [update] assigns it. *)
Theorem turn_amount_stays_within_unit h dt obstacles c :
  -1 <= Car.currentTurnAmount c <= 1 ->
  -1 <= Car.currentTurnAmount (Car.update h dt obstacles c) <= 1.
Proof.
  intros Hc. unfold Car.update. rewrite updateVertical_currentTurnAmount.
  assert (Hb : -1 <= Car.currentTurnAmount (Car.beforeMove h dt c) <= 1).
  { unfold Car.beforeMove.
    destruct (Car.applySteering h dt _) as [c1 t] eqn:E. simpl.
    rewrite updateDrift_currentTurnAmount.
    change c1 with (fst (c1, t)). rewrite <- E.
    apply applySteering_turn_bounds.
    rewrite applyThrottle_currentTurnAmount,
      saveValidPosition_currentTurnAmount. exact Hc. }
  unfold Car.move.
  destruct (Car.detectCollision _ _ _); simpl.
  - exact Hb.
  - rewrite resolveCollision_currentTurnAmount. exact Hb.
Qed.

Lemma turn_amount_stays_within_unit_witness :
  -1 <= Car.currentTurnAmount
          (Car.update (Sample.keysDown ["ArrowLeft"%string]) 0.016 []
             Sample.cruiser) <= 1.
Proof.
  apply turn_amount_stays_within_unit. simpl. lra.
Defined.

(** *** Height *)

Lemma resolveCollision_onRamp c o opos n :
  Car.onRamp (Car.resolveCollision c o opos n) = Car.onRamp c.
Proof.
  unfold Car.resolveCollision.
  repeat match goal with
  | |- context [ if ?b then _ else _ ] => destruct b
  | |- context [ match ?x with Some _ => _ | None => _ end ] => destruct x
  end; reflexivity.
Qed.

Lemma beforeMove_onRamp h dt c :
  Car.onRamp (Car.beforeMove h dt c) = Car.onRamp c.
Proof.
  unfold Car.beforeMove.
  destruct (Car.applySteering h dt _) as [c1 t] eqn:E. simpl.
  assert (E1 : Car.onRamp c1 = Car.onRamp c).
  { change c1 with (fst (c1, t)). rewrite <- E.
    unfold Car.applySteering. destruct (_ && _); simpl.
    - unfold Car.applyThrottle, Car.saveValidPosition.
      repeat match goal with
      | |- context [ if ?b then _ else _ ] => destruct b
      end; reflexivity.
    - unfold Car.applyThrottle, Car.saveValidPosition.
      repeat match goal with
      | |- context [ if ?b then _ else _ ] => destruct b
      end; reflexivity. }
  unfold Car.updateDrift. simpl.
  destruct (t && _ && _ && _); [| exact E1].
  unfold Car.createDriftMarks. simpl. destruct (_ <? _); exact E1.
Qed.

Lemma move_onRamp h dt obstacles c :
  Car.onRamp (Car.move h dt obstacles c) = Car.onRamp c.
Proof.
  unfold Car.move. destruct (Car.detectCollision _ _ _); simpl.
  - apply beforeMove_onRamp.
  - rewrite resolveCollision_onRamp. apply beforeMove_onRamp.
Qed.

(** X5: [update] never leaves the car in the air at or below the ground
    height 0.5: a car that comes down to it lands.  A car that is neither
    in the air nor on a ramp is at height 0.5 exactly. *)
Theorem car_is_never_below_ground h dt obstacles c :
  let c' := Car.update h dt obstacles c in
  (Car.isAirborne c' = true -> 0.5 < vy (Car.position c'))
  /\ (Car.isAirborne c' = false -> Car.onRamp c = false ->
      vy (Car.position c') = 0.5).
Proof.
  intros c'. unfold c', Car.update.
  pose proof (move_onRamp h dt obstacles c) as Hr.
  destruct (Car.move h dt obstacles c) as
    [p r d v s a vv onr rh cr cta lv col dr ldt].
  simpl in Hr. subst onr.
  unfold Car.updateVertical. simpl.
  destruct a; simpl.
  - destruct (_ <=? 0.5) eqn:E; simpl.
    + split; [discriminate | reflexivity].
    + apply leb_false in E. split; [intros _; exact E | discriminate].
  - destruct (Car.onRamp c); simpl.
    + split; discriminate.
    + split; [discriminate | reflexivity].
Qed.

(** ** The collision tests of the car *)

(** *** [lineIntersectsBox] *)

Lemma orSmall_nonzero d : Car.orSmall d <> 0.
Proof. unfold Car.orSmall. destruct (Req_dec_T d 0); lra. Qed.

(** One pair of faces: the parameters [t] for which the coordinate
    [s + t * d] lies between [lo] and [hi]. *)
Lemma slab_iff lo hi s d t :
  d <> 0 -> lo <= hi ->
  (Rmin ((lo - s) / d) ((hi - s) / d) <= t
   /\ t <= Rmax ((lo - s) / d) ((hi - s) / d))
  <-> lo <= s + t * d <= hi.
Proof.
  intros Hd Hlh.
  set (a := (lo - s) / d). set (b := (hi - s) / d).
  assert (Ha : a * d = lo - s) by (unfold a; field; exact Hd).
  assert (Hb : b * d = hi - s) by (unfold b; field; exact Hd).
  destruct (Rlt_dec 0 d) as [Hpos | Hneg].
  - assert (a <= b) by nra.
    rewrite Rmin_left, Rmax_right by assumption.
    split; intros [H1 H2]; split; nra.
  - assert (d < 0) by lra. assert (b <= a) by nra.
    rewrite Rmin_right, Rmax_left by assumption.
    split; intros [H1 H2]; split; nra.
Qed.

(** The point at parameter [t] of the line the test works with lies in
    the box: on each axis the direction component, or 0.00001 in its place
    when it is 0. *)
Definition inBoxAt (start direction : Vector3) (box : Car.Box) (t : R)
  : Prop :=
  vx (Car.bmin box) <= vx start + t * Car.orSmall (vx direction)
    <= vx (Car.bmax box)
  /\ vy (Car.bmin box) <= vy start + t * Car.orSmall (vy direction)
       <= vy (Car.bmax box)
  /\ vz (Car.bmin box) <= vz start + t * Car.orSmall (vz direction)
       <= vz (Car.bmax box).

Definition wellFormed (box : Car.Box) : Prop :=
  vx (Car.bmin box) <= vx (Car.bmax box)
  /\ vy (Car.bmin box) <= vy (Car.bmax box)
  /\ vz (Car.bmin box) <= vz (Car.bmax box).

Lemma lineIntersectsBox_iff start end_ box :
  wellFormed box ->
  Car.lineIntersectsBox start end_ box = true
  <-> exists t,
        0 <= t <= THREE.length (sub end_ start)
        /\ inBoxAt start (normalize (sub end_ start)) box t.
Proof.
  intros (Wx & Wy & Wz). unfold Car.lineIntersectsBox, inBoxAt.
  set (dir := normalize (sub end_ start)).
  set (L := THREE.length (sub end_ start)).
  assert (HL : 0 <= L) by apply length_nonneg.
  pose proof (fun t => slab_iff (vx (Car.bmin box)) (vx (Car.bmax box))
                         (vx start) (Car.orSmall (vx dir)) t
                         (orSmall_nonzero _) Wx) as Sx.
  pose proof (fun t => slab_iff (vy (Car.bmin box)) (vy (Car.bmax box))
                         (vy start) (Car.orSmall (vy dir)) t
                         (orSmall_nonzero _) Wy) as Sy.
  pose proof (fun t => slab_iff (vz (Car.bmin box)) (vz (Car.bmax box))
                         (vz start) (Car.orSmall (vz dir)) t
                         (orSmall_nonzero _) Wz) as Sz.
  revert Sx Sy Sz.
  generalize ((vx (Car.bmin box) - vx start) / Car.orSmall (vx dir)),
    ((vx (Car.bmax box) - vx start) / Car.orSmall (vx dir)),
    ((vy (Car.bmin box) - vy start) / Car.orSmall (vy dir)),
    ((vy (Car.bmax box) - vy start) / Car.orSmall (vy dir)),
    ((vz (Car.bmin box) - vz start) / Car.orSmall (vz dir)),
    ((vz (Car.bmax box) - vz start) / Car.orSmall (vz dir)).
  intros x1 x2 y1 y2 z1 z2 Sx Sy Sz.
  set (lo2 := Rmax (Rmin x1 x2) (Rmin y1 y2)).
  set (hi2 := Rmin (Rmax x1 x2) (Rmax y1 y2)).
  set (lo3 := Rmax lo2 (Rmin z1 z2)).
  set (hi3 := Rmin hi2 (Rmax z1 z2)).
  assert (Hlo2 : Rmin x1 x2 <= lo2 /\ Rmin y1 y2 <= lo2)
    by (split; [apply Rmax_l | apply Rmax_r]).
  assert (Hhi2 : hi2 <= Rmax x1 x2 /\ hi2 <= Rmax y1 y2)
    by (split; [apply Rmin_l | apply Rmin_r]).
  assert (Hlo3 : lo2 <= lo3 /\ Rmin z1 z2 <= lo3)
    by (split; [apply Rmax_l | apply Rmax_r]).
  assert (Hhi3 : hi3 <= hi2 /\ hi3 <= Rmax z1 z2)
    by (split; [apply Rmin_l | apply Rmin_r]).
  split.
  - intros H.
    destruct (hi2 <? 0) eqn:E1; [discriminate |].
    destruct (lo2 >? hi2) eqn:E2; [discriminate |].
    destruct (lo2 >? L) eqn:E3; [discriminate |].
    simpl in H.
    destruct (hi3 <? 0) eqn:E4; [discriminate |].
    destruct (lo3 >? hi3) eqn:E5; [discriminate |].
    destruct (lo3 >? L) eqn:E6; [discriminate |].
    apply ltb_false in E4. apply gtb_false in E5, E6.
    exists (Rmax lo3 0).
    assert (Ht1 : lo3 <= Rmax lo3 0) by apply Rmax_l.
    assert (Ht2 : 0 <= Rmax lo3 0) by apply Rmax_r.
    assert (Ht3 : Rmax lo3 0 <= hi3) by (apply Rmax_lub; lra).
    assert (Ht4 : Rmax lo3 0 <= L) by (apply Rmax_lub; lra).
    split; [lra |].
    split; [apply Sx; lra |]. split; [apply Sy; lra | apply Sz; lra].
  - intros (t & [Ht0 HtL] & Hx & Hy & Hz).
    apply Sx in Hx. apply Sy in Hy. apply Sz in Hz.
    assert (Hl2 : lo2 <= t) by (apply Rmax_lub; lra).
    assert (Hh2 : t <= hi2) by (apply Rmin_glb; lra).
    assert (Hl3 : lo3 <= t) by (apply Rmax_lub; lra).
    assert (Hh3 : t <= hi3) by (apply Rmin_glb; lra).
    cmp_false (hi2 <? 0). cmp_false (lo2 >? hi2). cmp_false (lo2 >? L).
    simpl.
    cmp_false (hi3 <? 0). cmp_false (lo3 >? hi3). cmp_false (lo3 >? L).
    reflexivity.
Qed.

(** The box of the car around [pos]. *)
Definition carBox (pos : Vector3) : Car.Box :=
  {| Car.bmin := V3 (vx pos - Car.boundingRadius)
                    (vy pos - Car.boundingRadius)
                    (vz pos - Car.boundingRadius);
     Car.bmax := V3 (vx pos + Car.boundingRadius)
                    (vy pos + Car.boundingRadius)
                    (vz pos + Car.boundingRadius) |}.

Lemma carBox_wellFormed pos : wellFormed (carBox pos).
Proof. unfold wellFormed, carBox, Car.boundingRadius; simpl. lra. Qed.

(** X6: [lineIntersectsBox] is the slab test, exactly: it answers true if
    and only if some point of the segment, at a distance [t] from [start]
    between 0 and the length of the segment, lies in the box, where the
    point is taken along the normalized direction with every zero
    component replaced by 0.00001. *)
Theorem line_box_test_is_the_slab_test start end_ box :
  wellFormed box ->
  Car.lineIntersectsBox start end_ box = true
  <-> exists t,
        0 <= t <= THREE.length (sub end_ start)
        /\ inBoxAt start (normalize (sub end_ start)) box t.
Proof. apply lineIntersectsBox_iff. Qed.

Lemma line_box_test_is_the_slab_test_witness :
  Car.lineIntersectsBox (V3 (-5) 0.5 0) (V3 5 0.5 0) (carBox (V3 0 0.5 0))
  = true
  <-> exists t,
        0 <= t <= THREE.length (sub (V3 5 0.5 0) (V3 (-5) 0.5 0))
        /\ inBoxAt (V3 (-5) 0.5 0)
             (normalize (sub (V3 5 0.5 0) (V3 (-5) 0.5 0)))
             (carBox (V3 0 0.5 0)) t.
Proof.
  apply line_box_test_is_the_slab_test. apply carBox_wellFormed.
Defined.

(** *** [checkBoxCollision] *)

Lemma normalize_level v : vy v = 0 -> vy (normalize v) = 0.
Proof.
  intros H. unfold normalize.
  destruct (Req_dec_T (THREE.length v) 0); simpl; [exact H |].
  rewrite H. unfold Rdiv. apply Rmult_0_l.
Qed.

(** A level segment above the box misses it. *)
Lemma lineIntersectsBox_above start end_ box :
  wellFormed box -> vy start = vy end_ ->
  vy (Car.bmax box) < vy start ->
  Car.lineIntersectsBox start end_ box = false.
Proof.
  intros W Hy Habove.
  destruct (Car.lineIntersectsBox start end_ box) eqn:E; [| reflexivity].
  apply (lineIntersectsBox_iff _ _ _ W) in E.
  destruct E as (t & [Ht _] & _ & [_ H] & _). exfalso.
  rewrite normalize_level in H by (unfold sub; simpl; lra).
  unfold Car.orSmall in H.
  destruct (Req_dec_T 0 0) as [_ | Hne]; [| lra].
  nra.
Qed.

(** The last test of [checkBoxCollision]: the car's position, turned back
    by the rotation of the obstacle, lies inside the rectangle of the
    obstacle. *)
Definition insideFootprint (pos opos : Vector3) (width depth rotation : R)
  : bool :=
  let relativePos := sub pos opos in
  let rotatedX := vx relativePos * cos (- rotation)
                  + vz relativePos * sin (- rotation) in
  let rotatedZ := - vx relativePos * sin (- rotation)
                  + vz relativePos * cos (- rotation) in
  (Rabs rotatedX <? width / 2) && (Rabs rotatedZ <? depth / 2).

Lemma checkBoxCollision_inside pos o opos m g p :
  Obstacle.mesh o = Some m -> Mesh.geometry m = Some g ->
  Mesh.parameters g = Some p ->
  insideFootprint pos opos (Mesh.width p) (Mesh.depth p) (Mesh.rotation_y m)
  = true ->
  Car.checkBoxCollision pos o opos = true.
Proof.
  intros Hm Hg Hp Hin. unfold Car.checkBoxCollision.
  rewrite Hm, Hg, Hp.
  repeat match goal with
  | |- (if Car.lineIntersectsBox ?a ?b ?c then true else _) = true =>
      destruct (Car.lineIntersectsBox a b c); [reflexivity |]
  end.
  exact Hin.
Qed.

Lemma checkBoxCollision_above pos o opos m g p :
  Obstacle.mesh o = Some m -> Mesh.geometry m = Some g ->
  Mesh.parameters g = Some p ->
  vy pos + Car.boundingRadius < vy opos ->
  Car.checkBoxCollision pos o opos
  = insideFootprint pos opos (Mesh.width p) (Mesh.depth p)
      (Mesh.rotation_y m).
Proof.
  intros Hm Hg Hp Habove. unfold Car.checkBoxCollision.
  rewrite Hm, Hg, Hp. fold (carBox pos).
  repeat rewrite lineIntersectsBox_above;
    try apply carBox_wellFormed; try (simpl; lra).
  reflexivity.
Qed.

(** X7: a box obstacle (building, boundary wall) whose position lies
    higher than the top of the car's box, as that of every wall
    [createBoundary] builds does for a car on the ground, is hit exactly
    when the centre of the car is inside the obstacle's rectangle: the
    edge tests never fire, and the bounding radius of the car plays no
    part.  At any height, a car whose centre is inside the rectangle is
    hit. *)
Theorem box_obstacle_hit_by_centre pos o opos m g p :
  Obstacle.mesh o = Some m -> Mesh.geometry m = Some g ->
  Mesh.parameters g = Some p ->
  let inside :=
    insideFootprint pos opos (Mesh.width p) (Mesh.depth p)
      (Mesh.rotation_y m) in
  (inside = true -> Car.checkBoxCollision pos o opos = true)
  /\ (vy pos + Car.boundingRadius < vy opos ->
      Car.checkBoxCollision pos o opos = inside).
Proof.
  intros Hm Hg Hp inside. split.
  - apply (checkBoxCollision_inside pos o opos m g p); assumption.
  - apply (checkBoxCollision_above pos o opos m g p); assumption.
Qed.

(** The invisible east wall of the city of the constructor. *)
Definition eastWall : Obstacle.t :=
  City.invisibleWall
    {| City.wallWidth := 10; City.wallDepth := 230;
       City.wallX := 110; City.wallZ := 0 |}.

Lemma box_obstacle_hit_by_centre_witness :
  Car.checkBoxCollision (V3 0 0.5 0) eastWall (V3 110 500 0)
  = insideFootprint (V3 0 0.5 0) (V3 110 500 0) 10 230 0.
Proof.
  refine (proj2 (box_obstacle_hit_by_centre (V3 0 0.5 0) eastWall
                   (V3 110 500 0) (City.boxMesh 10 230)
                   {| Mesh.parameters :=
                        Some {| Mesh.width := 10; Mesh.depth := 230 |} |}
                   {| Mesh.width := 10; Mesh.depth := 230 |}
                   eq_refl eq_refl eq_refl) _).
  unfold Car.boundingRadius; simpl; lra.
Defined.

(** *** [checkCollisions] *)

(** The test [checkCollisions] applies to one obstacle. *)
Definition overlaps (pos : Vector3) (o : Obstacle.t) : bool :=
  match Obstacle.position o with
  | None => false
  | Some opos =>
    if Car.usesBoxCollision (Obstacle.type o)
    then Car.checkBoxCollision pos o opos
    else negb (JsMath.eqb (Obstacle.boundingRadius o) 0)
         && (distanceTo pos opos
             <? Car.boundingRadius + Obstacle.boundingRadius o)
  end.

Lemma checkCollisions_cons pos o1 rest :
  Car.checkCollisions pos (o1 :: rest)
  = if overlaps pos o1
    then match Obstacle.position o1 with
         | Some opos =>
             Car.Collision o1 opos (Some (normalize (sub pos opos)))
         | None => Car.NoCollision
         end
    else Car.checkCollisions pos rest.
Proof.
  simpl. unfold overlaps.
  destruct (Obstacle.position o1) as [p1 |]; [| reflexivity].
  destruct (Car.usesBoxCollision _).
  - destruct (Car.checkBoxCollision _ _ _); reflexivity.
  - destruct (negb _); simpl; [| reflexivity].
    destruct (_ <? _); reflexivity.
Qed.

Lemma overlaps_position pos o :
  overlaps pos o = true -> exists opos, Obstacle.position o = Some opos.
Proof.
  unfold overlaps. destruct (Obstacle.position o) as [p |];
    [eauto | discriminate].
Qed.

Lemma checkCollisions_spec pos obstacles :
  (Car.checkCollisions pos obstacles = Car.NoCollision
   <-> forall o, In o obstacles -> overlaps pos o = false)
  /\ (forall o opos n,
        Car.checkCollisions pos obstacles = Car.Collision o opos n ->
        Obstacle.position o = Some opos
        /\ n = Some (normalize (sub pos opos))
        /\ overlaps pos o = true
        /\ exists before after,
             obstacles = before ++ o :: after
             /\ forall b, In b before -> overlaps pos b = false).
Proof.
  induction obstacles as [| o1 rest [IHn IHc]].
  - split.
    + split; [intros _ o [] | reflexivity].
    + intros o opos n H. discriminate.
  - rewrite checkCollisions_cons.
    destruct (overlaps pos o1) eqn:E1.
    + destruct (overlaps_position _ _ E1) as [p1 Ep]. rewrite Ep. split.
      * split; [discriminate |].
        intros H. rewrite (H o1 (or_introl eq_refl)) in E1. discriminate.
      * intros o opos n H. injection H as <- <- <-.
        split; [exact Ep |]. split; [reflexivity |]. split; [exact E1 |].
        exists [], rest. split; [reflexivity | intros b []].
    + split.
      * rewrite IHn. split.
        -- intros H o [<- | Hin]; auto.
        -- intros H o Hin. apply H. right. exact Hin.
      * intros o opos n H.
        destruct (IHc o opos n H) as (Hp & Hn & Ho & before & after & -> & Hb).
        split; [exact Hp |]. split; [exact Hn |]. split; [exact Ho |].
        exists (o1 :: before), after. split; [reflexivity |].
        intros b [<- | Hin]; auto.
Qed.

(** X8: [checkCollisions] reports the first obstacle of the array that
    the car overlaps (box test for buildings, skyscrapers, boundaries and
    stadiums; spheres for the others, where an obstacle without position
    or with bounding radius 0 is never hit), with its own position and the
    normalized vector from it to the car as the normal; it reports no
    collision exactly when the car overlaps no obstacle of the array. *)
Theorem collision_check_reports_first_overlap pos obstacles :
  (Car.checkCollisions pos obstacles = Car.NoCollision
   <-> forall o, In o obstacles -> overlaps pos o = false)
  /\ (forall o opos n,
        Car.checkCollisions pos obstacles = Car.Collision o opos n ->
        Obstacle.position o = Some opos
        /\ n = Some (normalize (sub pos opos))
        /\ overlaps pos o = true
        /\ exists before after,
             obstacles = before ++ o :: after
             /\ forall b, In b before -> overlaps pos b = false).
Proof. apply checkCollisions_spec. Qed.

(** *** Free motion *)

(** Destructs every test of the goal; for the frame facts of [update]. *)
Ltac by_cases :=
  repeat match goal with
  | |- context [ if ?b then _ else _ ] => destruct b
  | |- context [ match ?x with Some _ => _ | None => _ end ] => destruct x
  end; try reflexivity.

Lemma beforeMove_position h dt c :
  Car.position (Car.beforeMove h dt c) = Car.position c.
Proof.
  unfold Car.beforeMove.
  destruct (Car.applySteering h dt _) as [c1 t] eqn:E. simpl.
  assert (E1 : Car.position c1 = Car.position c).
  { change c1 with (fst (c1, t)). rewrite <- E.
    unfold Car.applySteering, Car.applyThrottle, Car.saveValidPosition.
    by_cases. }
  unfold Car.updateDrift, Car.createDriftMarks. simpl.
  by_cases; exact E1.
Qed.

Lemma beforeMove_lastValidPosition h dt c :
  Car.lastValidPosition (Car.beforeMove h dt c)
  = if Car.colliding c then Car.lastValidPosition c else Car.position c.
Proof.
  unfold Car.beforeMove.
  destruct (Car.applySteering h dt _) as [c1 t] eqn:E. simpl.
  assert (E1 : Car.lastValidPosition c1
               = if Car.colliding c then Car.lastValidPosition c
                 else Car.position c).
  { change c1 with (fst (c1, t)). rewrite <- E.
    unfold Car.applySteering, Car.applyThrottle, Car.saveValidPosition.
    destruct (Car.colliding c); simpl; by_cases. }
  unfold Car.updateDrift, Car.createDriftMarks. simpl.
  by_cases; exact E1.
Qed.

(** X9: with no obstacle in the way, [update] moves the car by its new
    velocity times the time step in x and z, never reports it colliding,
    and remembers the position it started from as the last valid one
    unless the car was colliding before. *)
Theorem free_motion h dt c :
  let c' := Car.update h dt [] c in
  Car.colliding c' = false
  /\ vx (Car.position c') = vx (Car.position c) + vx (Car.velocity c') * dt
  /\ vz (Car.position c') = vz (Car.position c) + vz (Car.velocity c') * dt
  /\ Car.velocity c'
     = multiplyScalar (Car.direction c')
         (Car.speed (Car.beforeMove h dt c))
  /\ Car.lastValidPosition c'
     = if Car.colliding c then Car.lastValidPosition c else Car.position c.
Proof.
  intros c'. unfold c', Car.update, Car.move.
  pose proof (detectCollision_nothing h dt c) as Hn.
  unfold Car.collisionOf in Hn. rewrite Hn. simpl.
  pose proof (beforeMove_position h dt c) as Hp.
  pose proof (beforeMove_lastValidPosition h dt c) as Hl.
  assert (Hv : Car.velocity (Car.beforeMove h dt c)
               = multiplyScalar (Car.direction (Car.beforeMove h dt c))
                   (Car.speed (Car.beforeMove h dt c))).
  { unfold Car.beforeMove.
    destruct (Car.applySteering h dt _) as [c1 t]. reflexivity. }
  unfold Car.newPositionOf. rewrite Hp.
  destruct (Car.beforeMove h dt c) as
    [p r d v s a vv onr rh cr cta lv col dr ldt].
  simpl in *. subst v lv.
  unfold Car.updateVertical. simpl.
  destruct a; simpl; [destruct (_ <=? 0.5); simpl | destruct onr; simpl];
    repeat split.
Qed.

(** *** The heading *)

Lemma applyEuler_forward_length e :
  THREE.length (applyEuler (V3 0 0 1) e) = 1.
Proof.
  unfold THREE.length, lengthSq, dot, applyEuler. simpl.
  replace (_ + _ + _)
    with (sin (ey e) * sin (ey e)
          + (cos (ey e) * cos (ey e))
            * (sin (ex e) * sin (ex e) + cos (ex e) * cos (ex e)))
    by ring.
  pose proof (sin2_cos2 (ex e)) as Hx. pose proof (sin2_cos2 (ey e)) as Hy.
  unfold Rsqr in Hx, Hy. rewrite Hx, Rmult_1_r, Hy. apply sqrt_1.
Qed.

Lemma normalize_unit_or_zero v :
  lengthSq (normalize v) = 1 \/ normalize v = V3 0 0 0.
Proof.
  destruct (Req_dec_T (THREE.length v) 0) as [E | E].
  - right. rewrite normalize_zero by exact E.
    apply length_zero_iff. exact E.
  - left. pose proof (length_normalize v E) as H.
    rewrite <- (length_sq (normalize v)), H. ring.
Qed.

(** A reflection keeps the length. *)
Lemma reflection_lengthSq v n :
  lengthSq n = 1 \/ n = V3 0 0 0 ->
  lengthSq (sub v (multiplyScalar n (2 * dot v n))) = lengthSq v.
Proof.
  destruct v as [a b c], n as [x y z].
  unfold lengthSq, dot, sub, multiplyScalar. simpl. intros [H | H].
  - replace ((a - x * (2 * (a * x + b * y + c * z)))
             * (a - x * (2 * (a * x + b * y + c * z)))
             + (b - y * (2 * (a * x + b * y + c * z)))
               * (b - y * (2 * (a * x + b * y + c * z)))
             + (c - z * (2 * (a * x + b * y + c * z)))
               * (c - z * (2 * (a * x + b * y + c * z))))
      with (a * a + b * b + c * c
            + 4 * (a * x + b * y + c * z) * (a * x + b * y + c * z)
              * ((x * x + y * y + z * z) - 1)) by ring.
    rewrite H. ring.
  - injection H as -> -> ->. ring.
Qed.

Lemma length_unit_multiplyScalar d s :
  THREE.length d = 1 -> THREE.length (multiplyScalar d s) = Rabs s.
Proof. intros H. rewrite length_multiplyScalar, H. ring. Qed.

Lemma beforeMove_direction_unit h dt c :
  THREE.length (Car.direction c) = 1 ->
  THREE.length (Car.direction (Car.beforeMove h dt c)) = 1
  /\ Car.velocity (Car.beforeMove h dt c)
     = multiplyScalar (Car.direction (Car.beforeMove h dt c))
         (Car.speed (Car.beforeMove h dt c)).
Proof.
  intros Hu. unfold Car.beforeMove.
  destruct (Car.applySteering h dt _) as [c1 t] eqn:E. simpl.
  assert (E1 : THREE.length (Car.direction c1) = 1).
  { change c1 with (fst (c1, t)). rewrite <- E.
    unfold Car.applySteering. destruct (_ && _); simpl.
    - apply applyEuler_forward_length.
    - unfold Car.applyThrottle, Car.saveValidPosition. by_cases; exact Hu. }
  unfold Car.updateDrift, Car.createDriftMarks. simpl.
  by_cases; split; first [exact E1 | reflexivity].
Qed.

Lemma detectCollision_normal c newPosition obstacles o opos n :
  Car.detectCollision c newPosition obstacles = Car.Collision o opos n ->
  exists pos, n = Some (normalize (sub pos opos)).
Proof.
  unfold Car.detectCollision. destruct (_ && _).
  - match goal with
    | |- Car.sweep ?os ?st ?md ?sd ?i ?k = _ -> _ =>
        generalize i; generalize k
    end.
    intros k; induction k as [| k IH]; simpl; intros i Hc; [discriminate |].
    destruct (Car.checkCollisions _ _) eqn:E.
    + eapply IH; eassumption.
    + injection Hc as -> -> ->.
      apply checkCollisions_normal in E. destruct E as (-> & _). eauto.
  - intros H. apply checkCollisions_normal in H. destruct H as (-> & _). eauto.
Qed.

Lemma updateVertical_direction dt c :
  Car.direction (Car.updateVertical dt c) = Car.direction c.
Proof. unfold Car.updateVertical. by_cases. Qed.

(** X10: the heading [direction] stays a unit vector over [update]:
    steering recomputes it from the rotation, and a collision replaces it
    by the normalized reflection of the velocity, which is a unit vector
    unless the car was standing still when it was found colliding. *)
Theorem heading_stays_unit h dt obstacles c :
  THREE.length (Car.direction c) = 1 ->
  Car.speed (Car.beforeMove h dt c) <> 0
  \/ Car.collisionOf h dt obstacles c = Car.NoCollision ->
  THREE.length (Car.direction (Car.update h dt obstacles c)) = 1.
Proof.
  intros Hu Hs. unfold Car.update. rewrite updateVertical_direction.
  destruct (beforeMove_direction_unit h dt c Hu) as [Hd Hv].
  unfold Car.move. unfold Car.collisionOf in Hs.
  destruct (Car.detectCollision _ _ _) as [| o opos n] eqn:E; simpl.
  - exact Hd.
  - destruct Hs as [Hs | Hs]; [| discriminate].
    destruct (detectCollision_normal _ _ _ _ _ _ E) as [pos ->].
    match goal with
    | |- context [ Car.resolveCollision ?c0 o opos (Some ?n0) ] =>
        destruct (resolveCollision_result c0 o opos n0) as (_ & -> & _)
    end.
    simpl. apply length_normalize.
    unfold THREE.length.
    rewrite reflection_lengthSq by apply normalize_unit_or_zero.
    fold (THREE.length (Car.velocity (Car.beforeMove h dt c))).
    rewrite Hv, length_unit_multiplyScalar by exact Hd.
    apply Rabs_no_R0. exact Hs.
Qed.

Lemma heading_stays_unit_witness :
  THREE.length
    (Car.direction
       (Car.update (Sample.keysDown ["ArrowLeft"%string]) 0.016 []
          Sample.cruiser)) = 1.
Proof.
  apply heading_stays_unit.
  - simpl. rewrite length_axis_z. apply Rabs_R1.
  - right. apply detectCollision_nothing.
Defined.

(** ** The boost *)

(** X11: the boost multiplier stays between 1 and [speedMultiplier] over a
    tick, as long as the frame is short enough for the smoothing step
    [transitionSpeed * deltaTime] to be at most 1 (half a second, with the
    settings of [setupSpeedBoost]). *)
Theorem boost_multiplier_stays_in_range rotateBy ih dt g g' :
  0 <= Boost.transitionSpeed (Game.boost g) * dt <= 1 ->
  1 <= Boost.currentMultiplier (Game.boost g)
    <= Boost.speedMultiplier (Game.boost g) ->
  Game.update rotateBy ih dt g = Some g' ->
  1 <= Boost.currentMultiplier (Game.boost g')
    <= Boost.speedMultiplier (Game.boost g')
  /\ Boost.speedMultiplier (Game.boost g')
     = Boost.speedMultiplier (Game.boost g)
  /\ Boost.transitionSpeed (Game.boost g')
     = Boost.transitionSpeed (Game.boost g).
Proof.
  intros Hstep Hcm H. rewrite (update_boost _ _ _ _ _ H).
  rewrite boostAfter_eq. unfold boostAfter.
  destruct (Game.boost g) as [av mx rr dr act sm cm ts]. simpl in *.
  destruct (act && (av >? 0)); simpl;
    (split; [| split; reflexivity]);
    match goal with
    | |- context [ if ?b then _ else _ ] => destruct b
    end; nra.
Qed.

Lemma boost_multiplier_stays_in_range_witness :
  1 <= Boost.currentMultiplier (Game.boost afterFirstTick)
    <= Boost.speedMultiplier (Game.boost afterFirstTick).
Proof.
  refine (proj1 (boost_multiplier_stays_in_range Sample.addAngles
                   Sample.noKeys 0.016 Sample.openField afterFirstTick
                   _ _ afterFirstTick_eq)); simpl; lra.
Defined.

(** On a longer frame the multiplier overshoots: one second with the boost
    held takes it from 1 to 2.6, above [speedMultiplier] = 1.8. *)
Lemma boost_multiplier_overshoots :
  Boost.currentMultiplier
    (boostAfter 1 (Game.boost (Game.keydownSpace Sample.openField))) = 2.6.
Proof.
  unfold boostAfter, Game.keydownSpace, Sample.openField, Sample.game,
    Game.setupSpeedBoost. simpl.
  cmp_true (100 >? 0). simpl. cmp_true (100 >? 0). simpl.
  rewrite Rmax_right by lra. cmp_true (100 - 30 * 1 >? 0). simpl. lra.
Qed.

(** X12: an empty meter does not end the boost while the space bar stays
    down.  Nothing clears [active], so a tick that starts with the meter
    at 0 takes the recharging branch, and the smoothing step of that same
    tick finds the meter above 0 and moves the multiplier toward
    [speedMultiplier]; the next tick drains the meter to 0 again and moves
    the multiplier toward 1.  The two ticks repeat. *)
Theorem empty_meter_boosts_every_second_tick rotateBy ih1 ih2 dt g g1 g2 :
  let b := Game.boost g in
  Boost.active b = true -> Boost.available b = 0 ->
  0 < dt -> 0 < Boost.max b ->
  0 < Boost.rechargeRate b <= Boost.depleteRate b ->
  Game.update rotateBy ih1 dt g = Some g1 ->
  Game.update rotateBy ih2 dt g1 = Some g2 ->
  let b1 := Game.boost g1 in
  let b2 := Game.boost g2 in
  Boost.active b1 = true
  /\ Boost.available b1 = Rmin (Boost.max b) (Boost.rechargeRate b * dt)
  /\ 0 < Boost.available b1
  /\ Boost.currentMultiplier b1
     = Boost.currentMultiplier b
       + (Boost.speedMultiplier b - Boost.currentMultiplier b)
         * Boost.transitionSpeed b * dt
  /\ Boost.active b2 = true
  /\ Boost.available b2 = 0
  /\ Boost.currentMultiplier b2
     = Boost.currentMultiplier b1
       + (1 - Boost.currentMultiplier b1) * Boost.transitionSpeed b * dt.
Proof.
  intros b Hact Hav Hdt Hmax [Hr Hrd] H1 H2 b1 b2.
  unfold b1, b2.
  rewrite (update_boost _ _ _ _ _ H2), boostAfter_eq.
  rewrite (update_boost _ _ _ _ _ H1), boostAfter_eq.
  fold b. clearbody b. clear H1 H2 b1 b2.
  destruct b as [av mx rr dr act sm cm ts].
  simpl in Hact, Hav, Hmax, Hr, Hrd. subst act av.
  assert (Hpos : 0 < Rmin mx (rr * dt)).
  { apply Rmin_glb_lt; [exact Hmax | apply Rmult_lt_0_compat; assumption]. }
  assert (Hle : Rmin mx (rr * dt) - dr * dt <= 0).
  { pose proof (Rmin_r mx (rr * dt)). nra. }
  assert (E1 : boostAfter dt (Boost.mk 0 mx rr dr true sm cm ts)
               = Boost.mk (Rmin mx (rr * dt)) mx rr dr true sm
                   (cm + (sm - cm) * ts * dt) ts).
  { unfold boostAfter. simpl. cmp_false (0 >? 0). simpl.
    replace (0 + rr * dt) with (rr * dt) by ring.
    cmp_true (Rmin mx (rr * dt) >? 0). reflexivity. }
  rewrite E1.
  assert (E2 : boostAfter dt
                 (Boost.mk (Rmin mx (rr * dt)) mx rr dr true sm
                    (cm + (sm - cm) * ts * dt) ts)
               = Boost.mk 0 mx rr dr true sm
                   (cm + (sm - cm) * ts * dt
                    + (1 - (cm + (sm - cm) * ts * dt)) * ts * dt) ts).
  { unfold boostAfter. simpl.
    cmp_true (Rmin mx (rr * dt) >? 0). simpl.
    rewrite Rmax_left by exact Hle.
    cmp_false (0 >? 0). simpl.
    unfold Boost.set_currentMultiplier, Boost.set_available. simpl.
    f_equal. lra. }
  rewrite E2. simpl.
  repeat split; try assumption; reflexivity.
Qed.

(** A tick of a world that cannot throw, as a function. *)
Definition tickOf (ih : InputHandler.t) (dt : R) (g : Game.t) : Game.t :=
  match Game.update Sample.addAngles ih dt g with
  | Some g' => g'
  | None => g
  end.

Lemma tickOf_eq ih dt g :
  worldOk g ->
  Game.update Sample.addAngles ih dt g = Some (tickOf ih dt g)
  /\ worldOk (tickOf ih dt g).
Proof.
  intros Hw. unfold tickOf.
  destruct (update_total Sample.addAngles ih dt g Hw) as (g' & -> & Hw').
  split; [reflexivity | exact Hw'].
Qed.

(** The new game on the empty field with the meter run down and the space
    bar still held. *)
Definition emptyMeterGame : Game.t :=
  Game.set_boost Sample.openField (Boost.mk 0 100 10 30 true 1.8 1.0 2.0).

Lemma worldOk_emptyMeterGame : worldOk emptyMeterGame.
Proof. exact worldOk_openField. Qed.

Lemma empty_meter_boosts_every_second_tick_witness :
  let g1 := tickOf Sample.noKeys 0.016 emptyMeterGame in
  let g2 := tickOf Sample.noKeys 0.016 g1 in
  0 < Boost.available (Game.boost g1)
  /\ Boost.available (Game.boost g2) = 0
  /\ Boost.active (Game.boost g2) = true.
Proof.
  intros g1 g2.
  destruct (tickOf_eq Sample.noKeys 0.016 emptyMeterGame
              worldOk_emptyMeterGame) as [E1 W1].
  destruct (tickOf_eq Sample.noKeys 0.016 g1 W1) as [E2 _].
  destruct (empty_meter_boosts_every_second_tick Sample.addAngles
              Sample.noKeys Sample.noKeys 0.016 emptyMeterGame g1 g2)
    as (_ & _ & H3 & _ & H5 & H6 & _);
    try reflexivity; try (simpl; lra); try assumption.
  repeat split; assumption.
Defined.

(** ** The boundary of the playable rectangle *)

Lemma dot_zero_r v : dot v (V3 0 0 0) = 0.
Proof. unfold dot; simpl; ring. Qed.

Lemma dot_normalize v n :
  THREE.length v <> 0 ->
  dot (normalize v) n = dot v n / THREE.length v.
Proof.
  intros H. unfold normalize.
  destruct (Req_dec_T (THREE.length v) 0); [contradiction |].
  unfold dot; simpl. field. exact H.
Qed.

Lemma dot_reflection v n :
  lengthSq n = 1 ->
  dot (sub v (multiplyScalar n (2 * dot v n))) n = - dot v n.
Proof.
  destruct v as [a b c], n as [x y z].
  unfold lengthSq, dot, sub, multiplyScalar. simpl. intros H.
  replace ((a - x * (2 * (a * x + b * y + c * z))) * x
           + (b - y * (2 * (a * x + b * y + c * z))) * y
           + (c - z * (2 * (a * x + b * y + c * z))) * z)
    with ((a * x + b * y + c * z)
          * (1 - 2 * (x * x + y * y + z * z))) by ring.
  rewrite H. ring.
Qed.

(** X13: the boundary block of [update].  Inside the rectangle
    |x|, |z| <= halfSize - 10 it does nothing.  Outside, a car whose
    velocity points outward (negative dot product with the inward normal
    [n]) is turned around: its new heading is a unit vector with a positive
    component along [n], and it keeps 0.4 of its speed; a car already
    moving inward keeps its heading and half of its speed.  The position
    is never assigned. *)
Theorem boundary_bounce_turns_the_car_inward g :
  let c := Game.car g in
  let p := Car.position c in
  let limit := Game.halfSize g - 10 in
  let n :=
    normalize
      (V3 (if Rabs (vx p) >? limit then - JsMath.sign (vx p) else 0) 0
          (if Rabs (vz p) >? limit then - JsMath.sign (vz p) else 0)) in
  let c' := Game.car (fst (Game.enforceBoundary g)) in
  Car.position c' = p
  /\ (Rabs (vx p) <= limit -> Rabs (vz p) <= limit ->
      fst (Game.enforceBoundary g) = g)
  /\ (dot (Car.velocity c) n < 0 ->
      0 < dot (Car.direction c') n
      /\ THREE.length (Car.direction c') = 1
      /\ Car.speed c' = Car.speed c * 0.4)
  /\ (limit < Rabs (vx p) \/ limit < Rabs (vz p) ->
      0 <= dot (Car.velocity c) n ->
      Car.direction c' = Car.direction c
      /\ Car.speed c' = Car.speed c * 0.5).
Proof.
  intros c p limit n c'.
  split; [apply enforceBoundary_position |].
  unfold c', Game.enforceBoundary, Car.getPosition.
  fold c p limit. simpl.
  assert (Evz : vz (if Rabs (vx p) >? limit
                    then setX p (JsMath.sign (vx p) * limit) else p)
                = vz p) by (destruct (_ >? _); reflexivity).
  rewrite !Evz. clear Evz.
  split; [| split].
  - intros Hx Hz.
    cmp_false (Rabs (vx p) >? limit). cmp_false (Rabs (vz p) >? limit).
    reflexivity.
  - intros Hdot.
    assert (Hn : lengthSq n = 1).
    { destruct (normalize_unit_or_zero
                  (V3 (if Rabs (vx p) >? limit then - JsMath.sign (vx p)
                       else 0) 0
                      (if Rabs (vz p) >? limit then - JsMath.sign (vz p)
                       else 0))) as [H | H]; [exact H |].
      fold n in H. rewrite H, dot_zero_r in Hdot. lra. }
    assert (Hout : (Rabs (vx p) >? limit) || (Rabs (vz p) >? limit) = true).
    { destruct (Rabs (vx p) >? limit) eqn:Ex; [reflexivity |].
      destruct (Rabs (vz p) >? limit) eqn:Ez; [reflexivity |].
      exfalso. unfold n in Hn. rewrite ?Ex, ?Ez in Hn.
      rewrite normalize_zero in Hn by apply length_zero_vector.
      unfold lengthSq, dot in Hn; simpl in Hn. lra. }
    rewrite Hout.
    fold n.
    cmp_true (dot (Car.velocity c) n <? 0).
    set (r := sub (Car.velocity c)
                  (multiplyScalar n (2 * dot (Car.velocity c) n))).
    assert (Hrn : dot r n = - dot (Car.velocity c) n)
      by (apply dot_reflection; exact Hn).
    assert (Hr : THREE.length r <> 0).
    { intros E. apply length_zero_iff in E.
      rewrite E in Hrn. unfold dot in Hrn at 1; simpl in Hrn. lra. }
    assert (Hdir : 0 < dot (normalize r) n
                   /\ THREE.length (normalize r) = 1).
    { split; [| apply length_normalize; exact Hr].
      rewrite dot_normalize by exact Hr.
      apply Rdiv_lt_0_compat; [lra |].
      pose proof (length_nonneg r). lra. }
    destruct (_ && _); simpl; (split; [apply Hdir |]);
      (split; [apply Hdir | reflexivity]).
  - intros Hout Hdot.
    assert (Ho : (Rabs (vx p) >? limit) || (Rabs (vz p) >? limit) = true).
    { destruct Hout as [H | H].
      - cmp_true (Rabs (vx p) >? limit). reflexivity.
      - cmp_true (Rabs (vz p) >? limit). apply orb_true_r. }
    rewrite Ho. fold n.
    cmp_false (dot (Car.velocity c) n <? 0). simpl.
    split; reflexivity.
Qed.

(** ** Ramps and launchpads *)

Lemma rideLaunchpad_airborne carPosition carSpeed radius height jumpStrength
      distanceSquared c :
  Car.isAirborne c = true ->
  Game.rideLaunchpad carPosition carSpeed radius height jumpStrength
    distanceSquared c = c.
Proof. intros H. unfold Game.rideLaunchpad. rewrite H. reflexivity. Qed.

Lemma rideRamp_airborne carDirection rampForward carSpeed height jumpStrength
      normalizedPos currentRampHeight c :
  Car.isAirborne c = true ->
  Game.rideRamp carDirection rampForward carSpeed height jumpStrength
    normalizedPos currentRampHeight c = c.
Proof.
  intros H. unfold Game.rideRamp. rewrite H. simpl.
  destruct (_ && _); [destruct (_ >? 0.7) |]; rewrite ?H; reflexivity.
Qed.

Lemma scanRamps_airborne carPosition carDirection carSpeed ramps :
  forall s,
  Car.isAirborne (Game.scanCar s) = true ->
  Game.scanCar (Game.scanRamps carPosition carDirection carSpeed ramps s)
  = Game.scanCar s.
Proof.
  induction ramps as [| ramp rest IH]; intros s Ha; [reflexivity |].
  simpl. destruct ramp.
  - destruct (_ && _ && _).
    + rewrite IH; simpl; rewrite rideRamp_airborne by exact Ha;
        [reflexivity | exact Ha].
    + apply IH. exact Ha.
  - destruct (_ <=? _).
    + simpl. apply rideLaunchpad_airborne. exact Ha.
    + apply IH. exact Ha.
Qed.

(** X14: ramps and launchpads do nothing to a car in the air.  Whatever
    lies below it, [checkRampInteractions] leaves its position, speed,
    heading, rotation and vertical velocity as they are and starts no new
    jump; only the bookkeeping fields [onRamp], [rampHeight] and
    [currentRamp] are assigned. *)
Theorem ramps_leave_a_car_in_the_air_alone g :
  Car.isAirborne (Game.car g) = true ->
  let c := Game.car g in
  let c' := Game.car (Game.checkRampInteractions g) in
  Car.position c' = Car.position c
  /\ Car.speed c' = Car.speed c
  /\ Car.direction c' = Car.direction c
  /\ Car.velocity c' = Car.velocity c
  /\ Car.rotation c' = Car.rotation c
  /\ Car.verticalVelocity c' = Car.verticalVelocity c
  /\ Car.isAirborne c' = true.
Proof.
  intros Ha c c'. unfold c', c, Game.checkRampInteractions. simpl.
  rewrite scanRamps_airborne by exact Ha. simpl.
  rewrite Ha, andb_false_r. simpl.
  repeat split. exact Ha.
Qed.

(** The car of [Sample.cruiser] in the air above [Sample.rampA]. *)
Definition jumpingGame : Game.t :=
  Sample.game
    (Car.set_verticalVelocity (Car.set_isAirborne Sample.cruiser true) 5)
    [] [Sample.rampA] [] [].

Lemma ramps_leave_a_car_in_the_air_alone_witness :
  Car.position (Game.car (Game.checkRampInteractions jumpingGame))
  = Car.position (Game.car jumpingGame)
  /\ Car.speed (Game.car (Game.checkRampInteractions jumpingGame))
     = Car.speed (Game.car jumpingGame).
Proof.
  destruct (ramps_leave_a_car_in_the_air_alone jumpingGame eq_refl)
    as (Hp & Hs & _).
  split; assumption.
Defined.

(** X15: where every entry of [ramps] is a launchpad, as in the world the
    [City] constructor builds, the scan stops at the first launchpad, in
    array order, whose disc contains the car: that one is the current
    ramp, it alone acts on the car, and the entries after it are not looked
    at.  With no such launchpad the car is on no ramp. *)
Theorem only_the_first_launchpad_acts g :
  Forall isLaunchpad (Game.ramps g) ->
  let c := Game.car g in
  let p := Car.getPosition c in
  let c' := Game.car (Game.checkRampInteractions g) in
  Car.currentRamp c' = find (Game.onFootprint p) (Game.ramps g)
  /\ Car.onRamp c' = existsb (Game.onFootprint p) (Game.ramps g)
  /\ (forall before position radius height jumpStrength rest,
        Game.ramps g
        = before ++ Ramp.Launchpad position radius height jumpStrength
                    :: rest ->
        Forall (fun ramp => Game.onFootprint p ramp = false) before ->
        Game.onFootprint p
          (Ramp.Launchpad position radius height jumpStrength) = true ->
        Car.speed c'
        = Car.speed
            (Game.rideLaunchpad p (Car.getSpeed c) radius height jumpStrength
               ((vx p - vx position) * (vx p - vx position)
                + (vz p - vz position) * (vz p - vz position)) c)
        /\ Car.verticalVelocity c'
           = Car.verticalVelocity
               (Game.rideLaunchpad p (Car.getSpeed c) radius height
                  jumpStrength
                  ((vx p - vx position) * (vx p - vx position)
                   + (vz p - vz position) * (vz p - vz position)) c)).
Proof.
  intros Hall c p c'. unfold c', Game.checkRampInteractions. fold c p.
  rewrite scanRamps_launchpads by exact Hall.
  split; [| split].
  - destruct (find _ _) as [[| position radius height jumpStrength] |] eqn:E;
      simpl; try reflexivity.
    apply find_some in E. destruct E as [Hin _].
    rewrite Forall_forall in Hall. destruct (Hall _ Hin).
  - destruct (find _ _) as [[| position radius height jumpStrength] |] eqn:E;
      simpl.
    + apply find_some in E. destruct E as [Hin _].
      rewrite Forall_forall in Hall. destruct (Hall _ Hin).
    + apply find_some in E. destruct E as [Hin Hon].
      symmetry. apply existsb_exists. eauto.
    + symmetry. apply not_true_is_false. intros Hex.
      apply existsb_exists in Hex. destruct Hex as (r & Hin & Hon).
      rewrite (find_none _ _ E r Hin) in Hon. discriminate.
  - intros before position radius height jumpStrength rest Hr Hb Hon.
    assert (E : find (Game.onFootprint p) (Game.ramps g)
                = Some (Ramp.Launchpad position radius height jumpStrength)).
    { rewrite Hr. clear Hr. induction before as [| b before' IH]; simpl.
      - simpl in Hon. rewrite Hon. reflexivity.
      - inversion Hb as [| ? ? Hb1 Hb2]; subst. rewrite Hb1.
        apply IH. exact Hb2. }
    rewrite E. simpl. split; reflexivity.
Qed.

Lemma only_the_first_launchpad_acts_witness :
  let g := Sample.game Car.new [] (City.launchpads City.new) [] [] in
  Car.currentRamp (Game.car (Game.checkRampInteractions g))
  = find (Game.onFootprint (Car.getPosition (Game.car g))) (Game.ramps g).
Proof.
  intros g.
  exact (proj1 (only_the_first_launchpad_acts g
                  (launchpads_are_launchpads City.new))).
Defined.

(** X16: a launch from a launchpad is bounded.  A car on the ground that
    crosses the disc faster than 5 leaves it in the air, lifted to the
    height of the pad, with a vertical velocity between 14% and 100% of
    min(jumpStrength, 22), and with its speed set to 30 if it was above
    30. *)
Theorem launchpad_launch_is_bounded carPosition carSpeed radius height
    jumpStrength distanceSquared c :
  Car.isAirborne c = false ->
  5 < carSpeed -> 0 < radius ->
  0 <= distanceSquared <= radius * radius -> 0 < jumpStrength ->
  let c' := Game.rideLaunchpad carPosition carSpeed radius height
              jumpStrength distanceSquared c in
  Car.isAirborne c' = true
  /\ 0.14 * Rmin jumpStrength 22 < Car.verticalVelocity c'
     <= Rmin jumpStrength 22
  /\ vy (Car.position c') = 0.5 + height
  /\ (30 < carSpeed -> Car.speed c' = 30).
Proof.
  intros Ha Hs Hr [Hd0 Hd1] Hj c'. unfold c', Game.rideLaunchpad.
  rewrite Ha. simpl.
  assert (Hsq : 0 <= sqrt distanceSquared <= radius).
  { split; [apply sqrt_pos |].
    rewrite <- (sqrt_square radius) by lra. apply sqrt_le_1; nra. }
  assert (Hnd : 0 <= sqrt distanceSquared / radius <= 1).
  { split.
    - apply Rmult_le_pos; [lra |]. apply Rlt_le, Rinv_0_lt_compat. exact Hr.
    - unfold Rdiv. apply Rmult_le_reg_r with radius; [exact Hr |].
      rewrite Rmult_assoc, Rinv_l by lra. lra. }
  assert (Hsf : 0.2 < Rmin 1 (carSpeed / 25) <= 1).
  { split; [apply Rmin_glb_lt; lra | apply Rmin_l]. }
  assert (Hb : 0 < Rmin jumpStrength 22) by (apply Rmin_glb_lt; lra).
  set (base := Rmin jumpStrength 22) in *.
  set (sf := Rmin 1 (carSpeed / 25)) in *.
  set (nd := sqrt distanceSquared / radius) in *.
  assert (Hvv : 0.14 * base < base * sf * (0.7 + (1 - nd) * 0.3) <= base).
  { assert (0.7 <= 0.7 + (1 - nd) * 0.3 <= 1) by lra.
    set (k := 0.7 + (1 - nd) * 0.3) in *.
    assert (0.14 < sf * k) by nra. assert (sf * k <= 1) by nra.
    split; nra. }
  assert (Hgo : (carSpeed >? 5) = true) by (apply gtb_true; lra).
  destruct (carSpeed >? 10); simpl; rewrite Hgo, ?Ha; simpl;
    destruct (carSpeed >? 30) eqn:E30; simpl;
    (split; [reflexivity |]); (split; [exact Hvv |]);
    (split; [reflexivity |]); intros H30;
    try reflexivity; apply gtb_false in E30; lra.
Qed.

Lemma launchpad_launch_is_bounded_witness :
  Car.isAirborne
    (Game.rideLaunchpad (V3 0 0.5 0) 20 6 0.3 14 0 Sample.cruiser) = true.
Proof.
  refine (proj1 (launchpad_launch_is_bounded (V3 0 0.5 0) 20 6 0.3 14 0
                   Sample.cruiser eq_refl _ _ _ _)); lra.
Defined.

(** ** The layout of the city *)

Lemma nth_error_map_seq {A : Type} (f : nat -> A) n i :
  (i < n)%nat -> nth_error (map f (seq 0 n)) i = Some (f i).
Proof.
  intros H. rewrite nth_error_map, nth_error_seq.
  destruct (Nat.ltb_spec i n); [reflexivity | lia].
Qed.

(** The number of roads in each direction. *)
Definition roadCount (c : City.t) : nat :=
  Z.to_nat (JsMath.floor (City.citySize c) + 1).

Definition halfTotalSizeOf (c : City.t) : R :=
  (City.citySize c * City.blockSize c
   + (City.citySize c + 1) * City.roadWidth c) / 2.

Lemma roadCount_pos c : 0 <= City.citySize c -> (1 <= roadCount c)%nat.
Proof.
  intros H. unfold roadCount, JsMath.floor.
  assert (0 <= Zfloor (City.citySize c))%Z by (apply Zfloor_lub; simpl; lra).
  lia.
Qed.

Lemma createGround_roads c :
  City.horizontal c = [] -> City.vertical c = [] ->
  let road i :=
    {| City.center :=
         - halfTotalSizeOf c
         + INR i * (City.blockSize c + City.roadWidth c);
       City.width := City.roadWidth c |} in
  City.horizontal (City.createGround c) = map road (seq 0 (roadCount c))
  /\ City.vertical (City.createGround c) = map road (seq 0 (roadCount c)).
Proof.
  intros Hh Hv road. unfold City.createGround, City.createRoads. simpl.
  rewrite Hh, Hv. split; reflexivity.
Qed.

(** X17: the road grid.  On a city without roads yet, [createGround] lays
    out floor(citySize) + 1 roads in each direction, all of width
    [roadWidth]; road number i is centred at
    -halfTotalSize + i * (blockSize + roadWidth), so the first one is
    centred on the edge of the city and the spacing is one block plus one
    road. *)
Theorem road_grid c :
  0 <= City.citySize c ->
  City.horizontal c = [] -> City.vertical c = [] ->
  let c' := City.createGround c in
  let road i :=
    {| City.center :=
         - halfTotalSizeOf c
         + INR i * (City.blockSize c + City.roadWidth c);
       City.width := City.roadWidth c |} in
  List.length (City.horizontal c') = roadCount c
  /\ List.length (City.vertical c') = roadCount c
  /\ (1 <= roadCount c)%nat
  /\ INR (roadCount c) = IZR (JsMath.floor (City.citySize c)) + 1
  /\ (forall i, (i < roadCount c)%nat ->
        nth_error (City.horizontal c') i = Some (road i)
        /\ nth_error (City.vertical c') i = Some (road i)).
Proof.
  intros Hs Hh Hv c' road.
  destruct (createGround_roads c Hh Hv) as [Eh Ev]. fold c' in Eh, Ev.
  rewrite Eh, Ev. rewrite !length_map, !length_seq.
  split; [reflexivity |]. split; [reflexivity |].
  split; [apply roadCount_pos; exact Hs |].
  split.
  - unfold roadCount, JsMath.floor.
    assert (0 <= Zfloor (City.citySize c))%Z
      by (apply Zfloor_lub; simpl; lra).
    rewrite INR_IZR_INZ, Z2Nat.id by lia. rewrite plus_IZR. reflexivity.
  - intros i Hi. split; apply nth_error_map_seq; exact Hi.
Qed.

Lemma road_grid_witness :
  List.length (City.horizontal City.new) = 4%nat
  /\ nth_error (City.horizontal City.new) 1
     = Some {| City.center := - 95 + 1 * (50 + 10); City.width := 10 |}.
Proof.
  pose proof (road_grid
                {| City.citySize := 3; City.blockSize := 50;
                   City.roadWidth := 10;
                   City.horizontal := []; City.vertical := [] |})
    as H.
  assert (Hn : roadCount
                 {| City.citySize := 3; City.blockSize := 50;
                    City.roadWidth := 10;
                    City.horizontal := []; City.vertical := [] |} = 4%nat).
  { unfold roadCount, JsMath.floor. simpl.
    rewrite (ZfloorZ 3). reflexivity. }
  destruct H as (Hl & _ & _ & _ & Hi); try reflexivity; [simpl; lra |].
  split.
  - unfold City.new. rewrite Hl. exact Hn.
  - destruct (Hi 1%nat) as [E _]; [rewrite Hn; lia |].
    unfold City.new. rewrite E. f_equal. f_equal.
    unfold halfTotalSizeOf. simpl. lra.
Defined.

Lemma applyEuler_forward_quarter_turn x z :
  applyEuler (V3 0 0 1) (mkEuler x (- PI / 2) z) = V3 (-1) 0 0.
Proof.
  unfold applyEuler. simpl.
  replace (- PI / 2) with (- (PI / 2)) by lra.
  rewrite cos_neg, sin_neg, cos_PI2, sin_PI2. f_equal; ring.
Qed.

(** X18: where the car starts.  In a city whose roads [createGround] laid
    out, [positionCarOnRoad] does not throw: it puts the car at
    (0, 0.5, z) with z the centre of the horizontal road number
    floor(citySize / 2), turns it by -PI/2 about the vertical axis and sets
    its heading to (-1, 0, 0), along that road.  In a city without
    horizontal roads it throws. *)
Theorem car_starts_on_the_middle_road c0 g :
  0 <= City.citySize c0 ->
  City.horizontal c0 = [] -> City.vertical c0 = [] ->
  Game.city g = City.createGround c0 ->
  exists g',
    Game.positionCarOnRoad g = Some g'
    /\ Car.position (Game.car g')
       = V3 0 0.5
           (- halfTotalSizeOf c0
            + IZR (JsMath.floor (City.citySize c0 / 2))
              * (City.blockSize c0 + City.roadWidth c0))
    /\ Car.direction (Game.car g') = V3 (-1) 0 0
    /\ ey (Car.rotation (Game.car g')) = - PI / 2
    /\ Car.speed (Game.car g') = Car.speed (Game.car g)
    /\ Game.city g' = Game.city g
    /\ (forall g0, City.horizontal (Game.city g0) = [] ->
        Game.positionCarOnRoad g0 = None).
Proof.
  intros Hs Hh Hv Hc.
  destruct (createGround_roads c0 Hh Hv) as [Eh _].
  set (k := JsMath.floor (City.citySize c0 / 2)).
  assert (Hk0 : (0 <= k)%Z) by (apply Zfloor_lub; simpl; lra).
  assert (Hkn : (Z.to_nat k < roadCount c0)%nat).
  { unfold roadCount, JsMath.floor.
    assert (k <= Zfloor (City.citySize c0))%Z by (apply Zfloor_le; lra).
    lia. }
  assert (Espawn : City.getSpawnPosition (Game.city g)
            = Some {| City.spawnX := 0; City.spawnY := 0.5;
                      City.spawnZ :=
                        - halfTotalSizeOf c0
                        + IZR k * (City.blockSize c0 + City.roadWidth c0);
                      City.spawnRotation := - PI / 2 |}).
  { unfold City.getSpawnPosition, City.at_. rewrite Hc.
    assert (Ecs : City.citySize (City.createGround c0) = City.citySize c0)
      by reflexivity.
    rewrite Ecs. fold k.
    destruct (k <? 0)%Z eqn:E; [apply Z.ltb_lt in E; lia |].
    rewrite Eh, nth_error_map_seq by exact Hkn. simpl.
    rewrite INR_IZR_INZ, Z2Nat.id by exact Hk0. reflexivity. }
  unfold Game.positionCarOnRoad. rewrite Espawn. simpl.
  eexists. split; [reflexivity |]. simpl.
  split; [reflexivity |].
  split.
  { destruct (Car.rotation (Game.car g)) as [x y z]. simpl.
    apply applyEuler_forward_quarter_turn. }
  split; [reflexivity |]. split; [reflexivity |]. split; [reflexivity |].
  intros g0 H0. unfold Game.positionCarOnRoad, City.getSpawnPosition, City.at_.
  rewrite H0. destruct (_ <? 0)%Z; [reflexivity |].
  rewrite nth_error_nil. reflexivity.
Qed.

(** The game [init] builds on the empty field, before the car is placed. *)
Definition newGame : Game.t :=
  Game.mk Car.new City.new 0 [] [] [] [] Game.setupSpeedBoost (fun _ => 0).

Lemma car_starts_on_the_middle_road_witness :
  exists g',
    Game.positionCarOnRoad newGame = Some g'
    /\ Car.position (Game.car g') = V3 0 0.5 (-35)
    /\ Car.direction (Game.car g') = V3 (-1) 0 0.
Proof.
  destruct (car_starts_on_the_middle_road
              {| City.citySize := 3; City.blockSize := 50;
                 City.roadWidth := 10;
                 City.horizontal := []; City.vertical := [] |} newGame)
    as (g' & E & Hp & Hd & _); try reflexivity; [simpl; lra |].
  exists g'. split; [exact E |]. split; [| exact Hd].
  rewrite Hp. f_equal. unfold halfTotalSizeOf, JsMath.floor. simpl.
  replace (3 / 2) with 1.5 by lra.
  rewrite (Zfloor_eq 1 1.5) by lra. lra.
Defined.

(** *** Launchpads *)

(** X19: the launchpads of an open space: at most three,
    min(3, floor(radius / 30)) of them, each with radius 6, height 0.3 and
    jump strength 14, and each centred at distance 0.4 * radius from the
    centre of the space. *)
Theorem launchpads_of_an_open_space space :
  (List.length (City.addStuntRamps space) <= 3)%nat
  /\ List.length (City.addStuntRamps space)
     = Z.to_nat (Z.min 3 (JsMath.floor (City.radius space / 30)))
  /\ (forall ramp, In ramp (City.addStuntRamps space) ->
      exists x z,
        ramp = Ramp.Launchpad (V3 x 0.3 z) 6 0.3 14
        /\ (x - City.spaceX space) * (x - City.spaceX space)
           + (z - City.spaceZ space) * (z - City.spaceZ space)
           = (0.4 * City.radius space) * (0.4 * City.radius space)).
Proof.
  unfold City.addStuntRamps. rewrite length_map, length_seq.
  split; [lia |]. split; [reflexivity |].
  intros ramp Hin. apply in_map_iff in Hin. destruct Hin as (i & <- & _).
  eexists. eexists. split; [reflexivity |].
  set (a := INR i / _ * PI * 2).
  pose proof (sin2_cos2 a) as H. unfold Rsqr in H.
  replace (_ + _)
    with ((sin a * sin a + cos a * cos a)
          * (City.radius space * 0.4) * (City.radius space * 0.4))
    by ring.
  rewrite H. ring.
Qed.

(** *** The boundary walls *)

(** What matters of a wall of [createBoundary] for a car inside the city:
    it is a boundary with a position and an unrotated box mesh, its
    position is at height 7.5 or more, and its rectangle lies beyond the
    edge of the city on one side. *)
Definition beyondTheEdge (half : R) (o : Obstacle.t) : Prop :=
  Obstacle.type o = boundary
  /\ exists p w d,
       Obstacle.position o = Some p
       /\ Obstacle.mesh o = Some (City.boxMesh w d)
       /\ 7.5 <= vy p
       /\ (vz p + d / 2 <= - half \/ half <= vz p - d / 2
           \/ vx p + w / 2 <= - half \/ half <= vx p - w / 2).

Definition randomIn01 (rnd : City.Random) : Prop :=
  forall n, 0 <= rnd n < 1.

Lemma skip_in01 k rnd : randomIn01 rnd -> randomIn01 (City.skip k rnd).
Proof. intros H n. apply H. Qed.

Lemma boundaryBuildings_beyond half index wall segmentLength segmentSize
      indices :
  forall rnd,
  randomIn01 rnd ->
  (index = 0%nat /\ City.wallZ wall + City.wallDepth wall / 2 <= - half)
  \/ (index = 1%nat /\ half <= City.wallX wall - City.wallWidth wall / 2)
  \/ (index = 2%nat /\ half <= City.wallZ wall - City.wallDepth wall / 2)
  \/ (index = 3%nat /\ City.wallX wall + City.wallWidth wall / 2 <= - half) ->
  Forall (beyondTheEdge half)
    (fst (City.boundaryBuildings index wall segmentLength segmentSize
            indices rnd))
  /\ randomIn01
       (snd (City.boundaryBuildings index wall segmentLength segmentSize
               indices rnd)).
Proof.
  induction indices as [| i rest IH]; intros rnd Hr Hw; simpl.
  - split; [constructor | exact Hr].
  - match goal with
    | |- context [ City.boundaryBuildings index wall segmentLength
                     segmentSize rest ?r ] =>
        destruct (IH r) as [IH1 IH2];
          [repeat apply skip_in01; exact Hr | exact Hw |];
        destruct (City.boundaryBuildings index wall segmentLength
                    segmentSize rest r) as [obstacles rnd']
    end.
    simpl in *. split; [| exact IH2].
    constructor; [| exact IH1].
    split; [reflexivity |].
    eexists. eexists. eexists.
    split; [reflexivity |]. split; [reflexivity |].
    simpl. split; [pose proof (Hr 0%nat); lra |].
    destruct Hw as [[-> H] | [[-> H] | [[-> H] | [-> H]]]]; simpl; tauto.
Qed.

Lemma createBoundary_beyond c rnd :
  randomIn01 rnd ->
  Forall (beyondTheEdge (halfTotalSizeOf c)) (fst (City.createBoundary c rnd))
  /\ randomIn01 (snd (City.createBoundary c rnd)).
Proof.
  intros Hr. unfold City.createBoundary.
  fold (halfTotalSizeOf c).
  set (half := halfTotalSizeOf c).
  set (total := City.citySize c * City.blockSize c
                + (City.citySize c + 1) * City.roadWidth c).
  unfold City.visibleWalls.
  repeat match goal with
  | |- context [ City.boundaryBuildings ?i ?w ?l ?s ?idx ?r ] =>
      let H1 := fresh "Hb" in
      let H2 := fresh "Hr" in
      let os := fresh "os" in
      let r' := fresh "rnd" in
      destruct (boundaryBuildings_beyond half i w l s idx r) as [H1 H2];
        [assumption
        | first [ left; split; [reflexivity | simpl; lra]
                | right; left; split; [reflexivity | simpl; lra]
                | right; right; left; split; [reflexivity | simpl; lra]
                | right; right; right; split; [reflexivity | simpl; lra] ]
        |];
      destruct (City.boundaryBuildings i w l s idx r) as [os r'];
      simpl in H1, H2
  end.
  simpl. split; [| assumption].
  assert (Hw : forall wall,
            City.wallZ wall + City.wallDepth wall / 2 <= - half
            \/ half <= City.wallZ wall - City.wallDepth wall / 2
            \/ City.wallX wall + City.wallWidth wall / 2 <= - half
            \/ half <= City.wallX wall - City.wallWidth wall / 2 ->
            beyondTheEdge half (City.invisibleWall wall)).
  { intros wall H. split; [reflexivity |].
    eexists. eexists. eexists.
    split; [reflexivity |]. split; [reflexivity |]. simpl.
    split; [lra | exact H]. }
  repeat (apply Forall_app; split; try assumption).
  - constructor.
  - repeat (apply Forall_cons; [apply Hw; simpl; lra |]). constructor.
Qed.

Lemma insideFootprint_unrotated pos opos w d :
  insideFootprint pos opos w d 0
  = (Rabs (vx pos - vx opos) <? w / 2) && (Rabs (vz pos - vz opos) <? d / 2).
Proof.
  unfold insideFootprint, sub. simpl.
  rewrite Ropp_0, cos_0, sin_0.
  replace ((vx pos - vx opos) * 1 + (vz pos - vz opos) * 0)
    with (vx pos - vx opos) by ring.
  replace (- (vx pos - vx opos) * 0 + (vz pos - vz opos) * 1)
    with (vz pos - vz opos) by ring.
  reflexivity.
Qed.

Lemma overlaps_beyond half pos o :
  beyondTheEdge half o ->
  Rabs (vx pos) <= half -> Rabs (vz pos) <= half -> vy pos < 5.7 ->
  overlaps pos o = false.
Proof.
  intros (Ht & p & w & d & Hp & Hm & Hy & Hside) Hx Hz Hlow.
  unfold overlaps. rewrite Hp, Ht. simpl.
  rewrite (checkBoxCollision_above pos o p (City.boxMesh w d)
             {| Mesh.parameters :=
                  Some {| Mesh.width := w; Mesh.depth := d |} |}
             {| Mesh.width := w; Mesh.depth := d |});
    try reflexivity; try assumption;
    [| unfold Car.boundingRadius; lra].
  simpl. rewrite insideFootprint_unrotated.
  assert (Hx' : - half <= vx pos <= half)
    by (revert Hx; unfold Rabs; destruct (Rcase_abs _); lra).
  assert (Hz' : - half <= vz pos <= half)
    by (revert Hz; unfold Rabs; destruct (Rcase_abs _); lra).
  destruct Hside as [H | [H | [H | H]]].
  - apply andb_false_intro2. apply ltb_false.
    unfold Rabs; destruct (Rcase_abs _); lra.
  - apply andb_false_intro2. apply ltb_false.
    unfold Rabs; destruct (Rcase_abs _); lra.
  - apply andb_false_intro1. apply ltb_false.
    unfold Rabs; destruct (Rcase_abs _); lra.
  - apply andb_false_intro1. apply ltb_false.
    unfold Rabs; destruct (Rcase_abs _); lra.
Qed.

(** X20: the walls [createBoundary] builds never stop a car inside the
    city.  Whatever the random heights, every wall has a position (so the
    pedestrians' boundary test does not throw), and a car below height 5.7
    whose centre is within the city square |x|, |z| <= halfTotalSize
    collides with none of them: the walls lie beyond the edges, and as
    their positions are 7.5 or more above the ground only the centre of
    the car is tested against their rectangles. *)
Theorem walls_never_stop_a_car_inside_the_city c rnd pos :
  randomIn01 rnd ->
  let walls := fst (City.createBoundary c rnd) in
  boundariesPlaced walls
  /\ (Rabs (vx pos) <= halfTotalSizeOf c ->
      Rabs (vz pos) <= halfTotalSizeOf c ->
      vy pos < 5.7 ->
      Car.checkCollisions pos walls = Car.NoCollision).
Proof.
  intros Hr walls.
  destruct (createBoundary_beyond c rnd Hr) as [Hall _]. fold walls in Hall.
  split.
  - unfold boundariesPlaced. eapply Forall_impl; [| exact Hall].
    intros o (_ & p & w & d & Hp & _) _. rewrite Hp. discriminate.
  - intros Hx Hz Hy.
    apply (proj1 (checkCollisions_spec pos walls)).
    intros o Hin. rewrite Forall_forall in Hall.
    apply (overlaps_beyond (halfTotalSizeOf c)); auto.
Qed.

Lemma walls_never_stop_a_car_inside_the_city_witness :
  Car.checkCollisions (V3 0 0.5 94)
    (fst (City.createBoundary City.new (fun _ => 0))) = Car.NoCollision.
Proof.
  assert (Hh : halfTotalSizeOf City.new = 95)
    by (unfold halfTotalSizeOf; simpl; lra).
  refine (proj2 (walls_never_stop_a_car_inside_the_city City.new
                   (fun _ => 0) (V3 0 0.5 94) _) _ _ _).
  - intros n. lra.
  - rewrite Hh. simpl. rewrite Rabs_R0. lra.
  - rewrite Hh. simpl. rewrite Rabs_right; lra.
  - simpl. lra.
Defined.

(** ** Props *)

(** X21: whatever has happened to a prop, [resetPhysicsObject] puts it
    back upright and at rest: not knocked over, velocity and angular
    velocity zero, its original rotation, and its position equal to its
    original position (for a trash can both are the new sidewalk
    position).  Type, mass, radius, height and the reset timer are left as
    they are: the timer is not cleared.  For every type but the trash can
    the game is untouched and a second reset changes nothing. *)
Theorem reset_puts_a_prop_back g obj obj' g' :
  Game.resetPhysicsObject g obj = Some (obj', g') ->
  PhysicsObject.isKnockedOver obj' = false
  /\ PhysicsObject.velocity obj' = V3 0 0 0
  /\ PhysicsObject.angularVelocity obj' = V3 0 0 0
  /\ PhysicsObject.rotation obj' = PhysicsObject.originalRotation obj
  /\ PhysicsObject.originalRotation obj' = PhysicsObject.originalRotation obj
  /\ PhysicsObject.position obj' = PhysicsObject.originalPosition obj'
  /\ PhysicsObject.type obj' = PhysicsObject.type obj
  /\ PhysicsObject.mass obj' = PhysicsObject.mass obj
  /\ PhysicsObject.radius obj' = PhysicsObject.radius obj
  /\ PhysicsObject.height obj' = PhysicsObject.height obj
  /\ PhysicsObject.resetTimer obj' = PhysicsObject.resetTimer obj
  /\ (PhysicsObject.type obj <> trashCan ->
      g' = g
      /\ PhysicsObject.originalPosition obj'
         = PhysicsObject.originalPosition obj
      /\ Game.resetPhysicsObject g' obj' = Some (obj', g')).
Proof.
  unfold Game.resetPhysicsObject.
  destruct (PhysicsObject.type obj) eqn:Et.
  1: { destruct (Game.getRandomSidewalkPosition g) as [[p g1] |];
         [| discriminate].
       intros H; injection H as <- <-. simpl.
       repeat split; try reflexivity; try assumption; exfalso;
         match goal with H : ?x <> ?x |- _ => apply H; reflexivity end. }
  all: intros H; injection H as <- <-; simpl; rewrite Et;
    repeat split; try reflexivity; try assumption.
Qed.

Lemma reset_puts_a_prop_back_witness :
  exists obj' g',
    Game.resetPhysicsObject Sample.openField
      (PhysicsObject.set_isKnockedOver
         (PhysicsObject.set_position Sample.benchAtOrigin (V3 3 0.25 4))
         true) = Some (obj', g')
    /\ PhysicsObject.isKnockedOver obj' = false
    /\ PhysicsObject.position obj' = V3 0 0.25 0.
Proof.
  eexists. eexists. split; [reflexivity |].
  match goal with
  | |- PhysicsObject.isKnockedOver ?o = false /\ _ =>
      destruct (reset_puts_a_prop_back Sample.openField
                  (PhysicsObject.set_isKnockedOver
                     (PhysicsObject.set_position Sample.benchAtOrigin
                        (V3 3 0.25 4)) true)
                  o Sample.openField eq_refl)
        as (Hk & _ & _ & _ & _ & Hp & _)
  end.
  split; [exact Hk | exact Hp].
Defined.

Lemma resetPhysicsObject_facts g obj obj' g' :
  Game.resetPhysicsObject g obj = Some (obj', g') ->
  PhysicsObject.isKnockedOver obj' = false
  /\ PhysicsObject.position obj' = PhysicsObject.originalPosition obj'
  /\ PhysicsObject.resetTimer obj' = PhysicsObject.resetTimer obj
  /\ PhysicsObject.height obj' = PhysicsObject.height obj.
Proof.
  unfold Game.resetPhysicsObject.
  destruct (PhysicsObject.type obj).
  1: { destruct (Game.getRandomSidewalkPosition g) as [[p g1] |];
         [| discriminate].
       intros H; injection H as <- <-. repeat split. }
  all: intros H; injection H as <- <-; repeat split.
Qed.

Section PropGround.

Variable rotateBy : Euler -> Euler -> Euler.

(** X22: a prop that has been knocked over never sinks into the ground.
    After each step of its simulation it is either reset (upright at its
    original position) or still knocked over with its centre at least half
    its height above the ground.  Its reset timer never goes down, not
    even at a reset. *)
Theorem knocked_over_prop_stays_above_ground dt carPosition carDirection
    carSpeed g obj obj' g' :
  0 <= dt ->
  PhysicsObject.isKnockedOver obj = true ->
  Game.updatePhysicsObject rotateBy dt carPosition carDirection carSpeed g obj
  = Some (obj', g') ->
  ((PhysicsObject.isKnockedOver obj' = false
    /\ PhysicsObject.position obj' = PhysicsObject.originalPosition obj')
   \/ (PhysicsObject.isKnockedOver obj' = true
       /\ PhysicsObject.height obj' / 2 <= vy (PhysicsObject.position obj')))
  /\ PhysicsObject.height obj' = PhysicsObject.height obj
  /\ Game.resetTimerValue obj <= Game.resetTimerValue obj'.
Proof.
  intros Hdt Hk. unfold Game.updatePhysicsObject. rewrite Hk. simpl.
  unfold Game.simulateKnockedOver.
  destruct (_ <? 0) eqn:Eg; simpl.
  all: match goal with
       | |- context [ if ?a || ?b || ?c then _ else _ ] =>
           destruct (a || b || c)
       end.
  all: try match goal with
       | |- context [ if ?a then Game.resetPhysicsObject _ _ else _ ] =>
           destruct a
       end.
  all: try (intros H; apply resetPhysicsObject_facts in H;
            destruct H as (H1 & H2 & H3 & H4);
            split; [left; split; assumption |];
            split; [rewrite H4; reflexivity |];
            unfold Game.resetTimerValue; rewrite H3; simpl; lra).
  all: intros H; injection H as <- <-; simpl; rewrite Hk.
  all: try apply ltb_false in Eg; simpl in *.
  all: split; [right; split; [reflexivity | lra] |].
  all: split; [reflexivity |].
  all: unfold Game.resetTimerValue; simpl; try lra.
  all: destruct (PhysicsObject.resetTimer obj); lra.
Qed.

End PropGround.

(** A bench knocked over, in the air above the origin. *)
Definition flyingBench : PhysicsObject.t :=
  PhysicsObject.set_velocity
    (PhysicsObject.set_isKnockedOver
       (PhysicsObject.set_position Sample.benchAtOrigin (V3 0 1 0)) true)
    (V3 1 2 0).

Lemma knocked_over_prop_stays_above_ground_witness :
  exists obj' g',
    Game.updatePhysicsObject Sample.addAngles 0.016 (V3 0 0.5 0) (V3 0 0 1) 0
      Sample.openField flyingBench = Some (obj', g')
    /\ PhysicsObject.height obj' = PhysicsObject.height flyingBench.
Proof.
  destruct (updatePhysicsObject_total Sample.addAngles 0.016 (V3 0 0.5 0)
              (V3 0 0 1) 0 Sample.openField flyingBench worldOk_openField)
    as (obj' & g' & E).
  exists obj', g'. split; [exact E |].
  refine (proj1 (proj2
    (knocked_over_prop_stays_above_ground Sample.addAngles 0.016
       (V3 0 0.5 0) (V3 0 0 1) 0 Sample.openField flyingBench obj' g'
       _ eq_refl E))).
  lra.
Defined.

Lemma roadAt_In roadArray roadIndex road :
  Game.roadAt roadArray roadIndex = Some road -> In road roadArray.
Proof.
  unfold Game.roadAt. destruct (_ <? 0)%Z; [discriminate |].
  apply nth_error_In.
Qed.

(** X23: where a reset trash can goes.  In a world with roads in both
    directions and random numbers in [0, 1), [getRandomSidewalkPosition]
    does not throw; it uses four random numbers and returns a point at
    height 1 beside a road of the city: at width / 2 + 1.5 from the centre
    line of a horizontal road, on either side, or of a vertical road, and
    anywhere between -halfSize and halfSize along it.  Without any road it
    throws. *)
Theorem sidewalk_position_is_beside_a_road g :
  worldOk g ->
  0 <= Game.halfSize g ->
  (exists p g',
     Game.getRandomSidewalkPosition g = Some (p, g')
     /\ g' = afterDraws 4 g
     /\ vy p = 1
     /\ ((exists road,
            In road (City.horizontal (Game.city g))
            /\ (vz p = City.center road + (City.width road / 2 + 1.5)
                \/ vz p = City.center road - (City.width road / 2 + 1.5))
            /\ - Game.halfSize g <= vx p <= Game.halfSize g)
         \/ (exists road,
               In road (City.vertical (Game.city g))
               /\ (vx p = City.center road + (City.width road / 2 + 1.5)
                   \/ vx p = City.center road - (City.width road / 2 + 1.5))
               /\ - Game.halfSize g <= vz p <= Game.halfSize g)))
  /\ (forall g0,
        City.horizontal (Game.city g0) = [] ->
        City.vertical (Game.city g0) = [] ->
        Game.getRandomSidewalkPosition g0 = None).
Proof.
  intros Hw Hhalf. split.
  - destruct (getRandomSidewalkPosition_total g Hw) as (p & g' & E).
    exists p, g'. split; [exact E |].
    split; [eapply getRandomSidewalkPosition_step; exact E |].
    destruct Hw as (_ & _ & _ & Hr).
    pose proof (Hr 2%nat) as H2. pose proof (Hr 3%nat) as H3.
    revert E. unfold Game.getRandomSidewalkPosition, Game.halfSize in *.
    simpl.
    set (total := City.citySize (Game.city g) * City.blockSize (Game.city g)
                  + (City.citySize (Game.city g) + 1)
                    * City.roadWidth (Game.city g)) in *.
    assert (Hx : - (total / 2) <= Game.random g 3%nat * total - total / 2
                 <= total / 2) by nra.
    destruct (Game.random g 0%nat >? 0.5);
      destruct (Game.roadAt _ _) as [road |] eqn:Er; try discriminate;
      apply roadAt_In in Er;
      destruct (Game.random g 2%nat >? 0.5);
      intros H; injection H as <- _; simpl;
      (split; [reflexivity |]);
      [left | left | right | right]; exists road;
      (split; [exact Er |]); (split; [| exact Hx]);
      first [left; ring | right; ring].
  - intros g0 Hh Hv. unfold Game.getRandomSidewalkPosition. simpl.
    rewrite Hh, Hv.
    destruct (_ >? 0.5); simpl; unfold Game.roadAt;
      destruct (_ <? 0)%Z; try reflexivity; rewrite nth_error_nil;
      reflexivity.
Qed.

Lemma sidewalk_position_is_beside_a_road_witness :
  exists p g',
    Game.getRandomSidewalkPosition Sample.openField = Some (p, g')
    /\ vy p = 1.
Proof.
  destruct (sidewalk_position_is_beside_a_road Sample.openField
              worldOk_openField) as [(p & g' & E & _ & Hy & _) _].
  - unfold Game.halfSize; simpl; lra.
  - exists p, g'. split; assumption.
Defined.

Section SlowCar.

Variable rotateBy : Euler -> Euler -> Euler.

Lemma threshold_at_least_3 ty : 3 <= Game.knockoverThreshold ty.
Proof. destruct ty; simpl; lra. Qed.

Lemma slow_loop dt carPosition carDirection carSpeed objs :
  forall g,
  carSpeed <= 6 ->
  Forall (fun obj => PhysicsObject.isKnockedOver obj = false) objs ->
  Game.updatePhysicsObjectsLoop rotateBy dt carPosition carDirection carSpeed
    g objs = Some (objs, g).
Proof.
  induction objs as [| obj rest IH]; intros g Hs Hall; [reflexivity |].
  inversion Hall as [| ? ? Hk Hrest]; subst. simpl.
  unfold Game.updatePhysicsObject. rewrite Hk. simpl.
  assert (E : (carSpeed * 0.5
               >? Game.knockoverThreshold (PhysicsObject.type obj)) = false).
  { apply gtb_false. pose proof (threshold_at_least_3 (PhysicsObject.type obj)).
    lra. }
  rewrite E.
  destruct (Game.hitByCar _ _ _); simpl; rewrite (IH g Hs Hrest);
    reflexivity.
Qed.

(** X30: a slow car knocks nothing over.  While every prop is upright and
    the car is no faster than 6 (so that half its speed is not above the
    lowest threshold, the 3 of a trash can), [updatePhysicsObjects] changes
    nothing at all: no prop moves, no point is scored, no random number is
    drawn and the car keeps its speed, even when it touches a prop. *)
Theorem a_slow_car_knocks_nothing_over dt g :
  Car.getSpeed (Game.car g) <= 6 ->
  Forall (fun obj => PhysicsObject.isKnockedOver obj = false)
         (Game.physicsObjects g) ->
  Game.updatePhysicsObjects rotateBy dt g = Some g.
Proof.
  intros Hs Hall. unfold Game.updatePhysicsObjects.
  rewrite slow_loop by assumption. simpl.
  destruct g; reflexivity.
Qed.

End SlowCar.

Lemma a_slow_car_knocks_nothing_over_witness :
  Game.updatePhysicsObjects Sample.addAngles 0.016
    (Sample.game Car.new [] [] [Sample.trashCanAtOrigin] [])
  = Some (Sample.game Car.new [] [] [Sample.trashCanAtOrigin] []).
Proof.
  apply a_slow_car_knocks_nothing_over.
  - unfold Car.getSpeed; simpl. rewrite Rabs_R0. lra.
  - repeat constructor.
Defined.

(** ** Pedestrians *)

(** Where a pedestrian stands on the ground. *)
Definition groundPoint (p : Vector3) : R * R := (vx p, vz p).

Lemma atCityBoundary_ground g p q :
  groundPoint p = groundPoint q ->
  Game.atCityBoundary g p = Game.atCityBoundary g q.
Proof.
  unfold groundPoint, Game.atCityBoundary. intros H.
  injection H as -> ->. reflexivity.
Qed.

Lemma atCityBoundary_afterDraws k g p :
  Game.atCityBoundary (afterDraws k g) p = Game.atCityBoundary g p.
Proof. reflexivity. Qed.

(** A step of a walking pedestrian either leaves it where it is (it was
    redirected) or takes it to the point one step ahead, which then is
    clear of the city boundary and of every boundary obstacle. *)
Lemma updateWalkingHuman_place human dt g human' g' :
  Game.updateWalkingHuman human dt g = Some (human', g') ->
  groundPoint (Human.position human') = groundPoint (Human.position human)
  \/ (Game.atCityBoundary g (Human.position human') = false
      /\ exists newPosition,
           groundPoint (Human.position human') = groundPoint newPosition
           /\ Game.hitsBoundaryObstacle newPosition
                (Human.boundingRadius human) (Game.obstacles g)
              = Some false).
Proof.
  unfold Game.updateWalkingHuman.
  destruct (lengthSq (Human.velocity human) <? 0.01); simpl;
    (destruct (Game.hitsBoundaryObstacle _ _ _) as [cd |] eqn:Eh;
       [| discriminate]);
    (destruct (Game.atCityBoundary _ _) eqn:Ea; simpl;
     [ rewrite orb_true_r; simpl
     | rewrite orb_false_r; destruct cd; simpl;
       [| destruct (_ <? 0.01); simpl ] ]);
    intros H; injection H as <- <-; simpl;
    try (left; reflexivity).
  all: right;
    (split;
     [ erewrite atCityBoundary_ground; [exact Ea | reflexivity]
     | eexists; split; [| exact Eh]; reflexivity ]).
Qed.

(** X24: a walking pedestrian does not walk out of the city.  If it
    stands inside the boundary strip (|x| and |z| at most halfSize - 5)
    before its update it does so after it, whether it walked on, turned
    round, took fright or was run over. *)
Theorem walking_pedestrian_stays_in_the_city dt carPosition carRadius
    carSpeed g human human' g' :
  Human.state human = walking ->
  Game.atCityBoundary g (Human.position human) = false ->
  Game.updateHuman dt carPosition carRadius carSpeed g human
  = Some (human', g') ->
  Game.atCityBoundary g' (Human.position human') = false
  /\ Game.halfSize g' = Game.halfSize g.
Proof.
  intros Hs Hin H.
  assert (Hg : Game.city g' = Game.city g).
  { apply updateHuman_cases in H. destruct H as (_ & [H | H]).
    - destruct H as (_ & _ & _ & ->). reflexivity.
    - destruct H as (_ & k & ->). reflexivity. }
  assert (Hb : forall p, Game.atCityBoundary g' p = Game.atCityBoundary g p).
  { intros p. unfold Game.atCityBoundary, Game.halfSize. rewrite Hg.
    reflexivity. }
  split; [| unfold Game.halfSize; rewrite Hg; reflexivity].
  rewrite Hb. revert H. unfold Game.updateHuman.
  assert (Hsame : forall q,
            groundPoint q = groundPoint (Human.position human) ->
            Game.atCityBoundary g q = false).
  { intros q Hq. rewrite (atCityBoundary_ground g q _ Hq). exact Hin. }
  destruct (Human.isDead human) eqn:Hd.
  { intros H; injection H as <- _. exact Hin. }
  destruct (_ && _).
  { unfold Game.killHuman. simpl. rewrite Hd.
    intros H; injection H as <- _. simpl. apply Hsame. reflexivity. }
  destruct (_ >? _); simpl; rewrite Hs.
  { intros H; injection H as <- _. simpl. apply Hsame. reflexivity. }
  destruct (_ <? _).
  { intros H; injection H as <- _. simpl. apply Hsame. reflexivity. }
  intros H. apply updateWalkingHuman_place in H.
  destruct H as [H | [H _]].
  - apply Hsame. rewrite H. reflexivity.
  - exact H.
Qed.

Lemma walker_update :
  Game.updateHuman 0.016 (V3 0 0.5 0) 1.8 0 walkerGame Sample.walker
  = Some (walkerAfter, walkerGame).
Proof.
  unfold Game.updateHuman. simpl.
  unfold setY; simpl. rewrite walker_distance.
  cmp_false (2.525 <? 1.8 + 0.4). simpl.
  cmp_false (2.525 >? 500). cmp_true (2.525 <? 15).
  reflexivity.
Qed.

Lemma walking_pedestrian_stays_in_the_city_witness :
  Game.atCityBoundary walkerGame (Human.position walkerAfter) = false.
Proof.
  refine (proj1 (walking_pedestrian_stays_in_the_city 0.016
                   (V3 0 0.5 0) 1.8 0
                   walkerGame Sample.walker walkerAfter walkerGame
                   eq_refl _ walker_update)).
  unfold Game.atCityBoundary, Game.halfSize; simpl.
  rewrite Rabs_R0, Rabs_right by lra.
  cmp_false (2.475 >? (3 * 50 + (3 + 1) * 10) / 2 - 5).
  cmp_false (0 >? (3 * 50 + (3 + 1) * 10) / 2 - 5). reflexivity.
Defined.

(** X25: [killHuman] counts a pedestrian once.  The first call marks it
    dead and adds its point value to the score; any later call, from
    whatever direction, changes neither the pedestrian nor the score. *)
Theorem a_pedestrian_is_killed_once human d1 d2 g :
  let '(h1, g1) := Game.killHuman human d1 g in
  Human.isDead h1 = true
  /\ (Human.isDead human = false ->
      Human.state h1 = dead
      /\ Game.score g1 = Game.score g + Human.pointValue human)
  /\ (Human.isDead human = true -> h1 = human /\ g1 = g)
  /\ Game.killHuman h1 d2 g1 = (h1, g1).
Proof.
  unfold Game.killHuman.
  destruct (Human.isDead human) eqn:Hd; simpl.
  - rewrite Hd. repeat split; auto; discriminate.
  - repeat split; auto; discriminate.
Qed.

(** X26: a fleeing pedestrian runs straight away from the car.  When the
    step ahead is clear of the boundary and of the boundary obstacles, it
    stays on the ground line through the car and itself and its ground
    offset from the car grows by the factor
    1 + fleeSpeed * deltaTime / distance. *)
Theorem fleeing_pedestrian_runs_straight_away human dt carPosition g human'
    g' :
  let humanPos := Human.position human in
  let distance := distanceTo humanPos carPosition in
  let newPosition :=
    add humanPos
        (multiplyScalar
           (multiplyScalar (normalize (sub humanPos carPosition))
                           (Human.fleeSpeed human))
           dt) in
  distance <> 0 ->
  Game.hitsBoundaryObstacle newPosition (Human.boundingRadius human)
    (Game.obstacles g) = Some false ->
  Game.atCityBoundary g newPosition = false ->
  Game.flee human dt carPosition g = Some (human', g') ->
  let k := 1 + Human.fleeSpeed human * dt / distance in
  vx (Human.position human') - vx carPosition
  = k * (vx humanPos - vx carPosition)
  /\ vz (Human.position human') - vz carPosition
     = k * (vz humanPos - vz carPosition)
  /\ vy (Human.position human') = 0
  /\ g' = g.
Proof.
  intros humanPos distance newPosition Hd Hh Hb H k.
  unfold Game.flee in H. fold humanPos in H. simpl in H.
  fold newPosition in H. rewrite Hh in H. simpl in H.
  rewrite Hb in H. simpl in H.
  injection H as <- <-. simpl.
  unfold k, distance, distanceTo, normalize.
  destruct (Req_dec_T (THREE.length (sub humanPos carPosition)) 0)
    as [E | E]; [contradiction |].
  simpl. repeat split; field; exact E.
Qed.

(** A pedestrian two units north of the car, level with it. *)
Definition runner : Human.t :=
  Human.set_state (Human.set_position Sample.walker (V3 0 0.5 2)) fleeing.

Lemma fleeing_pedestrian_runs_straight_away_witness :
  exists human' g',
    Game.flee runner 0.016 (V3 0 0.5 0) Sample.openField = Some (human', g')
    /\ vy (Human.position human') = 0.
Proof.
  assert (En : normalize (sub (Human.position runner) (V3 0 0.5 0))
               = V3 0 0 1).
  { replace (sub _ _) with (V3 0 0 2) by (unfold sub; simpl; f_equal; lra).
    apply normalize_axis_z_pos. lra. }
  destruct (flee_total runner 0.016 (V3 0 0.5 0) Sample.openField)
    as (human' & E); [constructor |].
  exists human', Sample.openField. split; [exact E |].
  refine (proj1 (proj2 (proj2
    (fleeing_pedestrian_runs_straight_away runner 0.016 (V3 0 0.5 0)
       Sample.openField human' Sample.openField _ eq_refl _ E)))).
  - unfold distanceTo.
    replace (sub _ _) with (V3 0 0 2) by (unfold sub; simpl; f_equal; lra).
    rewrite length_axis_z, Rabs_right by lra. lra.
  - rewrite En. unfold Game.atCityBoundary, Game.halfSize. simpl.
    replace (0 + 0 * 5 * 0.016) with 0 by lra.
    rewrite Rabs_R0, Rabs_right by lra.
    cmp_false (0 >? (3 * 50 + (3 + 1) * 10) / 2 - 5).
    cmp_false (2 + 1 * 5 * 0.016 >? (3 * 50 + (3 + 1) * 10) / 2 - 5).
    reflexivity.
Defined.

(** ** Night mode *)

Lemma map_map_relight {A : Type} (f g : A -> A) (l : list A) :
  (forall x, f (g x) = f x) -> map f (map g l) = map f l.
Proof.
  intros H. rewrite map_map. apply map_ext. exact H.
Qed.

Lemma toggle_toggle_toggle nightMode scene :
  let t1 := Game.toggleNightMode nightMode scene in
  let t2 := Game.toggleNightMode (fst t1) (snd t1) in
  Game.toggleNightMode (fst t2) (snd t2) = t1.
Proof.
  unfold Game.toggleNightMode.
  destruct nightMode; simpl; f_equal; f_equal;
    rewrite map_map_relight;
    try (apply map_map_relight);
    intros [[] i]; reflexivity.
Qed.

(** X27: the night mode key.  Each press flips the flag and keeps the
    number and the types of the scene's children, and from the second
    press on two presses are a round trip.  But the first two are not:
    the day settings [toggleNightMode] restores (directional lights 0.8,
    ambient light 0.5, a sky-blue background and fog) are not those
    [init] starts with (ambient 0.7, sun 1.0, fill light 0.4, no
    background or fog), so after night and day again the lights of the
    scene differ from the initial ones. *)
Theorem night_mode_is_a_round_trip_only_from_the_second_press nightMode
    scene :
  let t1 := Game.toggleNightMode nightMode scene in
  let t2 := Game.toggleNightMode (fst t1) (snd t1) in
  let t3 := Game.toggleNightMode (fst t2) (snd t2) in
  fst t1 = negb nightMode
  /\ fst t2 = nightMode
  /\ map Scene.type (Scene.children (snd t1))
     = map Scene.type (Scene.children scene)
  /\ t3 = t1
  /\ Game.toggleNightMode (fst t3) (snd t3) = t2
  /\ (let scene0 := Game.setupLights Scene.new in
      let back :=
        snd (Game.toggleNightMode true
               (snd (Game.toggleNightMode false scene0))) in
      map Scene.intensity (Scene.children scene0) = [0.7; 1.0; 0.4]
      /\ map Scene.intensity (Scene.children back) = [0.5; 0.8; 0.8]
      /\ back <> scene0).
Proof.
  intros t1 t2 t3.
  assert (E3 : t3 = t1) by apply toggle_toggle_toggle.
  split; [unfold t1, Game.toggleNightMode; destruct nightMode; reflexivity |].
  split; [unfold t2, t1, Game.toggleNightMode; destruct nightMode;
          reflexivity |].
  split.
  { unfold t1, Game.toggleNightMode. destruct nightMode; simpl;
      rewrite map_map; apply map_ext; intros [[] i]; reflexivity. }
  split; [exact E3 |].
  split; [rewrite E3; reflexivity |].
  simpl. split; [reflexivity |]. split; [reflexivity |].
  intros H. apply (f_equal Scene.background) in H. discriminate.
Qed.

(** ** A whole tick *)

(** The fields of a prop no update assigns. *)
Definition sameKind (o o' : PhysicsObject.t) : Prop :=
  PhysicsObject.type o' = PhysicsObject.type o
  /\ PhysicsObject.mass o' = PhysicsObject.mass o
  /\ PhysicsObject.radius o' = PhysicsObject.radius o
  /\ PhysicsObject.height o' = PhysicsObject.height o
  /\ PhysicsObject.pole o' = PhysicsObject.pole o
  /\ PhysicsObject.originalRotation o' = PhysicsObject.originalRotation o.

Lemma resetPhysicsObject_kind g obj obj' g' :
  Game.resetPhysicsObject g obj = Some (obj', g') -> sameKind obj obj'.
Proof.
  unfold Game.resetPhysicsObject.
  destruct (PhysicsObject.type obj) eqn:Et.
  1: { destruct (Game.getRandomSidewalkPosition g) as [[p g1] |];
         [| discriminate].
       intros H; injection H as <- _. repeat split; simpl; auto. }
  all: intros H; injection H as <- _; repeat split; simpl; auto.
Qed.

Lemma knockOver_kind carPosition carDirection carSpeed impactForce g obj :
  sameKind obj
    (fst (Game.knockOver carPosition carDirection carSpeed impactForce g obj)).
Proof.
  unfold Game.knockOver; simpl.
  destruct (PhysicsObject.type obj) eqn:Et; simpl; repeat split; auto.
Qed.

Section Cast.

Variable rotateBy : Euler -> Euler -> Euler.

Lemma updatePhysicsObject_kind dt carPosition carDirection carSpeed g obj
      obj' g' :
  Game.updatePhysicsObject rotateBy dt carPosition carDirection carSpeed g obj
  = Some (obj', g') ->
  sameKind obj obj'.
Proof.
  unfold Game.updatePhysicsObject.
  destruct (negb (PhysicsObject.isKnockedOver obj)).
  - destruct (Game.hitByCar _ _ _); [destruct (_ >? _) |];
      intros H; try (injection H as <- _; repeat split).
    injection H as H. apply (f_equal fst) in H. simpl in H. rewrite <- H.
    apply knockOver_kind.
  - unfold Game.simulateKnockedOver.
    destruct (_ <? 0); simpl.
    all: match goal with
         | |- context [ if ?a || ?b || ?c then _ else _ ] =>
             destruct (a || b || c)
         end.
    all: try match goal with
         | |- context [ if ?a then Game.resetPhysicsObject _ _ else _ ] =>
             destruct a
         end.
    all: try (intros H; injection H as <- _; repeat split).
    all: intros H; apply resetPhysicsObject_kind in H;
      destruct H as (a & b & c & d & e & f); repeat split; assumption.
Qed.

Lemma updatePhysicsObjectsLoop_kind dt carPosition carDirection carSpeed
      objs :
  forall g objs' g',
  Game.updatePhysicsObjectsLoop rotateBy dt carPosition carDirection carSpeed
    g objs = Some (objs', g') ->
  Forall2 sameKind objs objs'.
Proof.
  induction objs as [| obj rest IH]; simpl; intros g objs' g' H.
  - injection H as <- _. constructor.
  - destruct (Game.updatePhysicsObject _ _ _ _ _ _ _) as [[o1 g1] |] eqn:E1;
      [| discriminate].
    destruct (Game.updatePhysicsObjectsLoop _ _ _ _ _ _ _) as [[r1 g2] |]
      eqn:E2; [| discriminate].
    injection H as <- _. constructor.
    + eapply updatePhysicsObject_kind; exact E1.
    + eapply IH; exact E2.
Qed.

Lemma updateHumansLoop_traits dt carPosition carRadius carSpeed hs :
  forall g hs' g',
  Game.updateHumansLoop dt carPosition carRadius carSpeed g hs
  = Some (hs', g') ->
  Forall2 sameTraits hs hs'.
Proof.
  induction hs as [| h rest IH]; simpl; intros g hs' g' H.
  - injection H as <- _. constructor.
  - destruct (Game.updateHuman _ _ _ _ _ _) as [[h1 g1] |] eqn:E1;
      [| discriminate].
    destruct (Game.updateHumansLoop _ _ _ _ _ _) as [[r1 g2] |] eqn:E2;
      [| discriminate].
    injection H as <- _. constructor.
    + apply updateHuman_cases in E1. apply E1.
    + eapply IH; exact E2.
Qed.

(** X28: a tick keeps the cast.  [update] neither adds nor removes a
    pedestrian or a prop, and keeps them in order; each pedestrian keeps
    its speeds, radii and point value, each prop its type, mass, radius,
    height and original rotation; the city, the obstacles and the ramps
    are the same after the tick. *)
Theorem a_tick_keeps_the_cast ih dt g g' :
  Game.update rotateBy ih dt g = Some g' ->
  Forall2 sameTraits (Game.humans g) (Game.humans g')
  /\ Forall2 sameKind (Game.physicsObjects g) (Game.physicsObjects g')
  /\ List.length (Game.humans g') = List.length (Game.humans g)
  /\ List.length (Game.physicsObjects g')
     = List.length (Game.physicsObjects g)
  /\ Game.city g' = Game.city g
  /\ Game.obstacles g' = Game.obstacles g
  /\ Game.ramps g' = Game.ramps g.
Proof.
  intros H. apply update_unfold in H. destruct H as (g1 & E1 & E2).
  destruct (carPhase_only ih dt g) as (c & b & Ec).
  pose proof (updatePhysicsObjects_step _ _ _ _ E1)
    as ((Hc1 & Ho1 & Hr1 & _) & Hh1 & _).
  pose proof (updateHumans_car _ _ _ E2) as (_ & (Hc2 & Ho2 & Hr2 & _) & Hp2).
  assert (Hprops : Forall2 sameKind (Game.physicsObjects g)
                     (Game.physicsObjects g')).
  { rewrite Hp2. unfold Game.updatePhysicsObjects in E1.
    destruct (Game.updatePhysicsObjectsLoop _ _ _ _ _ _ _) as [[o1 g2] |]
      eqn:E; [| discriminate].
    injection E1 as <-. simpl.
    apply updatePhysicsObjectsLoop_kind in E.
    rewrite Ec in E. exact E. }
  assert (Hhumans : Forall2 sameTraits (Game.humans g) (Game.humans g')).
  { apply updateHumans_unfold in E2. destruct E2 as (hs' & g2 & E & ->).
    simpl. apply updateHumansLoop_traits in E.
    rewrite Hh1, Ec in E. exact E. }
  split; [exact Hhumans |]. split; [exact Hprops |].
  split; [symmetry; eapply Forall2_length; exact Hhumans |].
  split; [symmetry; eapply Forall2_length; exact Hprops |].
  rewrite Hc2, Ho2, Hr2, Hc1, Ho1, Hr1, Ec. repeat split.
Qed.

End Cast.

Lemma a_tick_keeps_the_cast_witness :
  List.length (Game.humans walkerGameAfter)
  = List.length (Game.humans walkerGame).
Proof.
  exact (proj1 (proj2 (proj2
    (a_tick_keeps_the_cast Sample.addAngles Sample.noKeys 0.016 walkerGame
       walkerGameAfter walkerGame_tick)))).
Defined.

Lemma boundariesPlaced_app a b :
  boundariesPlaced a -> boundariesPlaced b -> boundariesPlaced (a ++ b).
Proof. intros Ha Hb. apply Forall_app. split; assumption. Qed.

(** X29: a tick of the world the [City] constructor builds does not
    throw.  With the roads [createGround] lays out, the walls of
    [createBoundary] among the obstacles (any others not being
    boundaries, like the trees), and [Math.random] in [0, 1), [update]
    returns, whatever the keys, the frame time, the car, the props and the
    pedestrians are; and the world it returns is again such a world, so
    every later tick returns too. *)
Theorem a_tick_of_the_built_world_returns rotateBy ih dt c0 rnd others g :
  0 <= City.citySize c0 ->
  City.horizontal c0 = [] -> City.vertical c0 = [] ->
  randomIn01 rnd ->
  Forall (fun o => Obstacle.type o <> boundary) others ->
  Game.city g = City.createGround c0 ->
  Game.obstacles g = others ++ fst (City.createBoundary (Game.city g) rnd) ->
  randomOk g ->
  exists g',
    Game.update rotateBy ih dt g = Some g'
    /\ worldOk g'
    /\ Game.city g' = Game.city g
    /\ Game.obstacles g' = Game.obstacles g.
Proof.
  intros Hs Hh Hv Hr Ho Hc Hobs Hrand.
  assert (Hw : worldOk g).
  { destruct (createGround_roads c0 Hh Hv) as [Eh Ev].
    pose proof (roadCount_pos c0 Hs) as Hn.
    split; [| split; [| split]].
    - rewrite Hc, Eh. destruct (roadCount c0); [lia | discriminate].
    - rewrite Hc, Ev. destruct (roadCount c0); [lia | discriminate].
    - rewrite Hobs. apply boundariesPlaced_app.
      + eapply Forall_impl; [| exact Ho]. intros o Hne Ht. contradiction.
      + destruct (createBoundary_beyond (Game.city g) rnd Hr) as [Hall _].
        eapply Forall_impl; [| exact Hall].
        intros o (_ & p & w & d & Hp & _) _. rewrite Hp. discriminate.
    - exact Hrand. }
  destruct (update_total rotateBy ih dt g Hw) as (g' & E & Hw').
  exists g'. split; [exact E |]. split; [exact Hw' |].
  apply update_unfold in E. destruct E as (g1 & E1 & E2).
  destruct (carPhase_only ih dt g) as (c & b & Ec).
  pose proof (updatePhysicsObjects_step _ _ _ _ E1)
    as ((Hc1 & Ho1 & _) & _).
  pose proof (updateHumans_car _ _ _ E2) as (_ & (Hc2 & Ho2 & _) & _).
  rewrite Hc2, Ho2, Hc1, Ho1, Ec. split; reflexivity.
Qed.

(** The world of [init] on the empty field: the roads and the walls, no
    trees, props or pedestrians. *)
Definition builtGame : Game.t :=
  Game.mk Car.new City.new 0
    (fst (City.createBoundary City.new (fun _ => 0))) [] [] []
    Game.setupSpeedBoost (fun _ => 0).

Lemma a_tick_of_the_built_world_returns_witness :
  exists g', Game.update Sample.addAngles Sample.noKeys 0.016 builtGame
             = Some g'.
Proof.
  destruct (a_tick_of_the_built_world_returns Sample.addAngles Sample.noKeys
              0.016
              {| City.citySize := 3; City.blockSize := 50;
                 City.roadWidth := 10;
                 City.horizontal := []; City.vertical := [] |}
              (fun _ => 0) [] builtGame)
    as (g' & E & _); try reflexivity.
  - simpl; lra.
  - intros n; lra.
  - constructor.
  - intros n; simpl; lra.
  - exists g'. exact E.
Defined.

(** ** A collision with a wall of the city (C3) *)





















